(** * viberules: symlink synchronisation, ignore-section rewriting and
      the config store, verified over a shallow embedding of the Go code.

    The development follows the layout of the repository:
    - [Strings], [Filepath]: the few functions of Go's [strings] and
      [path/filepath] packages that the program calls (Unix flavour);
    - the target registry ([GetAllTargets], [GetRequiredDirectories]);
    - a model of the operating-system calls over a finite map from cleaned
      paths to nodes, threaded through a small state-and-error monad that
      also records every mutating call in a trace;
    - package [core] (symlink.go) and package [main] (main.go);
    - the theorems. *)

From Stdlib Require Import ZArith Ascii.
From stdpp Require Import gmap strings list fin_maps.

Local Open Scope Z_scope.
Local Open Scope stdpp_scope.

(* ===================================================================== *)
(** * Go's [strings] package (the functions used by the program)          *)
(* ===================================================================== *)

Module Strings.

(** [strings.HasPrefix(s, prefix)] *)
Fixpoint HasPrefix (s prefix : string) : bool :=
  match prefix, s with
  | EmptyString, _ => true
  | String _ _, EmptyString => false
  | String a p', String b s' => Ascii.eqb a b && HasPrefix s' p'
  end.

(** [strings.Contains(s, substr)] *)
Fixpoint Contains (s substr : string) : bool :=
  HasPrefix s substr ||
  match s with
  | EmptyString => false
  | String _ s' => Contains s' substr
  end.

(** [strings.Count(s, substr)] for a non-empty [substr] whose occurrences
    cannot overlap themselves (true of every marker counted here). *)
Fixpoint Count (s substr : string) : nat :=
  match s with
  | EmptyString => 0%nat
  | String _ s' => ((if HasPrefix s substr then 1 else 0) + Count s' substr)%nat
  end.

(** [strings.Split(s, sep)] for a one-byte separator.  As in Go, splitting
    the empty string yields one empty field. *)
Fixpoint Split (s : string) (sep : ascii) : list string :=
  match s with
  | EmptyString => [EmptyString]
  | String c s' =>
      if Ascii.eqb c sep then EmptyString :: Split s' sep
      else match Split s' sep with
           | l :: ls => String c l :: ls
           | [] => [String c EmptyString]
           end
  end.

(** [strings.Join(elems, sep)] *)
Fixpoint Join (elems : list string) (sep : string) : string :=
  match elems with
  | [] => EmptyString
  | [e] => e
  | e :: rest => e +:+ sep +:+ Join rest sep
  end.

(** [strings.TrimRight(s, cutset)] for a one-byte cutset. *)
Fixpoint TrimRight (s : string) (cut : ascii) : string :=
  match s with
  | EmptyString => EmptyString
  | String c s' =>
      match TrimRight s' cut with
      | EmptyString => if Ascii.eqb c cut then EmptyString else String c EmptyString
      | t => String c t
      end
  end.

(** [s[len(s)-1]], the last byte of a non-empty string. *)
Fixpoint last_byte (s : string) : option ascii :=
  match s with
  | EmptyString => None
  | String c EmptyString => Some c
  | String _ s' => last_byte s'
  end.

(** [strings.IndexByte(s, c) >= 0] *)
Fixpoint has_byte (c : ascii) (s : string) : bool :=
  match s with
  | EmptyString => false
  | String a s' => Ascii.eqb a c || has_byte c s'
  end.

End Strings.

(* ===================================================================== *)
(** * Go's [path/filepath] package, Unix flavour                          *)
(* ===================================================================== *)

Module Filepath.

Definition sep : ascii := "/"%char.

(** One step of the scan in [filepath.Clean]: [out] is the stack of the
    elements written so far (innermost first).  Empty and [.] elements are
    dropped; [..] pops a real element, is dropped at the root of a rooted
    path, and is kept otherwise. *)
Definition clean_step (rooted : bool) (out : list string) (elem : string)
  : list string :=
  if decide (elem = "") then out
  else if decide (elem = ".") then out
  else if decide (elem = "..") then
    match out with
    | top :: rest => if decide (top = "..") then elem :: out else rest
    | [] => if rooted then [] else [elem]
    end
  else elem :: out.

(** [filepath.Clean(path)] *)
Definition Clean (path : string) : string :=
  if decide (path = "") then "."
  else
    let rooted := Strings.HasPrefix path "/" in
    let out := rev (fold_left (clean_step rooted) (Strings.Split path sep) []) in
    if rooted then "/" +:+ Strings.Join out "/"
    else match out with
         | [] => "."
         | _ => Strings.Join out "/"
         end.

(** [filepath.Join(elem...)]: leading empty elements are ignored, the rest
    is joined with the separator and cleaned. *)
Fixpoint Join (elem : list string) : string :=
  match elem with
  | [] => ""
  | e :: rest => if decide (e = "") then Join rest
                 else Clean (Strings.Join elem "/")
  end.

(** [path[:i+1]] where [i] is the index of the last separator. *)
Fixpoint upto_last_sep (path : string) : string :=
  match path with
  | EmptyString => EmptyString
  | String c rest =>
      match upto_last_sep rest with
      | EmptyString => if Ascii.eqb c sep then String c EmptyString else EmptyString
      | r => String c r
      end
  end.

(** [filepath.Dir(path)] *)
Definition Dir (path : string) : string := Clean (upto_last_sep path).

End Filepath.

(** A path element that [Clean] keeps as it is. *)
Definition real_elem (e : string) : Prop := e ≠ "" ∧ e ≠ "." ∧ e ≠ "..".

(** The stacks that the scan of [Clean] builds: real elements on top of
    the [..] elements that lead a relative path. *)
Definition clean_stack (rooted : bool) (st : list string) : Prop :=
  ∃ reals k, st = reals ++ replicate k ".."
             ∧ Forall real_elem reals ∧ (rooted = true → k = 0%nat).

(* ===================================================================== *)
(** * The target registry (package [core])                                *)
(* ===================================================================== *)

(** [SymlinkDef]: [Source] is the link's destination, relative to the
    directory of the link; [Target] is where the link itself lives. *)
Record SymlinkDef := mkSymlinkDef { Source : string; Target : string }.

(** [Target] in the Go source; renamed because the field above has the name. *)
Record TargetDef := mkTarget { Name : string; Links : list SymlinkDef }.

#[global] Instance SymlinkDef_eq_dec : EqDecision SymlinkDef.
Proof. solve_decision. Defined.
#[global] Instance TargetDef_eq_dec : EqDecision TargetDef.
Proof. solve_decision. Defined.

Definition GetAllTargets : list TargetDef :=
  [ mkTarget "claude"
      [ mkSymlinkDef (Filepath.Join [".viberules"; "rules.md"]) "CLAUDE.md" ];
    mkTarget "amazonq"
      [ mkSymlinkDef (Filepath.Join [".."; ".."; ".viberules"; "rules.md"])
                     (Filepath.Join [".amazonq"; "rules"; "AMAZONQ.md"]) ];
    mkTarget "gemini"
      [ mkSymlinkDef (Filepath.Join [".viberules"; "rules.md"]) "GEMINI.md" ];
    mkTarget "codex"
      [ mkSymlinkDef (Filepath.Join [".viberules"; "rules.md"]) "AGENTS.md" ] ].

Definition GetRequiredDirectories : list string :=
  [ Filepath.Join [".amazonq"; "rules"] ].

(** Where a link's [Source] leads when it is resolved from the directory
    that contains the link. *)
Definition resolved_source (l : SymlinkDef) : string :=
  Filepath.Join [Filepath.Dir (Target l); Source l].

(** Number of directories between the project root and a relative path. *)
Definition nesting_depth (path : string) : nat :=
  match Filepath.Dir path with
  | "." => 0%nat
  | d => length (Strings.Split d Filepath.sep)
  end.

(* ===================================================================== *)
(** * Errors, results and the state-and-error monad                       *)
(* ===================================================================== *)

Inductive errno := ENOENT | ENOTDIR | EISDIR | EEXIST | ELOOP | ENOTEMPTY | EINVAL.

(** Go errors.  [Errorf] keeps the format string of the [fmt.Errorf] call
    and its arguments; a [%w] argument is the wrapped cause. *)
Inductive error :=
| PathError (op path : string) (err : errno)
| LinkError (op oldname newname : string) (err : errno)
| YamlError
| Errorf (format : string) (args : list fmt_arg)
with fmt_arg :=
| ArgS (s : string)
| ArgD (n : Z)
| ArgE (e : error).

Inductive result (A : Type) :=
| Ok (a : A)
| Err (e : error).
Arguments Ok {A} a.
Arguments Err {A} e.

Definition is_ok {A} (r : result A) : bool :=
  match r with Ok _ => true | Err _ => false end.

(** A filesystem entry. *)
Inductive node :=
| NFile (content : string)
| NDir
| NSymlink (dest : string).

(** Mutating system calls, recorded in the order in which they succeed. *)
Inductive event :=
| EvMkdir (path : string)
| EvSymlink (oldname newname : string)
| EvRemove (path : string)
| EvWriteFile (path data : string).

(** The world a command runs in: the project tree, keyed by cleaned paths
    relative to the working directory, and the trace of mutating calls. *)
Record world := mkWorld { fs : gmap string node; trace : list event }.

Definition M (A : Type) : Type := world → result A * world.

Definition ret {A} (a : A) : M A := λ w, (Ok a, w).
Definition fail {A} (e : error) : M A := λ w, (Err e, w).
Definition bind {A B} (m : M A) (k : A → M B) : M B :=
  λ w, match m w with
       | (Ok a, w') => k a w'
       | (Err e, w') => (Err e, w')
       end.

#[global] Instance M_ret : MRet M := @ret.
#[global] Instance M_bind : MBind M := λ A B k m, bind m k.

(** [if err != nil { return fmt.Errorf(..., err) }] *)
Definition on_error {A} (m : M A) (wrap : error → error) : M A :=
  λ w, match m w with
       | (Err e, w') => (Err (wrap e), w')
       | r => r
       end.

(** Run a call and hand its [(value, err)] pair to the caller. *)
Definition try {A} (m : M A) : M (result A) :=
  λ w, let '(r, w') := m w in (Ok r, w').

(** [for _, x := range l { if err := body(x); err != nil { return err } }] *)
Fixpoint for_each {A} (l : list A) (body : A → M unit) : M unit :=
  match l with
  | [] => ret ()
  | x :: rest => _ ← body x; for_each rest body
  end.

(** A loop that updates local variables: [s] holds their values on entry to
    a round, the body returns their values on exit. *)
Fixpoint for_state {A S} (l : list A) (body : A → S → M S) (s : S) : M S :=
  match l with
  | [] => ret s
  | x :: rest => s' ← body x s; for_state rest body s'
  end.

(* ===================================================================== *)
(** * The operating system                                                *)
(* ===================================================================== *)

(** The tree is a finite map from cleaned paths to entries; an entry stands
    only below directories.  The working directory and the root are
    directories that always exist.  The program hands cleaned names to the
    system calls, so a name is looked up as it stands; when nothing is found
    under it, the names above it tell [ENOENT] (a directory is missing)
    from [ENOTDIR] (something else stands where a directory is needed).
    The destination of a symbolic link is arbitrary text and is walked as
    the kernel walks it, element by element.  A link is followed in the
    last position of a name only: a directory reached through a link is
    outside the model, and a link standing where a directory is needed
    counts as an entry that is not a directory.  Permissions are not
    modelled. *)

Inductive FileMode := ModeRegular | ModeDir | ModeSymlink.
Record FileInfo := mkFileInfo { fi_Mode : FileMode; fi_Size : Z }.

Definition IsDir (info : FileInfo) : bool :=
  match fi_Mode info with ModeDir => true | _ => false end.

(** [info.Mode()&os.ModeSymlink != 0] *)
Definition IsSymlinkMode (info : FileInfo) : bool :=
  match fi_Mode info with ModeSymlink => true | _ => false end.

Definition info_of (n : node) : FileInfo :=
  match n with
  | NFile c => mkFileInfo ModeRegular (Z.of_nat (String.length c))
  | NDir => mkFileInfo ModeDir 4096
  | NSymlink d => mkFileInfo ModeSymlink (Z.of_nat (String.length d))
  end.

Definition node_at (m : gmap string node) (path : string) : option node :=
  if decide (path = ".") then Some NDir
  else if decide (path = "/") then Some NDir
  else m !! path.

Definition is_symlink (n : node) : bool :=
  match n with NSymlink _ => true | _ => false end.

(** The entry that a system call finds at [path] without following a link
    in the last position. *)
Definition entry_at (w : world) (path : string) : option node :=
  node_at (fs w) (Filepath.Clean path).

(** The names above [path], outermost first. *)
Fixpoint ancestors_upto (fuel : nat) (path : string) : list string :=
  match fuel with
  | O => []
  | S n => let dir := Filepath.Dir path in
           if decide (dir = path) then [] else ancestors_upto n dir ++ [dir]
  end.

Definition ancestors (path : string) : list string :=
  ancestors_upto (String.length path) path.

(** What the first of [dirs] that is not a directory does to a lookup
    below it: a missing one gives [ENOENT], anything else [ENOTDIR]. *)
Fixpoint first_obstacle (m : gmap string node) (dirs : list string) : option errno :=
  match dirs with
  | [] => None
  | dir :: rest =>
      match node_at m dir with
      | Some NDir => first_obstacle m rest
      | Some _ => Some ENOTDIR
      | None => Some ENOENT
      end
  end.

(** The error that a lookup of [path] reports when [path] holds nothing. *)
Definition absent_errno (m : gmap string node) (path : string) : errno :=
  default ENOENT (first_obstacle m (ancestors path)).

(** The kernel's lookup of a name, not following a link in the last
    position. *)
Definition lstat_node (m : gmap string node) (path : string) : errno + node :=
  match node_at m path with
  | Some n => inr n
  | None => inl (absent_errno m path)
  end.

(** What stops the walk from going on from [dir], if anything. *)
Definition need_dir (m : gmap string node) (dir : string) : option errno :=
  match lstat_node m dir with
  | inr NDir => None
  | inr _ => Some ENOTDIR
  | inl e => Some e
  end.

(** The walk over the elements of a link's destination, starting in the
    directory [dir]: an empty element or [.] stays in the directory, [..]
    goes to the one above, a name goes down.  Staying and going up need
    [dir] to be a directory; [sure] tells that it is known to be one, as
    the directory of an entry that exists and the directory above a
    directory are.  The result is the cleaned name at which the walk ends;
    what it holds is looked up by the caller. *)
Fixpoint walk (m : gmap string node) (sure : bool) (dir : string)
    (elems : list string) : errno + string :=
  match elems with
  | [] => inr dir
  | e :: rest =>
      if decide (e = "" ∨ e = ".") then
        match (if sure then None else need_dir m dir) with
        | Some err => inl err
        | None => walk m true dir rest
        end
      else if decide (e = "..") then
        match (if sure then None else need_dir m dir) with
        | Some err => inl err
        | None => walk m true (Filepath.Join [dir; ".."]) rest
        end
      else walk m false (Filepath.Join [dir; e]) rest
  end.

(** Where the destination [dest] of the link at [link] leads: the walk
    starts at the root for a rooted destination and in the directory of the
    link otherwise. *)
Definition link_dest (m : gmap string node) (link dest : string) : errno + string :=
  if decide (dest = "") then inl ENOENT
  else walk m true (if Strings.HasPrefix dest "/" then "/" else Filepath.Dir link)
         (Strings.Split dest Filepath.sep).

(** Linux gives up after 40 nested links. *)
Definition maxSymlinks : nat := 40.

(** Follow the links at [path] to the first name that is not a link (it may
    be absent). *)
Fixpoint follow (fuel : nat) (m : gmap string node) (path : string)
  : errno + string :=
  match node_at m path with
  | Some (NSymlink d) =>
      match fuel with
      | O => inl ELOOP
      | S n => match link_dest m path d with
               | inl e => inl e
               | inr q => follow n m q
               end
      end
  | _ => inr path
  end.

Definition stat_node (m : gmap string node) (path : string) : errno + node :=
  match follow maxSymlinks m path with
  | inl e => inl e
  | inr q => lstat_node m q
  end.

(** Following the links at [path] ends at an existing entry. *)
Definition reachable (m : gmap string node) (path : string) : bool :=
  match stat_node m path with inr _ => true | inl _ => false end.



(** A name that holds a file or nothing. *)
Definition writable_at (m : gmap string node) (q : string) : Prop :=
  node_at m q = None ∨ ∃ c, node_at m q = Some (NFile c).

(** [m'] is [m] with directories added at names that held nothing. *)
Definition dirs_added (m m' : gmap string node) : Prop :=
  ∀ q, m' !! q = m !! q ∨ (m !! q = None ∧ m' !! q = Some NDir).

Definition os_Lstat (name : string) : M FileInfo :=
  λ w, match lstat_node (fs w) name with
       | inr n => (Ok (info_of n), w)
       | inl e => (Err (PathError "lstat" name e), w)
       end.

Definition os_Stat (name : string) : M FileInfo :=
  λ w, match stat_node (fs w) name with
       | inr n => (Ok (info_of n), w)
       | inl e => (Err (PathError "stat" name e), w)
       end.

Definition os_Readlink (name : string) : M string :=
  λ w, match lstat_node (fs w) name with
       | inr (NSymlink d) => (Ok d, w)
       | inr _ => (Err (PathError "readlink" name EINVAL), w)
       | inl e => (Err (PathError "readlink" name e), w)
       end.

Definition os_IsNotExist (err : error) : bool :=
  match err with
  | PathError _ _ ENOENT => true
  | LinkError _ _ _ ENOENT => true
  | _ => false
  end.

Definition os_ReadFile (name : string) : M string :=
  λ w, match stat_node (fs w) name with
       | inr (NFile c) => (Ok c, w)
       | inr _ => (Err (PathError "read" name EISDIR), w)
       | inl e => (Err (PathError "open" name e), w)
       end.

Definition emit (ev : event) (m : gmap string node) (w : world) : world :=
  mkWorld m (trace w ++ [ev]).

(** What stops a new entry from being created at [name], if anything. *)
Definition create_errno (m : gmap string node) (name : string) : option errno :=
  match node_at m name with
  | Some _ => Some EEXIST
  | None => need_dir m (Filepath.Dir name)
  end.

(** [os.WriteFile(name, data, 0644)]: create or truncate, through links. *)
Definition os_WriteFile (name data : string) : M unit :=
  λ w, match follow maxSymlinks (fs w) name with
       | inl e => (Err (PathError "open" name e), w)
       | inr q =>
           match node_at (fs w) q with
           | Some (NFile _) => (Ok (), emit (EvWriteFile name data) (<[q := NFile data]> (fs w)) w)
           | Some _ => (Err (PathError "open" name EISDIR), w)
           | None =>
               match create_errno (fs w) q with
               | Some e => (Err (PathError "open" name e), w)
               | None => (Ok (), emit (EvWriteFile name data) (<[q := NFile data]> (fs w)) w)
               end
           end
       end.

Definition has_children (m : gmap string node) (dir : string) : bool :=
  bool_decide (map_Exists (λ k _, k ≠ dir ∧ Filepath.Dir k = dir) m).

(** [os.Remove(name)]: unlink a file or link, or remove an empty directory. *)
Definition os_Remove (name : string) : M unit :=
  λ w, match (fs w) !! name with
       | None => (Err (PathError "remove" name (absent_errno (fs w) name)), w)
       | Some NDir =>
           if has_children (fs w) name
           then (Err (PathError "remove" name ENOTEMPTY), w)
           else (Ok (), emit (EvRemove name) (delete name (fs w)) w)
       | Some _ => (Ok (), emit (EvRemove name) (delete name (fs w)) w)
       end.

(** [os.Symlink(oldname, newname)] *)
Definition os_Symlink (oldname newname : string) : M unit :=
  λ w, match create_errno (fs w) newname with
       | Some e => (Err (LinkError "symlink" oldname newname e), w)
       | None => (Ok (), emit (EvSymlink oldname newname)
                              (<[newname := NSymlink oldname]> (fs w)) w)
       end.

(** [os.Mkdir(name, 0755)] *)
Definition os_Mkdir (name : string) : M unit :=
  λ w, match create_errno (fs w) name with
       | Some e => (Err (PathError "mkdir" name e), w)
       | None => (Ok (), emit (EvMkdir name) (<[name := NDir]> (fs w)) w)
       end.

(** [os.MkdirAll(path, 0755)].  [relems] holds the elements of the path,
    innermost first.  The fast path asks [os.Stat]: a directory (also one
    that a link leads to) ends the call, anything else is [ENOTDIR].  The
    slow path makes the parent, then the directory, and on a failure of
    [os.Mkdir] looks once more whether the directory is there. *)
Fixpoint mkdirAll_rec (relems : list string) : M unit :=
  match relems with
  | [] => ret ()
  | _ :: parent =>
      let path := Strings.Join (rev relems) "/" in
      if decide (path = "") then ret ()
      else
        r ← try (os_Stat path);
        match r with
        | Ok dir =>
            if IsDir dir then ret ()
            else fail (PathError "mkdir" path ENOTDIR)
        | Err _ =>
            _ ← mkdirAll_rec parent;
            r ← try (os_Mkdir path);
            match r with
            | Ok _ => ret ()
            | Err err =>
                r1 ← try (os_Lstat path);
                match r1 with
                | Ok dir => if IsDir dir then ret () else fail err
                | Err _ => fail err
                end
            end
        end
  end.

Definition os_MkdirAll (path : string) : M unit :=
  mkdirAll_rec (rev (Strings.Split path Filepath.sep)).

(* ===================================================================== *)
(** * Package [core]: symlink.go                                          *)
(* ===================================================================== *)

(** [removeSymlink] removes a symlink if it exists, and nothing else. *)
Definition removeSymlink (path : string) : M unit :=
  let path := Filepath.Clean path in
  r ← try (os_Lstat path);
  match r with
  | Err err =>
      if os_IsNotExist err then ret ()
      else fail (Errorf "failed to stat %s: %w" [ArgS path; ArgE err])
  | Ok info =>
      if negb (IsSymlinkMode info)
      then fail (Errorf "refusing to remove %s: not a symlink" [ArgS path])
      else on_error (os_Remove path)
             (λ err, Errorf "failed to remove symlink %s: %w" [ArgS path; ArgE err])
  end.

(** [createSymlink] creates a symlink, removing an existing one first. *)
Definition createSymlink (source target : string) : M unit :=
  let source := Filepath.Clean source in
  let target := Filepath.Clean target in
  _ ← removeSymlink target;
  let targetDir := Filepath.Dir target in
  _ ← (if decide (targetDir ≠ ".")
       then on_error (os_MkdirAll targetDir)
              (λ err, Errorf "failed to create parent directory: %w" [ArgE err])
       else ret ());
  on_error (os_Symlink source target)
    (λ err, Errorf "failed to create symlink %s -> %s: %w"
              [ArgS target; ArgS source; ArgE err]).

Definition mkdir_required : M unit :=
  for_each GetRequiredDirectories (λ dir,
    on_error (os_MkdirAll dir)
      (λ err, Errorf "failed to create directory %s: %w" [ArgS dir; ArgE err])).

Definition CreateAllSymlinks : M unit :=
  let targets := GetAllTargets in
  _ ← mkdir_required;
  for_each targets (λ target,
    for_each (Links target) (λ link,
      on_error (createSymlink (Source link) (Target link))
        (λ err, Errorf "failed to create symlink for %s: %w"
                  [ArgS (Name target); ArgE err]))).

Definition RemoveAllSymlinks : M unit :=
  let targets := GetAllTargets in
  for_each targets (λ target,
    for_each (Links target) (λ link,
      on_error (removeSymlink (Target link))
        (λ err, Errorf "failed to remove symlink for %s: %w"
                  [ArgS (Name target); ArgE err]))).

(** [IsSymlinkValid]: the four checks, in order. *)
Definition IsSymlinkValid (linkPath expectedTarget : string) : M bool :=
  let linkPath := Filepath.Clean linkPath in
  let expectedTarget := Filepath.Clean expectedTarget in
  r ← try (os_Lstat linkPath);
  match r with
  | Err _ => ret false
  | Ok info =>
      if negb (IsSymlinkMode info) then ret false
      else
        r ← try (os_Readlink linkPath);
        match r with
        | Err _ => ret false
        | Ok actualTarget =>
            if negb (bool_decide (Filepath.Clean actualTarget = expectedTarget))
            then ret false
            else r ← try (os_Stat linkPath); ret (is_ok r)
        end
  end.

(** The loop over the registry shared by the two per-target operations:
    the first target with the given name gets [body], none is an error. *)
Fixpoint with_target (targets : list TargetDef) (targetName : string)
    (body : TargetDef → M unit) : M unit :=
  match targets with
  | [] => fail (Errorf "target %s not found" [ArgS targetName])
  | target :: rest =>
      if decide (Name target = targetName) then body target
      else with_target rest targetName body
  end.

(** The registry lookup behind the per-target operations. *)
Definition find_target (targetName : string) : option TargetDef :=
  find (λ t, bool_decide (Name t = targetName)) GetAllTargets.

Definition CreateTargetSymlinks (targetName : string) : M unit :=
  with_target GetAllTargets targetName (λ target,
    _ ← mkdir_required;
    for_each (Links target) (λ link,
      on_error (createSymlink (Source link) (Target link))
        (λ err, Errorf "failed to create symlink: %w" [ArgE err]))).

Definition RemoveTargetSymlinks (targetName : string) : M unit :=
  with_target GetAllTargets targetName (λ target,
    for_each (Links target) (λ link,
      on_error (removeSymlink (Target link))
        (λ err, Errorf "failed to remove symlink: %w" [ArgE err]))).

(** [fmt.Sprintf("%s (%s)", link.Target, target.Name)] *)
Definition missing_entry (target : TargetDef) (link : SymlinkDef) : string :=
  Target link +:+ " (" +:+ Name target +:+ ")".

(** [CheckAllSymlinks]: the local variables of the loops are [allValid] and
    [missing]. *)
Definition CheckAllSymlinks : M (bool * list string) :=
  let targets := GetAllTargets in
  for_state targets (λ target,
    for_state (Links target) (λ link '(allValid, missing),
      valid ← IsSymlinkValid (Target link) (Source link);
      if negb valid
      then ret (false, missing ++ [missing_entry target link])
      else ret (allValid, missing)))
    (true, []).

(* ===================================================================== *)
(** * Package [main]: main.go                                             *)
(* ===================================================================== *)

Record Config := mkConfig { Mode : string; Targets : list string }.

(** [gopkg.in/yaml.v3] is an external library, used as a black-box
    structured store for [Config]. *)
Class YamlCodec := {
  yaml_Marshal : Config → string;
  yaml_Unmarshal : string → option Config
}.

(** The section markers of .gitignore; they identify sections written by
    earlier runs and must not change. *)
Definition gitignoreSectionPrefix : string := "# viberules".
Definition gitignoreLocalMode : string := "# viberules (local mode".
Definition gitignoreLocalFiles : string := "# viberules local files".
Definition gitignoreConfigFile : string := "# viberules config file".
Definition gitignoreOutputFiles : string := "# viberules output files".

Definition newline : ascii := "010"%char.

(** A raw string literal that starts with a line break and holds the given
    lines, each ended by a line break. *)
Definition raw_lines (lines : list string) : string :=
  String newline (foldr (λ l acc, l +:+ String newline acc) "" lines).

Definition defaultTargets : list string := ["claude"; "amazonq"; "gemini"; "codex"].

Definition rulesContent : string :=
  foldr (λ l acc, l +:+ String newline acc) ""
    [ "# AI Assistant Rules";
      "";
      "> ⚠️ IMPORTANT: Edit THIS FILE (rules.md) to update rules for ALL AI assistants";
      "> Changes here automatically apply to Claude, Amazon Q, Gemini, Codex, etc.";
      "";
      "## Project Overview";
      "Describe your project, tech stack, and coding standards here.";
      "";
      "## Coding Standards";
      "- Use TypeScript with strict mode";
      "- Follow ESLint configuration";
      "- Write unit tests for all functions";
      "- Use descriptive variable names";
      "";
      "## Architecture Guidelines";
      "- Follow clean architecture principles";
      "- Separate business logic from UI";
      "- Use dependency injection";
      "";
      "## Git Workflow";
      "- Use conventional commits";
      "- Create feature branches";
      "- Require code review for main branch";
      "";
      "---";
      "*This file is automatically linked to all AI assistants via viberules*" ].

Definition isValidTarget (target : string) : bool :=
  bool_decide (target ∈ ["claude"; "amazonq"; "gemini"; "codex"]).

Definition fileExists (filename : string) : M bool :=
  r ← try (os_Stat filename); ret (is_ok r).

Definition contains (s substr : string) : bool := Strings.Contains s substr.

(** The section that [addToGitignore] appends, by mode. *)
Definition viberulesSection (mode : string) : string :=
  if decide (mode = "local") then
    raw_lines
      [ gitignoreLocalMode +:+ " - entire directory ignored)";
        ".viberules/";
        "";
        gitignoreConfigFile +:+ " (always ignored)";
        ".viberules/.config.yaml";
        "";
        gitignoreLocalFiles +:+ " (personal files only)";
        "*.local.md";
        "";
        gitignoreOutputFiles +:+ " (symlinked)";
        ".amazonq/";
        "CLAUDE.md";
        "GEMINI.md";
        "AGENTS.md" ]
  else
    raw_lines
      [ gitignoreConfigFile +:+ " (always ignored)";
        ".viberules/.config.yaml";
        "";
        gitignoreLocalFiles +:+ " (personal files only)";
        "*.local.md";
        "";
        gitignoreOutputFiles +:+ " (symlinked)";
        ".amazonq/";
        "CLAUDE.md";
        "GEMINI.md";
        "AGENTS.md" ].

(** The loop of [addToGitignore] that drops an existing section: a line
    that starts with the section prefix opens a section, which runs up to
    the next comment line that does not mention viberules. *)
Fixpoint strip_sections (skipSection : bool) (lines : list string) : list string :=
  match lines with
  | [] => []
  | line :: rest =>
      if Strings.HasPrefix line gitignoreSectionPrefix then strip_sections true rest
      else if skipSection then
        if Strings.HasPrefix line "#" && negb (Strings.Contains line "viberules")
        then line :: strip_sections false rest
        else strip_sections true rest
      else line :: strip_sections skipSection rest
  end.

(** The text that [addToGitignore] writes, from the mode and the text read. *)
Definition gitignore_rewrite (mode contentStr : string) : string :=
  let viberulesSection := viberulesSection mode in
  let contentStr :=
    if contains contentStr gitignoreLocalFiles || contains contentStr gitignoreLocalMode
    then
      let lines := Strings.Split contentStr newline in
      let newLines := strip_sections false lines in
      Strings.TrimRight (Strings.Join newLines (String newline "")) newline
    else contentStr in
  let contentStr :=
    match Strings.last_byte contentStr with
    | Some c => if negb (Ascii.eqb c newline)
                then contentStr +:+ String newline ""
                else contentStr
    | None => contentStr
    end in
  contentStr +:+ viberulesSection.

(** The check of [addToGitignore] for an existing section. *)
Definition section_detected (contentStr : string) : bool :=
  contains contentStr gitignoreLocalFiles || contains contentStr gitignoreLocalMode.

(** The text kept from a file in which a section was detected. *)
Definition kept_text (contentStr : string) : string :=
  Strings.TrimRight
    (Strings.Join (strip_sections false (Strings.Split contentStr newline))
       (String newline "")) newline.

(** A line that does not open a section. *)
Abbreviation no_header := (λ l : string, Strings.HasPrefix l gitignoreSectionPrefix = false).

Definition maxConfigSize : Z := 1 * 1024 * 1024.

Definition configPath : string := ".viberules/.config.yaml".

Section Main.

Context {codec : YamlCodec}.

Definition loadConfig : M Config :=
  ex ← fileExists configPath;
  if negb ex then ret (mkConfig "local" ["claude"; "amazonq"; "gemini"; "codex"])
  else
    info ← on_error (os_Stat configPath)
             (λ err, Errorf "failed to stat config file: %w" [ArgE err]);
    if maxConfigSize <? fi_Size info
    then fail (Errorf "config file too large: %d bytes (max %d)"
                 [ArgD (fi_Size info); ArgD maxConfigSize])
    else
      content ← on_error (os_ReadFile configPath)
                  (λ err, Errorf "failed to read config file: %w" [ArgE err]);
      match yaml_Unmarshal content with
      | None => fail (Errorf "failed to parse config file: %w" [ArgE YamlError])
      | Some config =>
          if bool_decide (Mode config ≠ "local") && bool_decide (Mode config ≠ "public")
          then ret (mkConfig "local" (Targets config))
          else ret config
      end.

Definition saveConfig (config : Config) : M unit :=
  let content := yaml_Marshal config in
  on_error (os_WriteFile configPath content)
    (λ err, Errorf "failed to write config file: %w" [ArgE err]).

Definition loadEnabledTargets : M (list string) :=
  config ← loadConfig; ret (Targets config).

Definition saveEnabledTargets (targets : list string) : M unit :=
  config ← loadConfig;
  saveConfig (mkConfig (Mode config) targets).

Definition getProjectMode : M string :=
  r ← try loadConfig;
  match r with
  | Err _ => ret "local"
  | Ok config => ret (Mode config)
  end.

Definition setProjectMode (mode : string) : M unit :=
  if bool_decide (mode ≠ "public") && bool_decide (mode ≠ "local")
  then fail (Errorf "invalid mode: %s (must be 'public' or 'local')" [ArgS mode])
  else
    config ← loadConfig;
    saveConfig (mkConfig mode (Targets config)).

Definition addToGitignore : M unit :=
  let gitignorePath := ".gitignore" in
  mode ← getProjectMode;
  ex ← fileExists gitignorePath;
  content ← (if (ex : bool)
             then on_error (os_ReadFile gitignorePath)
                    (λ err, Errorf "failed to read .gitignore: %w" [ArgE err])
             else ret "");
  on_error (os_WriteFile gitignorePath (gitignore_rewrite mode content))
    (λ err, Errorf "failed to write .gitignore: %w" [ArgE err]).

(** [initProject]; [force] is the --force flag.  Messages printed to the
    terminal are not modelled. *)
Definition initProject (force : bool) : M unit :=
  r ← try (os_Stat ".viberules");
  if (match r with Ok stat => IsDir stat | Err _ => false end) && negb force
  then fail (Errorf ".viberules directory already exists. Use --force to reinitialize" (@nil fmt_arg))
  else
    _ ← on_error (os_MkdirAll ".viberules")
          (λ err, Errorf "failed to create .viberules directory: %w" [ArgE err]);
    let rulesFile := ".viberules/rules.md" in
    ex ← fileExists rulesFile;
    _ ← (if negb ex
         then on_error (os_WriteFile rulesFile rulesContent)
                (λ err, Errorf "failed to create .viberules/rules.md: %w" [ArgE err])
         else ret ());
    _ ← try addToGitignore;
    _ ← on_error CreateAllSymlinks
          (λ err, Errorf "failed to create symlinks: %w" [ArgE err]);
    let defaultConfig := mkConfig "local" ["claude"; "amazonq"; "gemini"; "codex"] in
    _ ← try (saveConfig defaultConfig);
    ret ().

Definition addTarget (target : string) : M unit :=
  if negb (isValidTarget target)
  then fail (Errorf "invalid target: %s (available: claude, amazonq, gemini, codex)"
               [ArgS target])
  else
    ex ← fileExists ".viberules/rules.md";
    if negb ex
    then fail (Errorf ".viberules/rules.md not found. Run 'viberules init' first" (@nil fmt_arg))
    else
      enabledTargets ← on_error loadEnabledTargets
                         (λ err, Errorf "failed to load target settings: %w" [ArgE err]);
      if bool_decide (target ∈ enabledTargets) then ret ()
      else
        let enabledTargets := enabledTargets ++ [target] in
        _ ← on_error (saveEnabledTargets enabledTargets)
              (λ err, Errorf "failed to save target settings: %w" [ArgE err]);
        _ ← on_error (CreateTargetSymlinks target)
              (λ err, Errorf "failed to create symlinks for target '%s': %w"
                        [ArgS target; ArgE err]);
        ret ().

Definition removeTarget (target : string) : M unit :=
  if negb (isValidTarget target)
  then fail (Errorf "invalid target: %s (available: claude, amazonq, gemini, codex)"
               [ArgS target])
  else
    enabledTargets ← on_error loadEnabledTargets
                       (λ err, Errorf "failed to load target settings: %w" [ArgE err]);
    let newTargets := filter (λ enabled, enabled ≠ target) enabledTargets in
    let found := bool_decide (target ∈ enabledTargets) in
    if negb found then ret ()
    else
      _ ← on_error (saveEnabledTargets newTargets)
            (λ err, Errorf "failed to save target settings: %w" [ArgE err]);
      _ ← on_error (RemoveTargetSymlinks target)
            (λ err, Errorf "failed to remove symlinks for target '%s': %w"
                      [ArgS target; ArgE err]);
      ret ().

(** [setModeCommand]: a failure to update .gitignore is printed and does
    not fail the command. *)
Definition setModeCommand (mode : string) : M unit :=
  ex ← fileExists ".viberules/rules.md";
  if negb ex
  then fail (Errorf ".viberules/rules.md not found. Run 'viberules init' first" (@nil fmt_arg))
  else
    _ ← setProjectMode mode;
    _ ← try addToGitignore;
    ret ().

End Main.

(* ===================================================================== *)
(** * Traces: which calls a command makes, and in which order             *)
(* ===================================================================== *)


Definition is_config_write (ev : event) : bool :=
  match ev with
  | EvWriteFile path _ => bool_decide (path = configPath)
  | _ => false
  end.

(** [os.Remove] is only reached for symlinks, so removals count. *)
Definition is_symlink_mutation (ev : event) : bool :=
  match ev with
  | EvSymlink _ _ | EvRemove _ => true
  | _ => false
  end.

(** No link is made or removed once the config store has been written. *)
Definition config_written_last (evs : list event) : Prop :=
  ∀ i j ev1 ev2,
    evs !! i = Some ev1 → is_config_write ev1 = true →
    evs !! j = Some ev2 → is_symlink_mutation ev2 = true →
    (j < i)%nat.

(** Every link that is made or removed comes after a write of the config
    store. *)
Definition config_written_first (evs : list event) : Prop :=
  ∀ j ev2,
    evs !! j = Some ev2 → is_symlink_mutation ev2 = true →
    ∃ i ev1, (i < j)%nat ∧ evs !! i = Some ev1 ∧ is_config_write ev1 = true.

(** The calls that set up links: mkdir, symlink, remove. *)
Definition link_event (ev : event) : Prop :=
  match ev with EvWriteFile _ _ => False | _ => True end.

Definition write_to (path : string) (ev : event) : Prop :=
  ∃ data, ev = EvWriteFile path data.

(** [m] only adds events of class [C] to the trace. *)
Definition appends (C : event → Prop) {A} (m : M A) : Prop :=
  ∀ w, ∃ evs, trace (m w).2 = trace w ++ evs ∧ Forall C evs.

(** The events of [m] fall into a first phase of class [C1] followed by a
    second phase of class [C2]. *)
Definition two_phase (C1 C2 : event → Prop) {A} (m : M A) : Prop :=
  ∀ w, ∃ e1 e2, trace (m w).2 = trace w ++ e1 ++ e2 ∧ Forall C1 e1 ∧ Forall C2 e2.

(* ===================================================================== *)
(** * Frames: what a command leaves as it found it                        *)
(* ===================================================================== *)

(** Every file and every directory of [w] is in [w'], with the same
    content. *)
Definition keeps_files (w w' : world) : Prop :=
  ∀ q n, fs w !! q = Some n → is_symlink n = false → fs w' !! q = Some n.

(** [w'] differs from [w] at most at the paths listed. *)
Definition same_outside (touched : list string) (w w' : world) : Prop :=
  ∀ q, q ∉ touched → fs w' !! q = fs w !! q.

(** [m] takes every world to one that [R] relates to it, whatever it
    returns. *)
Definition steps (R : world → world → Prop) {A} (m : M A) : Prop :=
  ∀ w, R w (m w).2.

(** What [IsSymlinkValid] answers for a link of the registry in [w]. *)
Definition valid_in (w : world) (link : SymlinkDef) : bool :=
  match (IsSymlinkValid (Target link) (Source link) w).1 with
  | Ok b => b
  | Err _ => false
  end.

(** The cleaned paths at which the links of a list of targets live. *)
Definition link_paths (targets : list TargetDef) : list string :=
  flat_map (λ t, map (λ l, Filepath.Clean (Target l)) (Links t)) targets.

(** The two directories above the nested link are directories or do not
    exist yet: no file and no symbolic link stands in their place. *)
Definition plain_parents (w : world) : Prop :=
  ∀ p, p ∈ [".amazonq"; ".amazonq/rules"] →
    node_at (fs w) p = None ∨ node_at (fs w) p = Some NDir.

(** No file and no link stands where a directory of [path] is needed:
    every name above the cleaned path holds a directory or nothing. *)
Definition dirs_above (w : world) (path : string) : Prop :=
  Forall (λ dir, node_at (fs w) dir = None ∨ node_at (fs w) dir = Some NDir)
    (ancestors (Filepath.Clean path)).

(** A regular file stands where a directory of [path] is needed, below
    directories that exist. *)
Definition file_above (w : world) (path : string) : Prop :=
  ∃ outer dir inner content,
    ancestors (Filepath.Clean path) = outer ++ dir :: inner
    ∧ Forall (λ d, node_at (fs w) d = Some NDir) outer
    ∧ node_at (fs w) dir = Some (NFile content).

(** No link path of the registry holds a regular file or a directory. *)
Definition links_or_free (w : world) : Prop :=
  ∀ t l n, t ∈ GetAllTargets → l ∈ Links t →
    entry_at w (Target l) = Some n → is_symlink n = true.

(** The two files that the commands write, .gitignore and the config
    store, are not symbolic links: a write to them goes to them. *)
Definition stores_plain (w : world) : Prop :=
  ∀ p d, p ∈ [".gitignore"; configPath] → fs w !! p ≠ Some (NSymlink d).

(** Going from [w] to [w'] keeps every file and directory other than the
    two stores, and leaves the stores plain. *)
Definition keeps_other_files (w w' : world) : Prop :=
  stores_plain w →
  stores_plain w'
  ∧ ∀ q n, q ∉ [".gitignore"; configPath] →
      fs w !! q = Some n → is_symlink n = false → fs w' !! q = Some n.

(** The text of a file, empty when there is none. *)
Definition text_at (w : world) (path : string) : string :=
  match fs w !! path with
  | Some (NFile content) => content
  | _ => ""
  end.

(** A path that holds a regular file or nothing. *)
Definition file_or_free (w : world) (path : string) : Prop :=
  fs w !! path = None ∨ ∃ content, fs w !! path = Some (NFile content).

(** The .gitignore pattern that covers a path: the path itself at the
    top of the project, its first directory (with the closing separator)
    below. *)
Definition ignore_pattern (path : string) : string :=
  match Strings.Split path Filepath.sep with
  | top :: _ :: _ => top +:+ "/"
  | _ => path
  end.

(** Every symbolic link of [w'] outside the paths listed was there in
    [w]: links are made at these paths only. *)
Definition links_only_at (paths : list string) (w w' : world) : Prop :=
  ∀ q d, q ∉ paths → fs w' !! q = Some (NSymlink d) → fs w !! q = Some (NSymlink d).

(* ===================================================================== *)
(** * A reference codec and sample project trees                          *)
(* ===================================================================== *)

(** The block style that yaml.v3 writes for a [Config] whose strings are
    plain scalars, and a reader for it.  Quoting is not covered: the codec
    instantiates [YamlCodec] on plain names only. *)
Module BlockYaml.

Definition item (t : string) : string := "    - " +:+ t +:+ String newline "".

Definition Marshal (c : Config) : string :=
  "mode: " +:+ Mode c +:+ String newline "" +:+
  match Targets c with
  | [] => "targets: []" +:+ String newline ""
  | ts => "targets:" +:+ String newline "" +:+ foldr (λ t acc, item t +:+ acc) "" ts
  end.

(** [strings.CutPrefix] *)
Fixpoint cut_prefix (s prefix : string) : option string :=
  match prefix, s with
  | EmptyString, _ => Some s
  | String _ _, EmptyString => None
  | String a p', String b s' => if Ascii.eqb a b then cut_prefix s' p' else None
  end.

Fixpoint drop_spaces (s : string) : string :=
  match s with
  | String c s' => if Ascii.eqb c " " then drop_spaces s' else s
  | EmptyString => s
  end.

Fixpoint parse (lines : list string) (c : Config) : option Config :=
  match lines with
  | [] => Some c
  | line :: rest =>
      if decide (line = "") then parse rest c
      else match cut_prefix line "mode: " with
           | Some m => parse rest (mkConfig m (Targets c))
           | None =>
               if bool_decide (line = "targets: []") || bool_decide (line = "targets:")
               then parse rest (mkConfig (Mode c) [])
               else match cut_prefix (drop_spaces line) "- " with
                    | Some t => parse rest (mkConfig (Mode c) (Targets c ++ [t]))
                    | None => None
                    end
           end
  end.

Definition Unmarshal (content : string) : option Config :=
  parse (Strings.Split content newline) (mkConfig "" []).

Definition codec : YamlCodec :=
  {| yaml_Marshal := Marshal; yaml_Unmarshal := Unmarshal |}.

End BlockYaml.

Module Sample.

(** A project after [init]: the rules file and nothing else of interest. *)
Definition initialised : world :=
  mkWorld (<[".viberules/rules.md" := NFile "# rules"]>
           (<[".viberules" := NDir]> ∅)) [].

(** A directory in which the tool never ran. *)
Definition fresh : world := mkWorld ∅ [].

(** The user's own CLAUDE.md and a docs directory with one page. *)
Definition with_user_files : world :=
  mkWorld (<["CLAUDE.md" := NFile "my notes"]>
           (<["docs/index.md" := NFile "hello"]>
            (<["docs" := NDir]> (fs initialised)))) [].

(** [init] ran with every target; the config then lost claude while its
    link stayed behind. *)
Definition stale_claude_link : world :=
  mkWorld (<[configPath := NFile (BlockYaml.Marshal (mkConfig "local" ["gemini"]))]>
           (<["GEMINI.md" := NSymlink ".viberules/rules.md"]>
            (<["CLAUDE.md" := NSymlink ".viberules/rules.md"]> (fs initialised)))) [].

(** claude and gemini are enabled and linked. *)
Definition two_targets : world :=
  mkWorld (<[configPath := NFile (BlockYaml.Marshal (mkConfig "local" ["claude"; "gemini"]))]>
           (<["GEMINI.md" := NSymlink ".viberules/rules.md"]>
            (<["CLAUDE.md" := NSymlink ".viberules/rules.md"]> (fs initialised)))) [].

(** gemini is enabled; the user keeps a real CLAUDE.md. *)
Definition gemini_and_notes : world :=
  mkWorld (<[configPath := NFile (BlockYaml.Marshal (mkConfig "local" ["gemini"]))]>
           (<["GEMINI.md" := NSymlink ".viberules/rules.md"]>
            (<["CLAUDE.md" := NFile "my notes"]> (fs initialised)))) [].

(** A link whose destination is missing, and one to the wrong file. *)
Definition odd_links : world :=
  mkWorld (<["dangling" := NSymlink "nowhere.md"]>
           (<["wrong" := NSymlink "docs/index.md"]>
            (<["right" := NSymlink ".viberules/rules.md"]>
             (fs with_user_files)))) [].

(** Links whose destinations clean to the rules file but do not all lead
    there: through a name that does not exist, through a regular file, with
    a closing separator after a file, through a directory, and a link to
    itself. *)
Definition crooked_links : world :=
  mkWorld (<["viaghost" := NSymlink "ghost/../.viberules/rules.md"]>
           (<["viafile" := NSymlink "CLAUDE.md/../.viberules/rules.md"]>
            (<["slash" := NSymlink ".viberules/rules.md/"]>
             (<["viadocs" := NSymlink "docs/../.viberules/rules.md"]>
              (<["loop" := NSymlink "loop"]>
               (<["again" := NSymlink "right"]>
                (fs odd_links))))))) [].

(** claude is enabled but its link is missing. *)
Definition enabled_unlinked : world :=
  mkWorld (<[configPath := NFile (BlockYaml.Marshal (mkConfig "local" ["claude"]))]>
           (fs initialised)) [].

(** A .gitignore that ends with an empty line. *)
Definition blank_line_text : string :=
  "node_modules" +:+ String newline (String newline "").

Definition blank_line_gitignore : world :=
  mkWorld (<[".gitignore" := NFile blank_line_text]> (fs initialised)) [].

(** A .gitignore that holds the output-files header of an earlier
    section and nothing else of it. *)
Definition stale_header_text : string :=
  "# viberules output files (symlinked)" +:+ String newline
    ("CLAUDE.md" +:+ String newline "").

(** A target name of 1 MiB + 1 bytes. *)
Definition long_name : string := N.iter 1048577 (String "a"%char) "".

(** A config file that is too large to load. *)
Definition oversized : world :=
  mkWorld (<[configPath := NFile (BlockYaml.Marshal (mkConfig "local" [long_name]))]>
           (fs initialised)) [].

(** A config file whose mode is not one of the two known modes. *)
Definition odd_mode : world :=
  mkWorld (<[configPath := NFile (BlockYaml.Marshal (mkConfig "team" ["codex"]))]>
           (fs initialised)) [].


(** The user keeps notes in a file named .amazonq. *)
Definition amazonq_is_a_file : world :=
  mkWorld (<[".amazonq" := NFile "notes"]> (fs initialised)) [].

(** The user keeps a GEMINI.md of their own. *)
Definition own_gemini : world :=
  mkWorld (<["GEMINI.md" := NFile "mine"]> (fs initialised)) [].

(** A project in public mode with gemini enabled and linked, and a
    .gitignore of the user's. *)
Definition public_project : world :=
  mkWorld (<[".gitignore" := NFile ("node_modules" +:+ String newline "")]>
           (<[configPath := NFile (BlockYaml.Marshal (mkConfig "public" ["gemini"]))]>
            (<["GEMINI.md" := NSymlink ".viberules/rules.md"]> (fs initialised)))) [].

End Sample.

(* ===================================================================== *)
(** * Theorems                                                            *)
(* ===================================================================== *)

Example clean_examples :
  map Filepath.Clean ["a/b/../c"; "./x//y/"; "../../a"; "/../a"; ""; "a/.."; "/"]
  = ["a/c"; "x/y"; "../../a"; "/a"; "."; "."; "/"].
Proof. reflexivity. Qed.

Example dir_examples :
  map Filepath.Dir ["CLAUDE.md"; ".amazonq/rules/AMAZONQ.md"; "/x"; "a/"]
  = ["."; ".amazonq/rules"; "/"; "a"].
Proof. reflexivity. Qed.

Example block_yaml_roundtrip :
  BlockYaml.Unmarshal (BlockYaml.Marshal (mkConfig "public" ["claude"; "codex"]))
  = Some (mkConfig "public" ["claude"; "codex"]).
Proof. reflexivity. Qed.

(** The reader accepts the two-space indentation used by hand-written files. *)
Example block_yaml_hand_written :
  BlockYaml.Unmarshal
    (foldr (λ l acc, l +:+ String newline acc) ""
       ["mode: local"; "targets:"; "  - claude"; "  - gemini"])
  = Some (mkConfig "local" ["claude"; "gemini"]).
Proof. reflexivity. Qed.

(** ** The registry *)

(** C5. The registry holds exactly the four targets claude, amazonq, gemini
    and codex, each with one link; the links live at CLAUDE.md, GEMINI.md
    and AGENTS.md in the project root and at .amazonq/rules/AMAZONQ.md two
    directories down; and every link's source, resolved from the directory
    of the link, is the canonical rules file .viberules/rules.md. *)
Theorem registry_catalog :
  map Name GetAllTargets = ["claude"; "amazonq"; "gemini"; "codex"]
  ∧ map (λ t, map Target (Links t)) GetAllTargets
    = [["CLAUDE.md"]; [".amazonq/rules/AMAZONQ.md"]; ["GEMINI.md"]; ["AGENTS.md"]]
  ∧ map (λ t, map (λ l, nesting_depth (Target l)) (Links t)) GetAllTargets
    = [[0]; [2]; [0]; [0]]%nat
  ∧ GetRequiredDirectories = [".amazonq/rules"]
  ∧ ∀ t l, t ∈ GetAllTargets → l ∈ Links t →
      resolved_source l = ".viberules/rules.md".
Proof.
  repeat split; try reflexivity.
  intros t l Ht Hl.
  unfold GetAllTargets in Ht.
  repeat (apply elem_of_cons in Ht as [-> | Ht];
          [ cbn in Hl; apply list_elem_of_singleton in Hl as ->; reflexivity | ]).
  by apply elem_of_nil in Ht.
Qed.

(** ** Running the monad *)

Ltac run :=
  unfold mbind, M_bind, bind, mret, M_ret, ret, fail, try, on_error in *.

(** Membership in a list that is spelled out. *)
Ltac in_list := repeat first [apply list_elem_of_here | apply list_elem_of_further].

Lemma info_of_symlink n : IsSymlinkMode (info_of n) = is_symlink n.
Proof. by destruct n. Qed.

Lemma lstat_node_found m path n : node_at m path = Some n → lstat_node m path = inr n.
Proof. intros H. unfold lstat_node. by rewrite H. Qed.

Lemma lstat_node_inr m path n : lstat_node m path = inr n ↔ node_at m path = Some n.
Proof. unfold lstat_node. destruct (node_at m path); naive_solver. Qed.

Lemma lstat_node_inl m path e :
  lstat_node m path = inl e → node_at m path = None ∧ e = absent_errno m path.
Proof. unfold lstat_node. destruct (node_at m path); naive_solver. Qed.


Lemma need_dir_None m dir : need_dir m dir = None ↔ node_at m dir = Some NDir.
Proof.
  unfold need_dir, lstat_node. destruct (node_at m dir) as [[]|]; naive_solver.
Qed.

Lemma os_Lstat_world name w : (os_Lstat name w).2 = w.
Proof. unfold os_Lstat. by destruct (lstat_node _ _). Qed.

Lemma os_Stat_world name w : (os_Stat name w).2 = w.
Proof. unfold os_Stat. by destruct (stat_node _ _). Qed.

Lemma os_Readlink_world name w : (os_Readlink name w).2 = w.
Proof. unfold os_Readlink. by destruct (lstat_node _ _) as [|[]]. Qed.

Lemma os_ReadFile_world name w : (os_ReadFile name w).2 = w.
Proof. unfold os_ReadFile. by destruct (stat_node _ _) as [|[]]. Qed.

Lemma fileExists_eq name w :
  fileExists name w = (Ok (reachable (fs w) name), w).
Proof.
  unfold fileExists, os_Stat, reachable. run.
  destruct (stat_node _ _); reflexivity.
Qed.

(** ** Strings *)

Lemma string_app_cons a s1 s2 : String a s1 +:+ s2 = String a (s1 +:+ s2).
Proof. reflexivity. Qed.

Lemma string_app_nil_l (s : string) : "" +:+ s = s.
Proof. reflexivity. Qed.

Lemma string_app_nil_r (s : string) : s +:+ "" = s.
Proof. induction s as [|a s IH]; [done|]. by rewrite string_app_cons, IH. Qed.

Lemma string_app_assoc (s1 s2 s3 : string) : (s1 +:+ s2) +:+ s3 = s1 +:+ (s2 +:+ s3).
Proof. induction s1 as [|a s1 IH]; [done|]. by rewrite !string_app_cons, IH. Qed.

Lemma Split_nonempty s c : Strings.Split s c ≠ [].
Proof.
  destruct s as [|a s]; cbn [Strings.Split]; [done|].
  destruct (Ascii.eqb a c); [done|]. by destruct (Strings.Split s c).
Qed.

Lemma Split_cons_sep s c : Strings.Split (String c s) c = "" :: Strings.Split s c.
Proof. cbn [Strings.Split]. by rewrite Ascii.eqb_refl. Qed.

(** Splitting at a separator splits the list of fields. *)
Lemma Split_app s1 s2 c :
  Strings.Split (s1 +:+ String c s2) c = Strings.Split s1 c ++ Strings.Split s2 c.
Proof.
  induction s1 as [|a s1 IH].
  - by rewrite string_app_nil_l, Split_cons_sep.
  - rewrite string_app_cons. cbn [Strings.Split]. rewrite IH.
    destruct (Ascii.eqb a c); [done|].
    pose proof (Split_nonempty s1 c). by destruct (Strings.Split s1 c).
Qed.

Lemma Join_snoc (l : list string) (x sep : string) :
  l ≠ [] → Strings.Join (l ++ [x]) sep = Strings.Join l sep +:+ sep +:+ x.
Proof.
  induction l as [|e l IH]; [done|]. intros _.
  destruct l as [|e' l]; [done|].
  change (Strings.Join ((e :: e' :: l) ++ [x]) sep)
    with (e +:+ sep +:+ Strings.Join ((e' :: l) ++ [x]) sep).
  rewrite IH by done.
  change (Strings.Join (e :: e' :: l) sep) with (e +:+ sep +:+ Strings.Join (e' :: l) sep).
  by rewrite !string_app_assoc.
Qed.

Lemma Split_fields s c : Forall (λ l, Strings.has_byte c l = false) (Strings.Split s c).
Proof.
  induction s as [|a s IH]; cbn [Strings.Split]; [by repeat constructor|].
  destruct (Ascii.eqb a c) eqn:Ha; [by constructor|].
  destruct (Strings.Split s c) as [|l ls]; [by repeat constructor; cbn; rewrite Ha|].
  inversion IH; subst. constructor; [|done]. cbn. by rewrite Ha.
Qed.

Lemma Split_field s c : Strings.has_byte c s = false → Strings.Split s c = [s].
Proof.
  induction s as [|a s IH]; [done|]. cbn. intros [Ha Hs]%orb_false_elim.
  by rewrite Ha, IH.
Qed.

Lemma Split_Join (l : list string) c :
  l ≠ [] → Forall (λ e, Strings.has_byte c e = false) l →
  Strings.Split (Strings.Join l (String c "")) c = l.
Proof.
  induction l as [|e l IH]; [done|]. intros _ Hall. inversion Hall; subst.
  destruct l as [|e' l]; [by apply Split_field|].
  change (Strings.Join (e :: e' :: l) (String c ""))
    with (e +:+ String c "" +:+ Strings.Join (e' :: l) (String c "")).
  change (String c "" +:+ ?x) with (String c x).
  rewrite Split_app, Split_field, IH by done. done.
Qed.

Lemma Split_cons_other a s c :
  Ascii.eqb a c = false →
  Strings.Split (String a s) c
  = match Strings.Split s c with
    | l :: ls => String a l :: ls
    | [] => [String a ""]
    end.
Proof. intros Ha. cbn [Strings.Split]. by rewrite Ha. Qed.

(** Trimming only drops empty fields at the end. *)
Lemma Split_TrimRight s c :
  ∃ k, Strings.Split s c = Strings.Split (Strings.TrimRight s c) c ++ replicate k "".
Proof.
  induction s as [|a s [k IH]]; [by exists 0%nat|].
  cbn [Strings.TrimRight].
  destruct (Ascii.eqb a c) eqn:Ha.
  - apply Ascii.eqb_eq in Ha as ->. rewrite Split_cons_sep, IH.
    destruct (Strings.TrimRight s c) as [|b t].
    + by exists (S k).
    + exists k. by rewrite Split_cons_sep.
  - rewrite Split_cons_other, IH by done.
    destruct (Strings.TrimRight s c) as [|b t].
    + exists k. by rewrite Split_cons_other.
    + exists k. rewrite (Split_cons_other a (String b t)) by done.
      pose proof (Split_nonempty (String b t) c).
      by destruct (Strings.Split (String b t) c).
Qed.

Lemma TrimRight_idemp s c :
  Strings.TrimRight (Strings.TrimRight s c) c = Strings.TrimRight s c.
Proof.
  induction s as [|a s IH]; [done|]. cbn [Strings.TrimRight].
  destruct (Strings.TrimRight s c) as [|b t] eqn:Ht.
  - destruct (Ascii.eqb a c) eqn:Ha; [done|]. cbn. by rewrite Ha.
  - cbn [Strings.TrimRight] in *. by rewrite IH.
Qed.

Lemma TrimRight_snoc s c :
  Strings.TrimRight (s +:+ String c "") c = Strings.TrimRight s c.
Proof.
  induction s as [|a s IH].
  - rewrite string_app_nil_l. cbn [Strings.TrimRight]. by rewrite Ascii.eqb_refl.
  - rewrite string_app_cons. cbn [Strings.TrimRight]. by rewrite IH.
Qed.

Lemma TrimRight_last s c :
  Strings.last_byte (Strings.TrimRight s c) ≠ Some c.
Proof.
  induction s as [|a s IH]; [done|]. cbn [Strings.TrimRight].
  destruct (Strings.TrimRight s c) as [|b t] eqn:Ht.
  - destruct (Ascii.eqb_spec a c); [done|]. cbn. congruence.
  - exact IH.
Qed.

Lemma Contains_app_l s1 s2 sub :
  Strings.Contains s2 sub = true → Strings.Contains (s1 +:+ s2) sub = true.
Proof.
  intros H. induction s1 as [|a s1 IH]; [done|].
  rewrite string_app_cons. cbn [Strings.Contains]. rewrite IH. apply orb_true_r.
Qed.

(** ** Paths *)

Lemma clean_step_real rooted st e :
  real_elem e → Filepath.clean_step rooted st e = e :: st.
Proof.
  intros (H1 & H2 & H3). unfold Filepath.clean_step. by rewrite !decide_False.
Qed.

Lemma clean_step_stack rooted st e :
  clean_stack rooted st → clean_stack rooted (Filepath.clean_step rooted st e).
Proof.
  intros (reals & k & -> & Hreals & Hk). unfold Filepath.clean_step.
  destruct (decide (e = "")); [by exists reals, k|].
  destruct (decide (e = ".")); [by exists reals, k|].
  destruct (decide (e = "..")) as [-> | Hdd].
  - destruct reals as [|top reals]; cbn [app].
    + destruct k as [|k]; cbn [replicate].
      * destruct rooted; [by exists [], 0%nat|].
        exists [], 1%nat. by repeat split.
      * rewrite decide_True by done. exists [], (S (S k)). repeat split; [done|].
        intros Hr. by specialize (Hk Hr).
    + inversion Hreals as [|? ? (_ & _ & Htop) Hrest]; subst.
      rewrite decide_False by done. by exists reals, k.
  - exists (e :: reals), k. repeat split; [|done]. by constructor.
Qed.

Lemma clean_fold_stack rooted es st :
  clean_stack rooted st → clean_stack rooted (fold_left (Filepath.clean_step rooted) es st).
Proof.
  revert st. induction es as [|e es IH]; intros st Hst; [done|].
  cbn [fold_left]. by apply IH, clean_step_stack.
Qed.

Lemma clean_fold_sub (P : string → Prop) rooted es st :
  Forall P es → Forall P st → Forall P (fold_left (Filepath.clean_step rooted) es st).
Proof.
  intros Hes. revert st. induction Hes as [|e es He Hes IH]; intros st Hst; [done|].
  cbn [fold_left]. apply IH. unfold Filepath.clean_step.
  repeat case_decide; try done.
  - destruct st as [|top rest]; [destruct rooted; by repeat constructor|].
    case_decide; [by constructor|]. by inversion Hst.
  - by constructor.
Qed.

Lemma clean_fold_push rooted es st :
  Forall real_elem es → fold_left (Filepath.clean_step rooted) es st = rev es ++ st.
Proof.
  intros Hes. revert st. induction Hes as [|e es He Hes IH]; intros st; [done|].
  cbn [fold_left rev]. by rewrite clean_step_real, IH, <- app_assoc.
Qed.

Lemma clean_fold_dotdot k j :
  fold_left (Filepath.clean_step false) (replicate k "..") (replicate j "..")
  = replicate (k + j) "..".
Proof.
  revert j. induction k as [|k IH]; intros j; [done|].
  cbn [replicate fold_left].
  assert (Filepath.clean_step false (replicate j "..") ".." = replicate (S j) "..") as ->.
  { unfold Filepath.clean_step. rewrite !decide_False, decide_True by done.
    destruct j; [done|]. cbn [replicate]. by rewrite decide_True. }
  rewrite IH. f_equal. lia.
Qed.

Lemma rev_replicate {A} k (x : A) : rev (replicate k x) = replicate k x.
Proof.
  induction k as [|k IH]; [done|]. cbn [replicate rev]. rewrite IH.
  by rewrite <- replicate_cons_app.
Qed.

(** Scanning the elements of a cleaned path gives the same stack again. *)
Lemma clean_fold_again rooted st :
  clean_stack rooted st → fold_left (Filepath.clean_step rooted) (rev st) [] = st.
Proof.
  intros (reals & k & -> & Hreals & Hk).
  rewrite rev_app_distr, rev_replicate, fold_left_app.
  assert (fold_left (Filepath.clean_step rooted) (replicate k "..") [] = replicate k "..") as ->.
  { destruct rooted.
    - by rewrite Hk.
    - change (@nil string) with (replicate 0 "..") at 1.
      rewrite clean_fold_dotdot. f_equal. lia. }
  rewrite clean_fold_push by by apply Forall_rev. by rewrite rev_involutive.
Qed.

Lemma clean_stack_nonempty rooted st : clean_stack rooted st → Forall (λ e, e ≠ "") st.
Proof.
  intros (reals & k & -> & Hreals & _). apply Forall_app. split.
  - eapply Forall_impl; [done|]. by intros ? (? & _).
  - by apply Forall_replicate.
Qed.

Lemma Join_head e rest sep :
  ∃ tail, Strings.Join (e :: rest) sep = e +:+ tail.
Proof.
  destruct rest as [|e' rest]; [exists ""; by rewrite string_app_nil_r|].
  by eexists.
Qed.

Lemma HasPrefix_sep_false e tail :
  e ≠ "" → Strings.has_byte Filepath.sep e = false →
  Strings.HasPrefix (e +:+ tail) "/" = false.
Proof.
  destruct e as [|a e]; [done|]. intros _. rewrite string_app_cons.
  cbn [Strings.has_byte Strings.HasPrefix]. intros [Ha _]%orb_false_elim.
  change "/"%char with Filepath.sep. by rewrite Ascii.eqb_sym, Ha.
Qed.

Lemma HasPrefix_sep_true s : Strings.HasPrefix (String Filepath.sep s) "/" = true.
Proof. by destruct s. Qed.

(** [Clean] returns a path that is clean already. *)
Lemma Clean_idemp path : Filepath.Clean (Filepath.Clean path) = Filepath.Clean path.
Proof.
  unfold Filepath.Clean at 2 3. case_decide; [done|].
  set (rooted := Strings.HasPrefix path "/").
  set (st := fold_left (Filepath.clean_step rooted) (Strings.Split path Filepath.sep) []).
  assert (clean_stack rooted st) as Hst.
  { apply clean_fold_stack. by exists [], 0%nat. }
  assert (Forall (λ e, Strings.has_byte Filepath.sep e = false) (rev st)) as Hsep.
  { apply Forall_rev, clean_fold_sub; [apply Split_fields | constructor]. }
  pose proof (clean_stack_nonempty _ _ Hst) as Hne. apply Forall_rev in Hne.
  pose proof (clean_fold_again _ _ Hst) as Hagain.
  destruct rooted eqn:Hrooted.
  - unfold Filepath.Clean. rewrite decide_False by done.
    assert ("/" +:+ Strings.Join (rev st) "/"
            = String Filepath.sep (Strings.Join (rev st) "/")) as Hr by reflexivity.
    rewrite !Hr, HasPrefix_sep_true, Split_cons_sep. cbn [fold_left].
    change (Filepath.clean_step true [] "") with (@nil string).
    destruct (rev st) as [|e out] eqn:Hout.
    + reflexivity.
    + change "/" with (String Filepath.sep "") at 1.
      rewrite Split_Join, Hagain by done. by rewrite Hout.
  - destruct (rev st) as [|e out] eqn:Hout; [reflexivity|].
    inversion Hne; subst. inversion Hsep; subst.
    destruct (Join_head e out "/") as [tail Htail].
    assert (Strings.Join (e :: out) "/" ≠ "") as HJ by (rewrite Htail; by destruct e).
    assert (Strings.HasPrefix (Strings.Join (e :: out) "/") "/" = false) as HP
      by (rewrite Htail; by apply HasPrefix_sep_false).
    assert (Strings.Split (Strings.Join (e :: out) "/") Filepath.sep = e :: out) as HS
      by (change "/" with (String Filepath.sep ""); by apply Split_Join).
    unfold Filepath.Clean. rewrite decide_False by done. cbv zeta.
    rewrite HP, HS, Hagain. by rewrite Hout.
Qed.

(** ** Safe removal *)

Lemma first_obstacle_free m dirs :
  Forall (λ dir, node_at m dir = None ∨ node_at m dir = Some NDir) dirs →
  default ENOENT (first_obstacle m dirs) = ENOENT.
Proof.
  induction 1 as [|dir dirs [Hd|Hd] _ IH]; cbn [first_obstacle]; [done| |];
    by rewrite Hd.
Qed.

Lemma first_obstacle_file m outer dir inner content :
  Forall (λ d, node_at m d = Some NDir) outer →
  node_at m dir = Some (NFile content) →
  first_obstacle m (outer ++ dir :: inner) = Some ENOTDIR.
Proof.
  intros Ho Hd. induction Ho as [|d outer Hdir _ IH]; cbn [first_obstacle app].
  - by rewrite Hd.
  - by rewrite Hdir.
Qed.

Lemma absent_errno_free w path :
  dirs_above w path → absent_errno (fs w) (Filepath.Clean path) = ENOENT.
Proof. apply first_obstacle_free. Qed.

Lemma absent_errno_file w path :
  file_above w path → absent_errno (fs w) (Filepath.Clean path) = ENOTDIR.
Proof.
  intros (outer & dir & inner & content & Ha & Ho & Hd).
  unfold absent_errno. rewrite Ha. by erewrite first_obstacle_file.
Qed.

(** C1 (amended). At a path that holds a regular file or a directory,
    [removeSymlink] fails with the not-a-symlink error and returns the world
    it was given: nothing is deleted, the entry keeps its content and a
    directory keeps its entries.  At a path that holds nothing the outcome
    depends on what stands above it.  When every name above the path holds
    a directory or nothing, the lookup reports that the name does not exist
    and [removeSymlink] succeeds without a change.  When a regular file
    stands where a directory of the path is needed, the lookup fails with
    [ENOTDIR] and [removeSymlink] returns the failed-to-stat error, again
    without a change. *)
Theorem removeSymlink_refuses_foreign_objects (p : string) (w : world) :
  (∀ n, entry_at w p = Some n → is_symlink n = false →
     removeSymlink p w
     = (Err (Errorf "refusing to remove %s: not a symlink" [ArgS (Filepath.Clean p)]), w))
  ∧ (entry_at w p = None → dirs_above w p → removeSymlink p w = (Ok (), w))
  ∧ (entry_at w p = None → file_above w p →
     removeSymlink p w
     = (Err (Errorf "failed to stat %s: %w"
               [ArgS (Filepath.Clean p);
                ArgE (PathError "lstat" (Filepath.Clean p) ENOTDIR)]), w)).
Proof.
  unfold entry_at, removeSymlink, os_Lstat, lstat_node. run. split; [|split].
  - intros n Hn Hs. rewrite Hn, info_of_symlink, Hs. reflexivity.
  - intros Hn Hd. rewrite Hn, (absent_errno_free _ _ Hd). reflexivity.
  - intros Hn Hf. rewrite Hn, (absent_errno_file _ _ Hf). reflexivity.
Qed.

Lemma removeSymlink_refuses_foreign_objects_witness :
  removeSymlink "./CLAUDE.md" Sample.with_user_files
  = (Err (Errorf "refusing to remove %s: not a symlink" [ArgS "CLAUDE.md"]),
     Sample.with_user_files)
  ∧ removeSymlink "docs" Sample.with_user_files
    = (Err (Errorf "refusing to remove %s: not a symlink" [ArgS "docs"]),
       Sample.with_user_files)
  ∧ (fs Sample.with_user_files) !! "docs/index.md" = Some (NFile "hello")
  ∧ removeSymlink "GEMINI.md" Sample.with_user_files = (Ok (), Sample.with_user_files)
  ∧ removeSymlink "docs/ghost/page.md" Sample.with_user_files
    = (Ok (), Sample.with_user_files)
  ∧ removeSymlink "docs/index.md/x" Sample.with_user_files
    = (Err (Errorf "failed to stat %s: %w"
              [ArgS "docs/index.md/x";
               ArgE (PathError "lstat" "docs/index.md/x" ENOTDIR)]),
       Sample.with_user_files).
Proof.
  split; [| split; [| split; [| split; [| split]]]].
  - apply (proj1 (removeSymlink_refuses_foreign_objects "./CLAUDE.md" Sample.with_user_files)
             (NFile "my notes")); reflexivity.
  - apply (proj1 (removeSymlink_refuses_foreign_objects "docs" Sample.with_user_files) NDir);
      reflexivity.
  - reflexivity.
  - apply (proj1 (proj2 (removeSymlink_refuses_foreign_objects "GEMINI.md"
                           Sample.with_user_files))); [reflexivity|].
    unfold dirs_above. change (ancestors _) with ["."].
    apply Forall_cons_2; [right; reflexivity | apply Forall_nil_2].
  - apply (proj1 (proj2 (removeSymlink_refuses_foreign_objects "docs/ghost/page.md"
                           Sample.with_user_files))); [reflexivity|].
    unfold dirs_above. change (ancestors _) with ["."; "docs"; "docs/ghost"].
    apply Forall_cons_2; [right; reflexivity|].
    apply Forall_cons_2; [right; reflexivity|].
    apply Forall_cons_2; [left; reflexivity | apply Forall_nil_2].
  - apply (proj2 (proj2 (removeSymlink_refuses_foreign_objects "docs/index.md/x"
                           Sample.with_user_files))); [reflexivity|].
    exists ["."; "docs"], "docs/index.md", [], "hello".
    split; [reflexivity|]. split; [|reflexivity].
    apply Forall_cons_2; [reflexivity|].
    apply Forall_cons_2; [reflexivity | apply Forall_nil_2].
Defined.

(** C1 as stated fails where a file stands above the path: below the
    user's CLAUDE.md, and at the nested link path when .amazonq is a file,
    nothing exists and [removeSymlink] fails. *)
Lemma removeSymlink_fails_below_a_file :
  entry_at Sample.with_user_files "CLAUDE.md/x" = None
  ∧ removeSymlink "CLAUDE.md/x" Sample.with_user_files
    = (Err (Errorf "failed to stat %s: %w"
              [ArgS "CLAUDE.md/x"; ArgE (PathError "lstat" "CLAUDE.md/x" ENOTDIR)]),
       Sample.with_user_files)
  ∧ entry_at Sample.amazonq_is_a_file ".amazonq/rules/AMAZONQ.md" = None
  ∧ removeSymlink ".amazonq/rules/AMAZONQ.md" Sample.amazonq_is_a_file
    = (Err (Errorf "failed to stat %s: %w"
              [ArgS ".amazonq/rules/AMAZONQ.md";
               ArgE (PathError "lstat" ".amazonq/rules/AMAZONQ.md" ENOTDIR)]),
       Sample.amazonq_is_a_file).
Proof. repeat split. Qed.

(** ** Link validation *)









Example IsSymlinkValid_cases :
  map (λ '(l, e), (IsSymlinkValid l e Sample.crooked_links).1)
    [ ("right", ".viberules/rules.md");
      ("./right", ".viberules/./rules.md");
      ("missing", ".viberules/rules.md");
      ("CLAUDE.md", ".viberules/rules.md");
      ("wrong", ".viberules/rules.md");
      ("dangling", "nowhere.md");
      ("viaghost", ".viberules/rules.md");
      ("viafile", ".viberules/rules.md");
      ("slash", ".viberules/rules.md");
      ("viadocs", ".viberules/rules.md");
      ("loop", "loop");
      ("again", "right");
      ("CLAUDE.md/x", ".viberules/rules.md") ]
  = [Ok true; Ok true; Ok false; Ok false; Ok false; Ok false;
     Ok false; Ok false; Ok false; Ok true; Ok false; Ok true; Ok false].
Proof. vm_compute. reflexivity. Qed.

(** ** The config store *)

Lemma node_at_config m : node_at m configPath = m !! configPath.
Proof. reflexivity. Qed.

Lemma follow_plain fuel m path :
  (∀ d, node_at m path ≠ Some (NSymlink d)) → follow fuel m path = inr path.
Proof.
  intros Hn. destruct fuel; cbn [follow];
    destruct (node_at m path) as [[| |d]|]; try done; by destruct (Hn d).
Qed.

Lemma stat_node_plain m path n :
  node_at m path = Some n → is_symlink n = false → stat_node m path = inr n.
Proof.
  intros Hn Hs. unfold stat_node.
  rewrite follow_plain by (intros d Hd; rewrite Hd in Hn; by simplify_eq).
  by apply lstat_node_found.
Qed.

Lemma stat_node_absent m path :
  node_at m path = None → stat_node m path = inl (absent_errno m path).
Proof.
  intros Hn. unfold stat_node, lstat_node.
  rewrite follow_plain by (intros d Hd; congruence). by rewrite Hn.
Qed.

Lemma node_at_special m path :
  path ≠ "." → path ≠ "/" → node_at m path = m !! path.
Proof. intros. unfold node_at. by rewrite !decide_False. Qed.

Lemma node_at_not_special m path n :
  node_at m path = n → n ≠ Some NDir → path ≠ "." ∧ path ≠ "/".
Proof.
  unfold node_at. intros Hn Hd.
  destruct (decide (path = ".")); [congruence|].
  destruct (decide (path = "/")); [congruence|]. done.
Qed.

Lemma node_at_insert_ne m p q n : p ≠ q → node_at (<[q := n]> m) p = node_at m p.
Proof.
  intros Hne. unfold node_at.
  repeat case_decide; try done. by rewrite lookup_insert_ne.
Qed.

Lemma node_at_delete_ne m p q : p ≠ q → node_at (delete q m) p = node_at m p.
Proof.
  intros Hne. unfold node_at.
  repeat case_decide; try done. by rewrite lookup_delete_ne.
Qed.

Lemma node_at_insert_writable m q n :
  writable_at m q → node_at (<[q := n]> m) q = Some n.
Proof.
  intros Hw.
  destruct (node_at_not_special m q (node_at m q) eq_refl) as [? ?].
  { destruct Hw as [-> | [c ->]]; done. }
  rewrite node_at_special by done. apply lookup_insert_eq.
Qed.

(** A walk that succeeds looks at directories only, so it goes the same
    way once a file has been written at a name that held a file or
    nothing. *)
Lemma need_dir_insert_file m dir q data :
  need_dir m dir = None → writable_at m q →
  need_dir (<[q := NFile data]> m) dir = None.
Proof.
  intros Hd%need_dir_None Hw. apply need_dir_None.
  rewrite node_at_insert_ne; [done|].
  intros ->. destruct Hw as [? | [? ?]]; congruence.
Qed.

Lemma walk_insert_file m sure dir elems r q data :
  walk m sure dir elems = inr r → writable_at m q →
  walk (<[q := NFile data]> m) sure dir elems = inr r.
Proof.
  intros Hwalk Hw. revert sure dir Hwalk.
  induction elems as [|e rest IH]; intros sure dir; cbn [walk]; [done|].
  repeat case_decide.
  - destruct sure; [apply IH|].
    destruct (need_dir m dir) eqn:Hd; [done|].
    rewrite (need_dir_insert_file _ _ _ _ Hd Hw). apply IH.
  - destruct sure; [apply IH|].
    destruct (need_dir m dir) eqn:Hd; [done|].
    rewrite (need_dir_insert_file _ _ _ _ Hd Hw). apply IH.
  - apply IH.
Qed.

Lemma link_dest_insert_file m link dest r q data :
  link_dest m link dest = inr r → writable_at m q →
  link_dest (<[q := NFile data]> m) link dest = inr r.
Proof.
  unfold link_dest. case_decide; [done|]. apply walk_insert_file.
Qed.

(** Writing at the end of a chain of links leaves the chain in place. *)
Lemma follow_insert_file fuel m p q data :
  follow fuel m p = inr q → writable_at m q →
  follow fuel (<[q := NFile data]> m) p = inr q.
Proof.
  intros Hf Hw. revert p Hf.
  induction fuel as [|fuel IH]; intros p; cbn [follow];
    destruct (node_at m p) as [[c| |d]|] eqn:Hp; intros Hf; simplify_eq;
    try (by destruct Hw as [? | [? ?]]; congruence);
    try (by rewrite node_at_insert_writable).
  assert (p ≠ q) as Hne by (intros ->; destruct Hw as [? | [? ?]]; congruence).
  rewrite node_at_insert_ne, Hp by done.
  destruct (link_dest m p d) as [e|r] eqn:Hl; [done|].
  rewrite (link_dest_insert_file _ _ _ _ _ data Hl Hw). by apply IH.
Qed.

Lemma os_WriteFile_ok name data w w1 :
  os_WriteFile name data w = (Ok (), w1) →
  ∃ q, follow maxSymlinks (fs w) name = inr q ∧ writable_at (fs w) q
       ∧ w1 = mkWorld (<[q := NFile data]> (fs w)) (trace w ++ [EvWriteFile name data]).
Proof.
  unfold os_WriteFile, writable_at.
  destruct (follow maxSymlinks (fs w) name) as [e|q]; [done|].
  destruct (node_at (fs w) q) as [[c| |d]|] eqn:Hq; try done.
  - intros [= <-]. exists q. eauto.
  - destruct (create_errno (fs w) q); [done|].
    intros [= <-]. exists q. eauto.
Qed.

Lemma stat_node_after_write name data w w1 :
  os_WriteFile name data w = (Ok (), w1) →
  stat_node (fs w1) name = inr (NFile data).
Proof.
  intros (q & Hf & Hw & ->)%os_WriteFile_ok. cbn [fs].
  unfold stat_node. rewrite (follow_insert_file _ _ _ _ data Hf Hw).
  apply lstat_node_found. by rewrite node_at_insert_writable.
Qed.

Section ConfigStore.

Context {codec : YamlCodec}.

(** [loadConfig] as a function of what [os.Stat] finds at the config path. *)
Lemma loadConfig_eq w :
  loadConfig w =
  match stat_node (fs w) configPath with
  | inl _ => (Ok (mkConfig "local" defaultTargets), w)
  | inr n =>
      if maxConfigSize <? fi_Size (info_of n)
      then (Err (Errorf "config file too large: %d bytes (max %d)"
                   [ArgD (fi_Size (info_of n)); ArgD maxConfigSize]), w)
      else match n with
           | NFile content =>
               match yaml_Unmarshal content with
               | None => (Err (Errorf "failed to parse config file: %w" [ArgE YamlError]), w)
               | Some config =>
                   if bool_decide (Mode config ≠ "local")
                      && bool_decide (Mode config ≠ "public")
                   then (Ok (mkConfig "local" (Targets config)), w)
                   else (Ok config, w)
               end
           | _ => (Err (Errorf "failed to read config file: %w"
                          [ArgE (PathError "read" configPath EISDIR)]), w)
           end
  end.
Proof.
  unfold loadConfig. run. rewrite fileExists_eq. unfold reachable, os_Stat, os_ReadFile.
  destruct (stat_node (fs w) configPath) as [e|n] eqn:Hs; simpl; [done|].
  rewrite Hs. simpl.
  destruct (maxConfigSize <? fi_Size (info_of n)); [done|].
  rewrite Hs.
  destruct n as [c| |d]; simpl; try done.
  destruct (yaml_Unmarshal c) as [cfg|]; [|done].
  by destruct (_ && _).
Qed.

Lemma loadConfig_world w : (loadConfig w).2 = w.
Proof.
  rewrite loadConfig_eq.
  destruct (stat_node _ _) as [|n]; [done|].
  destruct (_ <? _); [done|].
  destruct n; try done.
  destruct (yaml_Unmarshal _); [|done]. by destruct (_ && _).
Qed.

(** C7. [loadConfig] returns the default config (mode local, the four
    targets) without error when no config file exists; it fails when the
    file is larger than 1 MiB; and a parsed mode that is neither local nor
    public is replaced by local without an error. *)
Theorem loadConfig_default_bound_coercion (w : world) :
  (fs w !! configPath = None →
     loadConfig w = (Ok (mkConfig "local" ["claude"; "amazonq"; "gemini"; "codex"]), w))
  ∧ (∀ content, fs w !! configPath = Some (NFile content) →
       1048576 < Z.of_nat (String.length content) →
       loadConfig w
       = (Err (Errorf "config file too large: %d bytes (max %d)"
                 [ArgD (Z.of_nat (String.length content)); ArgD 1048576]), w))
  ∧ (∀ content config, fs w !! configPath = Some (NFile content) →
       Z.of_nat (String.length content) ≤ 1048576 →
       yaml_Unmarshal content = Some config →
       Mode config ≠ "local" → Mode config ≠ "public" →
       loadConfig w = (Ok (mkConfig "local" (Targets config)), w)).
Proof.
  rewrite loadConfig_eq. repeat split.
  - intros Hn. by rewrite (stat_node_absent (fs w) configPath Hn).
  - intros c Hn Hsz.
    rewrite (stat_node_plain (fs w) configPath _ Hn eq_refl). cbn [info_of fi_Size].
    change maxConfigSize with 1048576.
    by destruct (Z.ltb_spec 1048576 (Z.of_nat (String.length c))); [|lia].
  - intros c cfg Hn Hsz Hy Hl Hp.
    rewrite (stat_node_plain (fs w) configPath _ Hn eq_refl). cbn [info_of fi_Size].
    change maxConfigSize with 1048576.
    destruct (Z.ltb_spec 1048576 (Z.of_nat (String.length c))); [lia|].
    rewrite Hy. by rewrite !bool_decide_eq_true_2.
Qed.

Lemma saveConfig_ok config w w1 :
  saveConfig config w = (Ok (), w1) →
  os_WriteFile configPath (yaml_Marshal config) w = (Ok (), w1).
Proof.
  unfold saveConfig, on_error.
  destruct (os_WriteFile _ _ _) as [[[]|e] w']; [|done]. by intros [= <-].
Qed.


End ConfigStore.

(** ** The reference codec *)

Lemma length_app (s1 s2 : string) :
  String.length (s1 +:+ s2) = (String.length s1 + String.length s2)%nat.
Proof. induction s1 as [|a s1 IH]; [done|]. rewrite string_app_cons. cbn. by rewrite IH. Qed.





Lemma iter_length n a : String.length (N.iter n (String a) "") = N.to_nat n.
Proof.
  induction n as [|n IH] using N.peano_ind; [done|].
  rewrite N.iter_succ, N2Nat.inj_succ. cbn. by rewrite IH.
Qed.


Lemma long_config_size :
  Z.of_nat (String.length (BlockYaml.Marshal (mkConfig "local" [Sample.long_name])))
  = 1048605.
Proof.
  unfold BlockYaml.Marshal, BlockYaml.item. cbn [Mode Targets foldr].
  rewrite !length_app. unfold Sample.long_name. rewrite iter_length.
  rewrite !Nat2Z.inj_add, N_nat_Z. reflexivity.
Qed.



Lemma loadConfig_oversized (w : world) :
  fs w !! configPath = Some (NFile (BlockYaml.Marshal (mkConfig "local" [Sample.long_name]))) →
  loadConfig (codec := BlockYaml.codec) w
  = (Err (Errorf "config file too large: %d bytes (max %d)" [ArgD 1048605; ArgD 1048576]), w).
Proof.
  intros Hcfg. rewrite loadConfig_eq.
  rewrite (stat_node_plain (fs w) configPath _ Hcfg eq_refl).
  cbn [info_of fi_Size]. rewrite long_config_size. reflexivity.
Qed.

Lemma loadConfig_default_bound_coercion_witness :
  loadConfig (codec := BlockYaml.codec) Sample.fresh
  = (Ok (mkConfig "local" ["claude"; "amazonq"; "gemini"; "codex"]), Sample.fresh)
  ∧ loadConfig (codec := BlockYaml.codec) Sample.oversized
    = (Err (Errorf "config file too large: %d bytes (max %d)"
              [ArgD (Z.of_nat (String.length
                                 (BlockYaml.Marshal (mkConfig "local" [Sample.long_name]))));
               ArgD 1048576]), Sample.oversized)
  ∧ loadConfig (codec := BlockYaml.codec) Sample.odd_mode
    = (Ok (mkConfig "local" ["codex"]), Sample.odd_mode).
Proof.
  pose proof (@loadConfig_default_bound_coercion BlockYaml.codec) as H.
  split; [| split].
  - apply (H Sample.fresh). reflexivity.
  - apply (proj1 (proj2 (H Sample.oversized))
             (BlockYaml.Marshal (mkConfig "local" [Sample.long_name])));
      [ reflexivity | rewrite long_config_size; reflexivity ].
  - apply (proj2 (proj2 (H Sample.odd_mode))
             (BlockYaml.Marshal (mkConfig "team" ["codex"])) (mkConfig "team" ["codex"]));
      [ reflexivity | vm_compute; discriminate | reflexivity | discriminate | discriminate ].
Defined.



(** ** Removing links *)

Lemma removeSymlink_ok p w w' :
  removeSymlink p w = (Ok (), w') →
  fs w' = delete (Filepath.Clean p) (fs w)
  ∧ node_at (fs w') (Filepath.Clean p) = None
  ∧ (trace w' = trace w ∨ trace w' = trace w ++ [EvRemove (Filepath.Clean p)]).
Proof.
  unfold removeSymlink, os_Lstat, lstat_node, os_Remove. run.
  destruct (node_at (fs w) (Filepath.Clean p)) as [n|] eqn:Hn; simpl.
  - rewrite info_of_symlink. destruct n as [c| |d]; simpl; try done.
    destruct (node_at_not_special _ _ _ Hn) as [H1 H2]; [done|].
    rewrite node_at_special in Hn by done. rewrite Hn.
    intros [= <-]. cbn [fs trace]. split; [done|]. split; [|by right].
    rewrite node_at_special by done. apply lookup_delete_eq.
  - destruct (absent_errno _ _); simpl; try done. intros [= <-].
    destruct (node_at_not_special _ _ _ Hn) as [H1 H2]; [done|].
    rewrite node_at_special in Hn by done.
    split; [by rewrite delete_id|]. split; [|by left].
    by rewrite node_at_special.
Qed.

(** The map after the links of [links] have been removed one by one. *)
Lemma remove_links_ok links wrap w w' :
  for_each links (λ link, on_error (removeSymlink (Target link)) (wrap link)) w = (Ok (), w') →
  (∀ l, l ∈ links → entry_at w' (Target l) = None)
  ∧ (∀ q, q ∉ map (λ l, Filepath.Clean (Target l)) links → fs w' !! q = fs w !! q).
Proof.
  revert w. induction links as [|l links IH]; intros w; cbn [for_each]; run.
  - intros [= <-]. split; [by intros ? ?%elem_of_nil | done].
  - destruct (removeSymlink (Target l) w) as [[[]|e] w1] eqn:Hr; [|done].
    intros Hrest. destruct (IH _ Hrest) as [IH1 IH2].
    apply removeSymlink_ok in Hr as (Hfs & Hnone & _).
    split.
    + intros l' [-> | Hl']%elem_of_cons; [|by apply IH1].
      unfold entry_at in *.
      destruct (decide (Filepath.Clean (Target l) ∈
                         map (λ l, Filepath.Clean (Target l)) links)) as [Hin|Hnin].
      * apply list_elem_of_fmap in Hin as (l'' & Heq & Hl''). rewrite Heq. by apply IH1.
      * destruct (node_at_not_special _ _ _ Hnone) as [? ?]; [done|].
        rewrite node_at_special in * by done. by rewrite IH2.
    + intros q Hq. cbn [map] in Hq. apply not_elem_of_cons in Hq as [Hq1 Hq2].
      rewrite IH2, Hfs by done. by rewrite lookup_delete_ne.
Qed.

Lemma with_target_find targets targetName body :
  with_target targets targetName body =
  match find (λ t, bool_decide (Name t = targetName)) targets with
  | Some t => body t
  | None => fail (Errorf "target %s not found" [ArgS targetName])
  end.
Proof.
  induction targets as [|t targets IH]; cbn [with_target find]; [done|].
  case_decide.
  - by rewrite bool_decide_eq_true_2.
  - by rewrite bool_decide_eq_false_2.
Qed.

Lemma find_target_valid X :
  isValidTarget X = true →
  ∃ t, find_target X = Some t ∧ t ∈ GetAllTargets ∧ Name t = X
       ∧ ∀ t', t' ∈ GetAllTargets → Name t' = X → t' = t.
Proof.
  unfold isValidTarget. intros HX%bool_decide_eq_true.
  repeat (apply elem_of_cons in HX as [-> | HX];
    [ eexists; split; [reflexivity|]; split; [set_solver|]; split; [reflexivity|];
      intros t' Ht' Hn; unfold GetAllTargets in Ht';
      repeat (apply elem_of_cons in Ht' as [-> | Ht']; [done || discriminate Hn|]);
      by apply elem_of_nil in Ht' | ]).
  by apply elem_of_nil in HX.
Qed.

(** ** Adding and removing targets *)

Section Targets.

Context {codec : YamlCodec}.

Lemma loadEnabledTargets_eq w :
  loadEnabledTargets w =
  match loadConfig w with
  | (Ok config, w') => (Ok (Targets config), w')
  | (Err e, w') => (Err e, w')
  end.
Proof. reflexivity. Qed.

Lemma loadEnabledTargets_world w : (loadEnabledTargets w).2 = w.
Proof.
  rewrite loadEnabledTargets_eq. pose proof (loadConfig_world w) as H.
  by destruct (loadConfig w) as [[c|e] w'].
Qed.

(** C10 (amended). When [X] is a valid target that the config store
    already lists, [addTarget X] changes nothing: the world it returns is
    the world it was given, so the config file is not rewritten and no
    link is made, removed or repaired.  It reports success when the rules
    file exists and the not-found error when it does not. *)
Theorem addTarget_enabled_changes_nothing (X : string) (w : world) (enabled : list string) :
  isValidTarget X = true →
  (loadEnabledTargets w).1 = Ok enabled →
  X ∈ enabled →
  addTarget X w
  = (if reachable (fs w) ".viberules/rules.md" then Ok ()
     else Err (Errorf ".viberules/rules.md not found. Run 'viberules init' first"
                 (@nil fmt_arg)),
     w).
Proof.
  intros HX Hl Hin. unfold addTarget. rewrite HX. cbn [negb]. run.
  rewrite fileExists_eq.
  destruct (reachable (fs w) ".viberules/rules.md"); cbn [negb]; [|done].
  pose proof (loadEnabledTargets_world w) as Hw.
  destruct (loadEnabledTargets w) as [[l|e] w1]; cbn in Hl, Hw; simplify_eq.
  by rewrite bool_decide_eq_true_2.
Qed.

Lemma config_is_no_link t l :
  t ∈ GetAllTargets → l ∈ Links t → Filepath.Clean (Target l) ≠ configPath.
Proof.
  unfold GetAllTargets. intros Ht Hl.
  repeat (apply elem_of_cons in Ht as [-> | Ht];
          [ cbn in Hl; apply list_elem_of_singleton in Hl as ->; discriminate | ]).
  by apply elem_of_nil in Ht.
Qed.

(** C9 (amended). Let [X] be a valid target and let the config store load.
    If [X] is not enabled, [removeTarget X] succeeds and returns the world
    it was given.  If [X] is enabled and [removeTarget X] succeeds, nothing
    is left at the path of any link of [X]; and when the config path is no
    symbolic link and the rewritten config (the former targets without
    [X], under the loaded mode) is one the codec reads back, within the
    size bound, the config store then lists the former targets without
    [X]. *)
Theorem removeTarget_enabled_or_not (X : string) (w : world) (config : Config) :
  isValidTarget X = true →
  loadConfig w = (Ok config, w) →
  let remaining := filter (λ t, t ≠ X) (Targets config) in
  let config' := mkConfig (Mode config) remaining in
  ((X ∉ Targets config) → removeTarget X w = (Ok (), w))
  ∧ (X ∈ Targets config →
     ∀ w', removeTarget X w = (Ok (), w') →
       (X ∉ remaining)
       ∧ (∀ t l, t ∈ GetAllTargets → Name t = X → l ∈ Links t →
            entry_at w' (Target l) = None)
       ∧ ((∀ d, fs w !! configPath ≠ Some (NSymlink d)) →
          yaml_Unmarshal (yaml_Marshal config') = Some config' →
          Z.of_nat (String.length (yaml_Marshal config')) ≤ maxConfigSize →
          loadEnabledTargets w' = (Ok remaining, w'))).
Proof.
  intros HX Hload remaining config'.
  unfold removeTarget. rewrite HX. cbn [negb]. run.
  rewrite loadEnabledTargets_eq, Hload. split.
  - intros Hnin. by rewrite bool_decide_eq_false_2.
  - intros Hin w'. rewrite bool_decide_eq_true_2 by done. cbn [negb].
    unfold saveEnabledTargets. run. rewrite Hload.
    fold remaining. fold config'.
    destruct (saveConfig config' w) as [[[]|e] ws] eqn:Hsave; [|done].
    destruct (RemoveTargetSymlinks X ws) as [[[]|e] wr] eqn:Hrm; [|done].
    intros [= <-].
    destruct (find_target_valid X HX) as (t & Hfind & Ht & Hname & Huniq).
    unfold RemoveTargetSymlinks in Hrm. rewrite with_target_find in Hrm.
    fold (find_target X) in Hrm. rewrite Hfind in Hrm.
    apply (remove_links_ok (Links t) (λ _ err, Errorf "failed to remove symlink: %w" [ArgE err]))
      in Hrm as [Hgone Hkept].
    split; [| split].
    + unfold remaining. rewrite list_elem_of_filter. by intros [? _].
    + intros t' l Ht' Hn' Hl. rewrite (Huniq t' Ht' Hn') in Hl. by apply Hgone.
    + intros Hplain Hrt Hsz.
      apply saveConfig_ok, os_WriteFile_ok in Hsave as (q & Hq & _ & ->).
      rewrite follow_plain in Hq by (intros d; apply (Hplain d)). simplify_eq.
      rewrite loadEnabledTargets_eq, loadConfig_eq.
      assert (fs wr !! configPath = Some (NFile (yaml_Marshal config'))) as Hcfg.
      { rewrite Hkept; [apply lookup_insert_eq|].
        intros (l & Heq & Hl)%list_elem_of_fmap.
        by apply (config_is_no_link t l Ht Hl). }
      rewrite (stat_node_plain (fs wr) configPath _ Hcfg eq_refl).
      cbn [info_of fi_Size].
      destruct (Z.ltb_spec maxConfigSize
                  (Z.of_nat (String.length (yaml_Marshal config')))); [lia|].
      rewrite Hrt. by destruct (_ && _).
Qed.

End Targets.

Lemma addTarget_enabled_changes_nothing_witness :
  addTarget (codec := BlockYaml.codec) "claude" Sample.enabled_unlinked
  = (Ok (), Sample.enabled_unlinked)
  ∧ fs Sample.enabled_unlinked !! "CLAUDE.md" = None.
Proof.
  split; [|reflexivity].
  apply (@addTarget_enabled_changes_nothing BlockYaml.codec "claude"
           Sample.enabled_unlinked ["claude"]);
    [ reflexivity | reflexivity | compute_done ].
Defined.

(** C10 as stated fails in a directory that was never initialised: with no
    config file every target counts as enabled, and [addTarget] returns the
    not-found error instead of success. *)
Lemma addTarget_enabled_fails_uninitialised :
  (loadEnabledTargets (codec := BlockYaml.codec) Sample.fresh).1
  = Ok ["claude"; "amazonq"; "gemini"; "codex"]
  ∧ isValidTarget "claude" = true
  ∧ addTarget (codec := BlockYaml.codec) "claude" Sample.fresh
    = (Err (Errorf ".viberules/rules.md not found. Run 'viberules init' first"
              (@nil fmt_arg)), Sample.fresh).
Proof. repeat split. Qed.

Lemma removeTarget_enabled_or_not_witness :
  let removed := removeTarget (codec := BlockYaml.codec) "claude" Sample.two_targets in
  removeTarget (codec := BlockYaml.codec) "codex" Sample.two_targets
  = (Ok (), Sample.two_targets)
  ∧ removed.1 = Ok ()
  ∧ loadEnabledTargets (codec := BlockYaml.codec) removed.2 = (Ok ["gemini"], removed.2)
  ∧ entry_at removed.2 "CLAUDE.md" = None.
Proof.
  intros removed.
  pose proof (@removeTarget_enabled_or_not BlockYaml.codec) as H.
  split; [| split; [reflexivity|]].
  - apply (proj1 (H "codex" Sample.two_targets (mkConfig "local" ["claude"; "gemini"])
                    eq_refl eq_refl)).
    compute_done.
  - destruct (proj2 (H "claude" Sample.two_targets (mkConfig "local" ["claude"; "gemini"])
                       eq_refl eq_refl)) with (w' := removed.2)
      as (_ & Hgone & Hl).
    + compute_done.
    + vm_compute. reflexivity.
    + split.
      * apply Hl; [intros d; vm_compute; discriminate | reflexivity
                  | vm_compute; discriminate].
      * apply (Hgone (mkTarget "claude" [mkSymlinkDef ".viberules/rules.md" "CLAUDE.md"])
                 (mkSymlinkDef ".viberules/rules.md" "CLAUDE.md"));
          [compute_done | reflexivity | compute_done].
Defined.

(** C9 as stated fails when the link of a target that is not enabled is
    still there: [removeTarget] succeeds and the link stays. *)
Lemma removeTarget_leaves_stale_link :
  isValidTarget "claude" = true
  ∧ removeTarget (codec := BlockYaml.codec) "claude" Sample.stale_claude_link
    = (Ok (), Sample.stale_claude_link)
  ∧ (loadEnabledTargets (codec := BlockYaml.codec) Sample.stale_claude_link).1 = Ok ["gemini"]
  ∧ entry_at Sample.stale_claude_link "CLAUDE.md" = Some (NSymlink ".viberules/rules.md").
Proof. repeat split. Qed.

(** ** The order of mutations *)


Lemma appends_weaken (C D : event → Prop) {A} (m : M A) :
  (∀ ev, C ev → D ev) → appends C m → appends D m.
Proof.
  intros HCD Hm w. destruct (Hm w) as (evs & Ht & HC).
  exists evs. split; [done|]. eapply Forall_impl; eauto.
Qed.

Lemma appends_pure C {A} (m : M A) : (∀ w, (m w).2 = w) → appends C m.
Proof. intros Hm w. exists []. rewrite Hm, app_nil_r. done. Qed.

Lemma appends_ret C {A} (a : A) : appends C (ret a).
Proof. by apply appends_pure. Qed.

Lemma appends_fail C {A} (e : error) : appends C (fail e : M A).
Proof. by apply appends_pure. Qed.

Lemma appends_bind C {A B} (m : M A) (k : A → M B) :
  appends C m → (∀ a, appends C (k a)) → appends C (m ≫= k).
Proof.
  intros Hm Hk w. run. destruct (Hm w) as (e1 & Ht1 & HC1).
  destruct (m w) as [[a|e] w1]; cbn [snd] in *.
  - destruct (Hk a w1) as (e2 & Ht2 & HC2). exists (e1 ++ e2).
    rewrite Ht2, Ht1, app_assoc. split; [done|]. by apply Forall_app.
  - by exists e1.
Qed.

Lemma appends_on_error C {A} (m : M A) wrap : appends C m → appends C (on_error m wrap).
Proof.
  intros Hm w. unfold on_error. destruct (Hm w) as (e1 & Ht1 & HC1).
  exists e1. by destruct (m w) as [[a|e] w1].
Qed.

Lemma appends_try C {A} (m : M A) : appends C m → appends C (try m).
Proof.
  intros Hm w. unfold try. destruct (Hm w) as (e1 & Ht1 & HC1).
  exists e1. by destruct (m w) as [r w1].
Qed.

Lemma appends_for_each C {A} (l : list A) body :
  (∀ x, appends C (body x)) → appends C (for_each l body).
Proof.
  intros Hb. induction l as [|x l IH]; cbn [for_each].
  - apply appends_ret.
  - apply appends_bind; auto.
Qed.

Lemma appends_with_target C targets name body :
  (∀ t, appends C (body t)) → appends C (with_target targets name body).
Proof.
  intros Hb. rewrite with_target_find. destruct (find _ _); [done|]. apply appends_fail.
Qed.

Lemma appends_if C {A} (b : bool) (m1 m2 : M A) :
  appends C m1 → appends C m2 → appends C (if b then m1 else m2).
Proof. by destruct b. Qed.

Lemma appends_event C {A} (m : M A) ev :
  C ev →
  (∀ w, (m w).2 = w ∨ ∃ fs', (m w).2 = emit ev fs' w) →
  appends C m.
Proof.
  intros HC Hm w. destruct (Hm w) as [-> | [fs' ->]].
  - exists []. by rewrite app_nil_r.
  - exists [ev]. split; [done|]. by constructor.
Qed.

Lemma appends_Lstat C name : appends C (os_Lstat name).
Proof. apply appends_pure, os_Lstat_world. Qed.

Lemma appends_Stat C name : appends C (os_Stat name).
Proof. apply appends_pure, os_Stat_world. Qed.

Lemma appends_ReadFile C name : appends C (os_ReadFile name).
Proof. apply appends_pure, os_ReadFile_world. Qed.

Lemma appends_fileExists C name : appends C (fileExists name).
Proof. apply appends_pure. intros w. by rewrite fileExists_eq. Qed.

Lemma appends_Remove C name : C (EvRemove name) → appends C (os_Remove name).
Proof.
  intros HC. apply (appends_event _ _ _ HC). intros w. unfold os_Remove.
  destruct (fs w !! name) as [[| |]|]; eauto. destruct (has_children _ _); eauto.
Qed.

Lemma appends_Symlink C old new : C (EvSymlink old new) → appends C (os_Symlink old new).
Proof.
  intros HC. apply (appends_event _ _ _ HC). intros w. unfold os_Symlink.
  destruct (create_errno _ _); eauto.
Qed.

Lemma appends_Mkdir C name : C (EvMkdir name) → appends C (os_Mkdir name).
Proof.
  intros HC. apply (appends_event _ _ _ HC). intros w. unfold os_Mkdir.
  destruct (create_errno _ _); eauto.
Qed.

Lemma appends_WriteFile C name data :
  C (EvWriteFile name data) → appends C (os_WriteFile name data).
Proof.
  intros HC. apply (appends_event _ _ _ HC). intros w. unfold os_WriteFile.
  destruct (follow _ _ _); eauto.
  destruct (node_at _ _) as [[| |]|]; eauto. destruct (create_errno _ _); eauto.
Qed.

Lemma appends_MkdirAll C path : (∀ p, C (EvMkdir p)) → appends C (os_MkdirAll path).
Proof.
  intros HC. unfold os_MkdirAll. generalize (rev (Strings.Split path Filepath.sep)).
  intros relems. induction relems as [|e parent IH]; cbn [mkdirAll_rec].
  - apply appends_ret.
  - case_decide; [apply appends_ret|].
    apply appends_bind; [apply appends_try, appends_Stat|].
    intros [dir|err].
    + destruct (IsDir dir); [apply appends_ret | apply appends_fail].
    + apply appends_bind; [done|]. intros _.
      apply appends_bind; [by apply appends_try, appends_Mkdir|].
      intros [[]|err']; [apply appends_ret|].
      apply appends_bind; [apply appends_try, appends_Lstat|].
      intros [dir|?]; [destruct (IsDir dir)|];
        first [apply appends_ret | apply appends_fail].
Qed.

Create HintDb appends discriminated.
#[local] Hint Resolve appends_ret appends_fail appends_bind appends_on_error appends_try
  appends_for_each appends_with_target appends_if appends_Lstat appends_Stat
  appends_ReadFile appends_fileExists appends_Remove appends_Symlink appends_Mkdir
  appends_WriteFile appends_MkdirAll : appends.

Lemma appends_removeSymlink path : appends link_event (removeSymlink path).
Proof.
  unfold removeSymlink. apply appends_bind; [auto with appends|].
  intros [info|err].
  - destruct (negb _); auto with appends. apply appends_on_error, appends_Remove. done.
  - destruct (os_IsNotExist _); auto with appends.
Qed.

Lemma appends_createSymlink source target : appends link_event (createSymlink source target).
Proof.
  unfold createSymlink.
  apply appends_bind; [apply appends_removeSymlink|]. intros _.
  apply appends_bind.
  - case_decide; auto with appends. apply appends_on_error, appends_MkdirAll. done.
  - intros _. apply appends_on_error, appends_Symlink. done.
Qed.

Lemma appends_mkdir_required : appends link_event mkdir_required.
Proof.
  unfold mkdir_required. apply appends_for_each. intros dir.
  apply appends_on_error, appends_MkdirAll. done.
Qed.

#[local] Hint Resolve appends_removeSymlink appends_createSymlink appends_mkdir_required
  : appends.

Lemma appends_CreateAllSymlinks : appends link_event CreateAllSymlinks.
Proof. unfold CreateAllSymlinks. auto 10 with appends. Qed.

Lemma appends_CreateTargetSymlinks name : appends link_event (CreateTargetSymlinks name).
Proof. unfold CreateTargetSymlinks. auto 10 with appends. Qed.

Lemma appends_RemoveTargetSymlinks name : appends link_event (RemoveTargetSymlinks name).
Proof. unfold RemoveTargetSymlinks. auto 10 with appends. Qed.


Lemma two_phase_first C1 C2 {A} (m : M A) : appends C1 m → two_phase C1 C2 m.
Proof.
  intros Hm w. destruct (Hm w) as (e1 & Ht & HC). exists e1, [].
  by rewrite app_nil_r.
Qed.

Lemma two_phase_second C1 C2 {A} (m : M A) : appends C2 m → two_phase C1 C2 m.
Proof. intros Hm w. destruct (Hm w) as (e2 & Ht & HC). by exists [], e2. Qed.

Lemma two_phase_bind C1 C2 {A B} (m : M A) (k : A → M B) :
  appends C1 m → (∀ a, two_phase C1 C2 (k a)) → two_phase C1 C2 (m ≫= k).
Proof.
  intros Hm Hk w. run. destruct (Hm w) as (e0 & Ht0 & HC0).
  destruct (m w) as [[a|e] w1]; cbn [snd] in *.
  - destruct (Hk a w1) as (e1 & e2 & Ht & HC1 & HC2). exists (e0 ++ e1), e2.
    rewrite Ht, Ht0, !app_assoc. split; [done|]. split; [by apply Forall_app | done].
  - exists e0, []. by rewrite app_nil_r.
Qed.

Lemma config_written_last_phases e1 e2 :
  Forall (λ ev, is_config_write ev = false) e1 →
  Forall (λ ev, is_symlink_mutation ev = false) e2 →
  config_written_last (e1 ++ e2).
Proof.
  intros H1 H2 i j ev1 ev2 Hi Hcw Hj Hmut.
  rewrite Forall_lookup in H1. rewrite Forall_lookup in H2.
  apply lookup_app_Some in Hi as [Hi | [Hlen Hi]].
  { specialize (H1 _ _ Hi). congruence. }
  apply lookup_app_Some in Hj as [Hj | [_ Hj]].
  - apply lookup_lt_Some in Hj. lia.
  - specialize (H2 _ _ Hj). congruence.
Qed.

Lemma config_written_first_cons data rest :
  Forall link_event rest →
  config_written_first (EvWriteFile configPath data :: rest).
Proof.
  intros _ j ev2 Hj Hmut. destruct j as [|j].
  - cbn in Hj. by simplify_eq.
  - exists 0%nat, (EvWriteFile configPath data). split; [lia|]. done.
Qed.

Lemma config_written_first_nil : config_written_first [].
Proof. by intros j ev2 Hj. Qed.

Section Order.

Context {codec : YamlCodec}.

Lemma appends_loadConfig C : appends C loadConfig.
Proof. apply appends_pure, loadConfig_world. Qed.

Lemma appends_saveConfig config : appends (write_to configPath) (saveConfig config).
Proof.
  unfold saveConfig. apply appends_on_error, appends_WriteFile. by eexists.
Qed.

Lemma appends_getProjectMode C : appends C getProjectMode.
Proof.
  apply appends_pure. intros w. unfold getProjectMode. run.
  pose proof (loadConfig_world w). by destruct (loadConfig w) as [[c|e] w'].
Qed.

Lemma appends_addToGitignore : appends (write_to ".gitignore") addToGitignore.
Proof.
  unfold addToGitignore.
  apply appends_bind; [apply appends_getProjectMode|]. intros mode.
  apply appends_bind; [apply appends_fileExists|]. intros ex.
  apply appends_bind.
  - destruct ex; auto with appends.
  - intros content. apply appends_on_error, appends_WriteFile. by eexists.
Qed.

Lemma initProject_phases force :
  two_phase (λ ev, is_config_write ev = false) (λ ev, is_symlink_mutation ev = false)
    (initProject force).
Proof.
  unfold initProject.
  apply two_phase_bind; [auto with appends|]. intros r.
  destruct (_ && _); [apply two_phase_first; auto with appends|].
  apply two_phase_bind.
  { apply appends_on_error, appends_MkdirAll. done. }
  intros _. apply two_phase_bind; [apply appends_fileExists|]. intros ex.
  apply two_phase_bind.
  { destruct ex; cbn [negb]; [apply appends_ret|].
    apply appends_on_error, appends_WriteFile. done. }
  intros _. apply two_phase_bind.
  { apply appends_try. eapply appends_weaken; [|apply appends_addToGitignore].
    by intros ev [data ->]. }
  intros _. apply two_phase_bind.
  { apply appends_on_error. eapply appends_weaken; [|apply appends_CreateAllSymlinks].
    by intros []. }
  intros _. apply two_phase_second.
  apply appends_bind; [|auto with appends].
  apply appends_try. eapply appends_weaken; [|apply appends_saveConfig].
  by intros ev [data ->].
Qed.

Lemma saveEnabledTargets_trace targets w :
  match saveEnabledTargets targets w with
  | (Ok _, w') => ∃ data, trace w' = trace w ++ [EvWriteFile configPath data]
  | (Err _, w') => trace w' = trace w
  end.
Proof.
  unfold saveEnabledTargets, saveConfig, on_error. run.
  pose proof (loadConfig_world w) as Hw.
  destruct (loadConfig w) as [[config|e] w1]; cbn [snd] in Hw; subst w1; [|done].
  destruct (os_WriteFile _ _ _) as [[[]|e] w1] eqn:Hwr; cbn.
  - apply os_WriteFile_ok in Hwr as (q & _ & _ & ->). by eexists.
  - unfold os_WriteFile in Hwr.
    destruct (follow _ _ _); [by simplify_eq|].
    destruct (node_at _ _) as [[| |]|]; try by simplify_eq.
    destruct (create_errno _ _); by simplify_eq.
Qed.

(** What [addTarget] and [removeTarget] do once the new list is known:
    save it, then touch the links. *)
Lemma save_then_links targets {A} (links : M A) wrap1 wrap2 w :
  appends link_event links →
  ∃ evs, trace ((_ ← on_error (saveEnabledTargets targets) wrap1;
                 _ ← on_error links wrap2; ret ()) w).2 = trace w ++ evs
         ∧ config_written_first evs.
Proof.
  intros Hl. unfold on_error. run.
  pose proof (saveEnabledTargets_trace targets w) as Hs.
  destruct (saveEnabledTargets targets w) as [[[]|e] w1]; cbn [snd].
  - destruct Hs as [data Hs]. destruct (Hl w1) as (evs & Ht & Hev).
    exists (EvWriteFile configPath data :: evs). split.
    + destruct (links w1) as [[a|e] w2]; cbn [snd] in *;
        by rewrite Ht, Hs, <- app_assoc.
    + by apply config_written_first_cons.
  - exists []. rewrite app_nil_r. split; [done | apply config_written_first_nil].
Qed.

Lemma addTarget_order X w :
  ∃ evs, trace (addTarget X w).2 = trace w ++ evs ∧ config_written_first evs.
Proof.
  assert (∃ evs, trace w = trace w ++ evs ∧ config_written_first evs) as Hnil.
  { exists []. rewrite app_nil_r. split; [done | apply config_written_first_nil]. }
  unfold addTarget. destruct (negb _); [done|].
  unfold mbind at 1, M_bind, bind. rewrite fileExists_eq.
  destruct (negb _); [done|].
  unfold mbind at 1, M_bind, bind, on_error at 1.
  pose proof (loadEnabledTargets_world w) as Hw.
  destruct (loadEnabledTargets w) as [[l|e] w1]; cbn [snd] in Hw; subst w1; [|done].
  case_bool_decide; [done|].
  apply save_then_links, appends_CreateTargetSymlinks.
Qed.

Lemma removeTarget_order X w :
  ∃ evs, trace (removeTarget X w).2 = trace w ++ evs ∧ config_written_first evs.
Proof.
  assert (∃ evs, trace w = trace w ++ evs ∧ config_written_first evs) as Hnil.
  { exists []. rewrite app_nil_r. split; [done | apply config_written_first_nil]. }
  unfold removeTarget. destruct (negb _); [done|].
  unfold mbind at 1, M_bind, bind, on_error at 1.
  pose proof (loadEnabledTargets_world w) as Hw.
  destruct (loadEnabledTargets w) as [[l|e] w1]; cbn [snd] in Hw; subst w1; [|done].
  cbv zeta. destruct (negb _); [done|].
  apply save_then_links, appends_RemoveTargetSymlinks.
Qed.

(** C3 (amended). [initProject] writes the config store last: no link is
    made or removed after the config file has been written.  [addTarget]
    and [removeTarget] write it first: every link they make or remove
    comes after the write of the config file. *)
Theorem config_store_write_order :
  (∀ force w, ∃ evs, trace (initProject force w).2 = trace w ++ evs
                     ∧ config_written_last evs)
  ∧ (∀ X w, ∃ evs, trace (addTarget X w).2 = trace w ++ evs
                   ∧ config_written_first evs)
  ∧ (∀ X w, ∃ evs, trace (removeTarget X w).2 = trace w ++ evs
                   ∧ config_written_first evs).
Proof.
  split; [| split; [apply addTarget_order | apply removeTarget_order]].
  intros force w. destruct (initProject_phases force w) as (e1 & e2 & Ht & H1 & H2).
  exists (e1 ++ e2). split; [done|]. by apply config_written_last_phases.
Qed.

End Order.

(** C3 as stated fails for [addTarget] and [removeTarget].  Adding claude
    writes the config file and only then makes the link; when the link
    cannot be made because the user's own CLAUDE.md is in the way, the
    command fails with the config already listing claude. *)
Lemma config_written_before_links :
  let added := addTarget (codec := BlockYaml.codec) "amazonq" Sample.two_targets in
  let failed := addTarget (codec := BlockYaml.codec) "claude" Sample.gemini_and_notes in
  let removed := removeTarget (codec := BlockYaml.codec) "claude" Sample.two_targets in
  trace added.2
  = [ EvWriteFile configPath
        (BlockYaml.Marshal (mkConfig "local" ["claude"; "gemini"; "amazonq"]));
      EvMkdir ".amazonq"; EvMkdir ".amazonq/rules";
      EvSymlink "../../.viberules/rules.md" ".amazonq/rules/AMAZONQ.md" ]
  ∧ ¬ config_written_last (trace added.2)
  ∧ trace removed.2
    = [ EvWriteFile configPath (BlockYaml.Marshal (mkConfig "local" ["gemini"]));
        EvRemove "CLAUDE.md" ]
  ∧ ¬ config_written_last (trace removed.2)
  ∧ is_ok failed.1 = false
  ∧ (loadEnabledTargets (codec := BlockYaml.codec) failed.2).1 = Ok ["gemini"; "claude"]
  ∧ entry_at failed.2 "CLAUDE.md" = Some (NFile "my notes").
Proof.
  intros added failed removed.
  assert (trace added.2
          = [ EvWriteFile configPath
                (BlockYaml.Marshal (mkConfig "local" ["claude"; "gemini"; "amazonq"]));
              EvMkdir ".amazonq"; EvMkdir ".amazonq/rules";
              EvSymlink "../../.viberules/rules.md" ".amazonq/rules/AMAZONQ.md" ]) as Ha
    by (vm_compute; reflexivity).
  assert (trace removed.2
          = [ EvWriteFile configPath (BlockYaml.Marshal (mkConfig "local" ["gemini"]));
              EvRemove "CLAUDE.md" ]) as Hr
    by (vm_compute; reflexivity).
  split; [exact Ha|]. split.
  { rewrite Ha. intros H.
    specialize (H 0%nat 3%nat _ _ eq_refl eq_refl eq_refl eq_refl). lia. }
  split; [exact Hr|]. split.
  { rewrite Hr. intros H.
    specialize (H 0%nat 1%nat _ _ eq_refl eq_refl eq_refl eq_refl). lia. }
  split; [| split]; vm_compute; reflexivity.
Qed.


(** ** Creating links *)

Lemma Join_Split s c : Strings.Join (Strings.Split s c) (String c "") = s.
Proof.
  induction s as [|a s IH]; cbn [Strings.Split]; [done|].
  destruct (Ascii.eqb_spec a c) as [-> | Hne].
  - destruct (Strings.Split s c) as [|l ls] eqn:Hs; [by destruct s; cbn in Hs; repeat case_match|].
    cbn [Strings.Join]. by rewrite <- IH.
  - destruct (Strings.Split s c) as [|l ls] eqn:Hs; [by destruct s; cbn in Hs; repeat case_match|].
    rewrite <- IH. by destruct ls.
Qed.

Lemma dirs_added_refl m : dirs_added m m.
Proof. intros q. by left. Qed.

Lemma dirs_added_trans m1 m2 m3 : dirs_added m1 m2 → dirs_added m2 m3 → dirs_added m1 m3.
Proof.
  intros H12 H23 q. destruct (H12 q) as [E12 | [N1 D2]], (H23 q) as [E23 | [N2 D3]].
  - left. congruence.
  - right. split; congruence.
  - right. split; congruence.
  - congruence.
Qed.

Lemma dirs_added_keeps m m' q n : dirs_added m m' → m !! q = Some n → m' !! q = Some n.
Proof. intros H Hq. destruct (H q) as [-> | [? _]]; congruence. Qed.

Lemma dirs_added_node_at m m' q n :
  dirs_added m m' → node_at m q = Some n → node_at m' q = Some n.
Proof.
  unfold node_at. intros H. repeat case_decide; try done. by apply dirs_added_keeps.
Qed.

Lemma create_errno_None m name :
  create_errno m name = None
  ↔ node_at m name = None ∧ node_at m (Filepath.Dir name) = Some NDir.
Proof.
  unfold create_errno. destruct (node_at m name) eqn:Hn.
  - split; [done | by intros [? _]].
  - rewrite need_dir_None. split; [done | by intros [_ ?]].
Qed.

Lemma create_errno_free m name :
  node_at m name = None → node_at m (Filepath.Dir name) = Some NDir →
  create_errno m name = None.
Proof. intros. by apply create_errno_None. Qed.

Lemma os_Mkdir_ok name w w' :
  os_Mkdir name w = (Ok (), w') →
  fs w' = <[name := NDir]> (fs w) ∧ fs w !! name = None.
Proof.
  unfold os_Mkdir.
  destruct (create_errno (fs w) name) eqn:Hc; [done|].
  apply create_errno_None in Hc as [Hn _].
  intros [= <-]. split; [done|].
  destruct (node_at_not_special _ _ _ Hn); [done|]. by rewrite node_at_special in Hn.
Qed.

Lemma dirs_added_insert m name :
  node_at m name = None → dirs_added m (<[name := NDir]> m).
Proof.
  intros Hn q. destruct (decide (q = name)) as [->|].
  - right. rewrite lookup_insert_eq. split; [|done].
    destruct (node_at_not_special _ _ _ Hn); [done|]. by rewrite node_at_special in Hn.
  - left. by rewrite lookup_insert_ne.
Qed.

(** [os.MkdirAll] adds directories and nothing else, whatever it returns. *)
Lemma mkdirAll_rec_adds relems w : dirs_added (fs w) (fs (mkdirAll_rec relems w).2).
Proof.
  revert w. induction relems as [|e parent IH]; intros w; cbn [mkdirAll_rec].
  - apply dirs_added_refl.
  - case_decide; [apply dirs_added_refl|]. run.
    unfold os_Stat at 1. destruct (stat_node (fs w) _) as [err|n].
    + specialize (IH w). destruct (mkdirAll_rec parent w) as [[[]|err'] w1]; [|done].
      cbn [snd] in IH. unfold os_Mkdir. destruct (create_errno (fs w1) _) as [e1|] eqn:Hc.
      * unfold os_Lstat. destruct (lstat_node (fs w1) _) as [|n1]; [done|].
        by destruct (IsDir _).
      * cbn. eapply dirs_added_trans; [done|]. apply create_errno_None in Hc as [Hn _].
        by apply dirs_added_insert.
    + destruct (IsDir (info_of n)); apply dirs_added_refl.
Qed.

Lemma mkdirAll_rec_ok relems w w' :
  mkdirAll_rec relems w = (Ok (), w') → dirs_added (fs w) (fs w').
Proof. intros H. pose proof (mkdirAll_rec_adds relems w) as Ha. by rewrite H in Ha. Qed.

Lemma stat_node_no_link m path n :
  stat_node m path = inr n → (∀ d, node_at m path ≠ Some (NSymlink d)) →
  node_at m path = Some n.
Proof.
  unfold stat_node. intros Hs Hp. rewrite follow_plain in Hs by done.
  by apply lstat_node_inr.
Qed.

Lemma IsDir_info n : IsDir (info_of n) = true ↔ n = NDir.
Proof. destruct n; cbn; naive_solver. Qed.

Lemma os_MkdirAll_ok path w w' :
  os_MkdirAll path w = (Ok (), w') →
  dirs_added (fs w) (fs w')
  ∧ (path ≠ "" → (∀ d, node_at (fs w) path ≠ Some (NSymlink d)) →
     node_at (fs w') path = Some NDir).
Proof.
  intros H. split; [by eapply mkdirAll_rec_ok|].
  intros Hne Hplain. revert H. unfold os_MkdirAll.
  pose proof (Join_Split path Filepath.sep) as HJ.
  rewrite <- (rev_involutive (Strings.Split path Filepath.sep)) in HJ.
  destruct (rev (Strings.Split path Filepath.sep)) as [|e parent]; [by cbn in HJ|].
  cbn [mkdirAll_rec]. change (String Filepath.sep "") with "/" in HJ. rewrite HJ.
  rewrite decide_False by done. run.
  unfold os_Stat at 1. destruct (stat_node (fs w) path) as [err|n] eqn:Hs.
  - destruct (mkdirAll_rec parent w) as [[[]|err'] w1]; [|done].
    destruct (os_Mkdir path w1) as [[[]|err1] w2] eqn:Hm.
    + intros [= <-]. pose proof Hm as (Hfs & _)%os_Mkdir_ok.
      unfold os_Mkdir in Hm.
      destruct (create_errno (fs w1) path) eqn:Hc; [done|].
      apply create_errno_None in Hc as [Hn1 _].
      destruct (node_at_not_special _ _ _ Hn1); [done|].
      rewrite node_at_special, Hfs by done. apply lookup_insert_eq.
    + unfold os_Mkdir in Hm. destruct (create_errno (fs w1) path); [|done].
      injection Hm as _ <-.
      unfold os_Lstat. destruct (lstat_node (fs w1) path) as [|n1] eqn:Hl; [done|].
      destruct (IsDir (info_of n1)) eqn:Hd; [|done].
      intros [= <-]. apply IsDir_info in Hd as ->. by apply lstat_node_inr.
  - destruct (IsDir (info_of n)) eqn:Hd; [|done].
    intros [= <-]. apply IsDir_info in Hd as ->. by apply stat_node_no_link.
Qed.

Lemma os_MkdirAll_exists path w :
  node_at (fs w) path = Some NDir → os_MkdirAll path w = (Ok (), w).
Proof.
  intros Hn. unfold os_MkdirAll.
  pose proof (Join_Split path Filepath.sep) as HJ.
  rewrite <- (rev_involutive (Strings.Split path Filepath.sep)) in HJ.
  destruct (rev (Strings.Split path Filepath.sep)) as [|e parent]; [done|].
  cbn [mkdirAll_rec]. change (String Filepath.sep "") with "/" in HJ. rewrite HJ.
  case_decide; [done|]. run. unfold os_Stat.
  by rewrite (stat_node_plain _ _ NDir).
Qed.

Lemma mkdir_required_eq w :
  mkdir_required w
  = on_error (os_MkdirAll ".amazonq/rules")
      (λ err, Errorf "failed to create directory %s: %w" [ArgS ".amazonq/rules"; ArgE err]) w.
Proof.
  unfold mkdir_required. change GetRequiredDirectories with [".amazonq/rules"].
  cbn [for_each]. run. unfold on_error.
  by destruct (os_MkdirAll ".amazonq/rules" w) as [[[]|e] w'].
Qed.

Lemma mkdir_required_ok w w' :
  mkdir_required w = (Ok (), w') →
  dirs_added (fs w) (fs w')
  ∧ ((∀ d, node_at (fs w) ".amazonq/rules" ≠ Some (NSymlink d)) →
     node_at (fs w') ".amazonq/rules" = Some NDir).
Proof.
  rewrite mkdir_required_eq. unfold on_error.
  destruct (os_MkdirAll _ _) as [[[]|e] w1] eqn:Hm; [|done].
  intros [= <-]. apply os_MkdirAll_ok in Hm as [? Hd]. split; [done|]. by apply Hd.
Qed.

Lemma plain_parents_no_link w p d :
  plain_parents w → p ∈ [".amazonq"; ".amazonq/rules"] →
  node_at (fs w) p ≠ Some (NSymlink d).
Proof. intros Hp Hin. destruct (Hp p Hin) as [-> | ->]; done. Qed.

Lemma mkdir_required_exists w :
  node_at (fs w) ".amazonq/rules" = Some NDir → mkdir_required w = (Ok (), w).
Proof.
  intros Hn. rewrite mkdir_required_eq. unfold on_error.
  by rewrite os_MkdirAll_exists.
Qed.

Lemma Dir_nonempty path : Filepath.Dir path ≠ "".
Proof.
  unfold Filepath.Dir, Filepath.Clean. case_decide; [done|].
  destruct (Strings.HasPrefix _ _); [done|].
  destruct (rev _) as [|e out] eqn:Hout; [done|].
  intros HJ.
  assert (Forall (λ e, e ≠ "") (e :: out)) as Hall.
  { rewrite <- Hout. apply Forall_rev.
    generalize (Strings.Split (Filepath.upto_last_sep path) Filepath.sep).
    intros l. assert (Forall (λ e : string, e ≠ "") []) as Hnil by constructor.
    revert Hnil. generalize (@nil string). induction l as [|x l IH]; intros acc Hacc; [done|].
    cbn [fold_left]. apply IH. unfold Filepath.clean_step.
    repeat case_decide; try done.
    - destruct acc as [|top rest]; [by constructor|]. case_decide.
      + by constructor.
      + by inversion Hacc.
    - by constructor. }
  inversion Hall as [|? ? He _]; subst. apply He.
  destruct out; [done|]. by destruct e.
Qed.

Lemma os_Symlink_ok old new w w' :
  os_Symlink old new w = (Ok (), w') →
  fs w' = <[new := NSymlink old]> (fs w)
  ∧ node_at (fs w) new = None
  ∧ node_at (fs w) (Filepath.Dir new) = Some NDir.
Proof.
  unfold os_Symlink.
  destruct (create_errno (fs w) new) eqn:Hc; [done|].
  apply create_errno_None in Hc as [Hn Hd]. by intros [= <-].
Qed.

Lemma bind_ok {A B} (m : M A) (k : A → M B) w b w' :
  (m ≫= k) w = (Ok b, w') → ∃ a w1, m w = (Ok a, w1) ∧ k a w1 = (Ok b, w').
Proof. run. destruct (m w) as [[a|e] w1]; [eauto | done]. Qed.

Lemma bind_run {A B} (m : M A) (k : A → M B) w a w1 :
  m w = (Ok a, w1) → (m ≫= k) w = k a w1.
Proof. run. by intros ->. Qed.

Lemma on_error_ok {A} (m : M A) wrap w a w' :
  on_error m wrap w = (Ok a, w') → m w = (Ok a, w').
Proof. unfold on_error. destruct (m w) as [[a'|e] w1]; [done | done]. Qed.

Lemma on_error_run {A} (m : M A) wrap w a w' :
  m w = (Ok a, w') → on_error m wrap w = (Ok a, w').
Proof. unfold on_error. by intros ->. Qed.

(** What a successful [createSymlink] leaves behind. *)
Lemma createSymlink_ok source target w w' :
  let s := Filepath.Clean source in
  let t := Filepath.Clean target in
  createSymlink source target w = (Ok (), w') →
  node_at (fs w') t = Some (NSymlink s)
  ∧ node_at (fs w') (Filepath.Dir t) = Some NDir
  ∧ ∀ q, q ≠ t → fs w' !! q = fs w !! q ∨ (fs w !! q = None ∧ fs w' !! q = Some NDir).
Proof.
  intros s t. pose proof (Clean_idemp target) as Hclean.
  unfold createSymlink. fold s t. fold t in Hclean.
  intros ([] & w1 & Hrm & H)%bind_ok.
  apply bind_ok in H as ([] & w2 & Hmk & Hsl%on_error_ok).
  apply removeSymlink_ok in Hrm as (Hfs1 & _ & _). rewrite Hclean in Hfs1.
  assert (dirs_added (fs w1) (fs w2)) as Hadd.
  { case_decide.
    - by apply on_error_ok, os_MkdirAll_ok in Hmk as [? _].
    - inversion Hmk. apply dirs_added_refl. }
  apply os_Symlink_ok in Hsl as (Hfs3 & Hnone & Hdir).
  destruct (node_at_not_special _ _ _ Hnone) as [? ?]; [done|].
  split; [| split].
  - rewrite node_at_special, Hfs3 by done. apply lookup_insert_eq.
  - rewrite Hfs3. rewrite node_at_insert_ne; [done|].
    intros Heq. rewrite Heq in Hdir. congruence.
  - intros q Hq. rewrite Hfs3, lookup_insert_ne by done.
    destruct (Hadd q) as [-> | [Hn ->]].
    + left. by rewrite Hfs1, lookup_delete_ne.
    + right. split; [|done]. by rewrite Hfs1, lookup_delete_ne in Hn.
Qed.

Lemma removeSymlink_existing path w d :
  node_at (fs w) (Filepath.Clean path) = Some (NSymlink d) →
  removeSymlink path w
  = (Ok (), emit (EvRemove (Filepath.Clean path)) (delete (Filepath.Clean path) (fs w)) w).
Proof.
  intros Hlink. destruct (node_at_not_special _ _ _ Hlink) as [? ?]; [done|].
  unfold removeSymlink, os_Lstat, lstat_node, os_Remove. run. rewrite Hlink. cbn.
  rewrite node_at_special in Hlink by done. by rewrite Hlink.
Qed.

(** Creating a link that is already there and correct removes it and makes
    it again: the tree does not change. *)
Lemma createSymlink_existing source target w :
  let s := Filepath.Clean source in
  let t := Filepath.Clean target in
  node_at (fs w) t = Some (NSymlink s) →
  node_at (fs w) (Filepath.Dir t) = Some NDir →
  createSymlink source target w
  = (Ok (), mkWorld (fs w) (trace w ++ [EvRemove t; EvSymlink s t])).
Proof.
  intros s t Hlink Hdir. pose proof (Clean_idemp target) as Hclean.
  unfold createSymlink. fold s t. fold t in Hclean.
  destruct (node_at_not_special _ _ _ Hlink) as [? ?]; [done|].
  assert (t ≠ Filepath.Dir t) as Hne by (intros Heq; rewrite <- Heq in Hdir; congruence).
  rewrite <- Hclean in Hlink.
  erewrite bind_run; [|by eapply removeSymlink_existing]. rewrite Hclean.
  set (w1 := emit (EvRemove t) (delete t (fs w)) w).
  assert (node_at (fs w1) (Filepath.Dir t) = Some NDir) as Hdir'
    by (cbn; by rewrite node_at_delete_ne).
  erewrite bind_run.
  2:{ case_decide; [|reflexivity]. by apply on_error_run, os_MkdirAll_exists. }
  apply on_error_run.
  unfold os_Symlink. rewrite create_errno_free; [| |done].
  2:{ cbn. rewrite node_at_special by done. apply lookup_delete_eq. }
  unfold emit. cbn. f_equal. f_equal.
  - rewrite insert_delete_eq. apply insert_id.
    rewrite Hclean in Hlink. by rewrite node_at_special in Hlink.
  - by rewrite <- app_assoc.
Qed.

Lemma removeSymlink_absent p w :
  entry_at w p = None → absent_errno (fs w) (Filepath.Clean p) = ENOENT →
  removeSymlink p w = (Ok (), w).
Proof.
  unfold entry_at, removeSymlink, os_Lstat, lstat_node. run. by intros -> ->.
Qed.

Lemma IsSymlinkValid_true linkPath expected w d :
  entry_at w linkPath = Some (NSymlink d) →
  Filepath.Clean d = Filepath.Clean expected →
  reachable (fs w) (Filepath.Clean linkPath) = true →
  IsSymlinkValid linkPath expected w = (Ok true, w).
Proof.
  unfold entry_at, IsSymlinkValid, os_Lstat, os_Readlink, os_Stat, lstat_node, reachable.
  run. intros Hn Hd Hr. rewrite Hn. cbn. rewrite Hn. cbn.
  rewrite bool_decide_eq_true_2 by done. cbn.
  by destruct (stat_node _ _).
Qed.

Lemma follow_S fuel m path :
  follow (S fuel) m path
  = match node_at m path with
    | Some (NSymlink d) => match link_dest m path d with
                           | inl e => inl e
                           | inr q => follow fuel m q
                           end
    | _ => inr path
    end.
Proof. reflexivity. Qed.

Lemma stat_node_link m link dest q n :
  node_at m link = Some (NSymlink dest) →
  link_dest m link dest = inr q →
  node_at m q = Some n →
  is_symlink n = false →
  stat_node m link = inr n.
Proof.
  intros Hl Hq Hd Hn. unfold stat_node, maxSymlinks.
  rewrite follow_S, Hl, Hq, follow_plain; [by apply lstat_node_found|].
  intros d'. rewrite Hd. intros [= ->]. done.
Qed.

Lemma bind_fail {A B} (m : M A) (k : A → M B) w e w1 :
  m w = (Err e, w1) → (m ≫= k) w = (Err e, w1).
Proof. run. by intros ->. Qed.

Lemma removeSymlink_err path w e w' : removeSymlink path w = (Err e, w') → w' = w.
Proof.
  unfold removeSymlink, os_Lstat, lstat_node, os_Remove. run.
  destruct (node_at (fs w) (Filepath.Clean path)) as [n|]; cbn.
  - destruct (negb (IsSymlinkMode (info_of n))); [by intros [= _ <-]|].
    destruct (fs w !! Filepath.Clean path) as [[| |]|]; try by intros [= _ <-].
    + destruct (has_children _ _); by intros [= _ <-].
  - destruct (absent_errno _ _); by intros [= _ <-].
Qed.

Lemma os_Mkdir_run name w :
  node_at (fs w) name = None →
  node_at (fs w) (Filepath.Dir name) = Some NDir →
  os_Mkdir name w = (Ok (), emit (EvMkdir name) (<[name := NDir]> (fs w)) w).
Proof. intros Hn Hd. unfold os_Mkdir. by rewrite create_errno_free. Qed.

(** [os.MkdirAll] on the required directory when nothing but directories
    stands in its way. *)
Lemma os_MkdirAll_required w :
  plain_parents w →
  os_MkdirAll ".amazonq/rules" w
  = match node_at (fs w) ".amazonq/rules" with
    | Some _ => (Ok (), w)
    | None =>
        match node_at (fs w) ".amazonq" with
        | Some _ => os_Mkdir ".amazonq/rules" w
        | None => (_ ← os_Mkdir ".amazonq"; os_Mkdir ".amazonq/rules") w
        end
    end.
Proof.
  intros Hp.
  destruct (Hp ".amazonq/rules" ltac:(in_list)) as [Hr | Hr]; rewrite Hr.
  2:{ by apply os_MkdirAll_exists. }
  unfold os_MkdirAll.
  change (rev (Strings.Split ".amazonq/rules" Filepath.sep)) with ["rules"; ".amazonq"].
  cbn [mkdirAll_rec].
  change (Strings.Join (rev ["rules"; ".amazonq"]) "/") with ".amazonq/rules".
  change (Strings.Join (rev [".amazonq"]) "/") with ".amazonq".
  rewrite !decide_False by done. run. unfold os_Stat at 1.
  rewrite (stat_node_absent _ _ Hr).
  destruct (Hp ".amazonq" ltac:(in_list)) as [Ha | Ha]; rewrite Ha.
  - unfold os_Stat. rewrite (stat_node_absent _ _ Ha).
    rewrite (os_Mkdir_run ".amazonq") by done.
    set (w1 := emit _ _ w).
    assert (node_at (fs w1) ".amazonq/rules" = None) as Hr1
      by (cbn; by rewrite node_at_insert_ne).
    assert (node_at (fs w1) ".amazonq" = Some NDir) as Ha1
      by (cbn; apply lookup_insert_eq).
    by rewrite (os_Mkdir_run ".amazonq/rules") by done.
  - unfold os_Stat. rewrite (stat_node_plain _ _ NDir) by done. cbn.
    by rewrite (os_Mkdir_run ".amazonq/rules") by done.
Qed.

(** With nothing but directories in its way the required directory is
    made: [mkdir_required] succeeds, adds directories only, and leaves
    both directories in place. *)
Lemma mkdir_required_plain w :
  plain_parents w →
  ∃ w', mkdir_required w = (Ok (), w')
        ∧ dirs_added (fs w) (fs w')
        ∧ node_at (fs w') ".amazonq/rules" = Some NDir
        ∧ plain_parents w'.
Proof.
  intros Hp. rewrite mkdir_required_eq. unfold on_error.
  destruct (os_MkdirAll ".amazonq/rules" w) as [[[]|e] w'] eqn:Hm.
  - exists w'. split; [done|].
    apply os_MkdirAll_ok in Hm as [Hadd Hd]. split; [done|].
    split; [apply Hd; [done|]; intros d; apply plain_parents_no_link; [done | in_list]|].
    intros p Hin. destruct (Hp p Hin) as [Hn | Hn].
    + destruct (node_at_not_special _ _ _ Hn) as [? ?]; [done|].
      rewrite node_at_special in * by done.
      destruct (Hadd p) as [-> | [_ ->]]; [by left | by right].
    + right. by eapply dirs_added_node_at.
  - exfalso. rewrite os_MkdirAll_required in Hm by done.
    destruct (Hp ".amazonq/rules" ltac:(in_list)) as [Hr | Hr]; rewrite Hr in Hm; [|done].
    destruct (Hp ".amazonq" ltac:(in_list)) as [Ha | Ha]; rewrite Ha in Hm.
    + erewrite bind_run in Hm; [|by apply os_Mkdir_run].
      rewrite os_Mkdir_run in Hm; [done| |].
      * cbn [fs emit]. by rewrite node_at_insert_ne.
      * cbn [fs emit]. apply lookup_insert_eq.
    + by rewrite os_Mkdir_run in Hm.
Qed.

(** What the proofs need to know about the links of the registry. *)
Lemma registry_links t :
  t ∈ GetAllTargets →
  ∃ l, Links t = [l]
       ∧ Filepath.Clean (Source l) = Source l
       ∧ Filepath.Clean (Target l) = Target l
       ∧ Target l ≠ ".amazonq/rules"
       ∧ Target l ≠ ".viberules/rules.md"
       ∧ (∀ m, link_dest m (Target l) (Source l) = inr ".viberules/rules.md")
       ∧ (Filepath.Dir (Target l) = "." ∨ Filepath.Dir (Target l) = ".amazonq/rules").
Proof.
  unfold GetAllTargets. intros Ht.
  repeat (apply elem_of_cons in Ht as [-> | Ht];
          [ eexists; split; [reflexivity|]; repeat split;
            first [ discriminate | by left | by right ] | ]).
  by apply elem_of_nil in Ht.
Qed.

(** A link of the registry is either made or refused: when [createSymlink]
    fails, nothing has changed. *)
Lemma createSymlink_err t l w e w' :
  t ∈ GetAllTargets → l ∈ Links t →
  node_at (fs w) ".amazonq/rules" = Some NDir →
  createSymlink (Source l) (Target l) w = (Err e, w') → w' = w.
Proof.
  intros Ht Hl Hdir.
  destruct (registry_links t Ht) as (l' & Hlinks & Hcs & Hct & Hnd & _ & _ & Hparent).
  rewrite Hlinks in Hl. apply list_elem_of_singleton in Hl as ->.
  unfold createSymlink. rewrite Hcs, Hct.
  destruct (removeSymlink (Target l') w) as [[[]|e1] w1] eqn:Hrm.
  2:{ rewrite (bind_fail _ _ _ _ _ Hrm). apply removeSymlink_err in Hrm as ->.
      by intros [= _ <-]. }
  erewrite bind_run; [|exact Hrm].
  apply removeSymlink_ok in Hrm as (Hfs1 & Hnone & _). rewrite Hct in Hfs1, Hnone.
  assert (node_at (fs w1) (Filepath.Dir (Target l')) = Some NDir) as Hp1.
  { destruct Hparent as [-> | ->]; [done|]. rewrite Hfs1, node_at_delete_ne; done. }
  erewrite bind_run.
  2:{ case_decide; [|reflexivity]. by apply on_error_run, os_MkdirAll_exists. }
  unfold on_error, os_Symlink. by rewrite create_errno_free.
Qed.

Lemma on_error_fail {A} (m : M A) wrap w e w' :
  m w = (Err e, w') → on_error m wrap w = (Err (wrap e), w').
Proof. unfold on_error. by intros ->. Qed.

Lemma CreateTargetSymlinks_eq X t l w :
  find_target X = Some t → Links t = [l] →
  CreateTargetSymlinks X w
  = (_ ← mkdir_required;
     _ ← on_error (createSymlink (Source l) (Target l))
           (λ err, Errorf "failed to create symlink: %w" [ArgE err]);
     ret ()) w.
Proof.
  intros Hf Hl. unfold CreateTargetSymlinks. rewrite with_target_find.
  fold (find_target X). rewrite Hf, Hl. reflexivity.
Qed.

(** C6 (amended). Let [X] be a valid target and let .amazonq and
    .amazonq/rules be directories or absent.  Calling
    [CreateTargetSymlinks X] a second time returns what the first call
    returned and leaves the tree as the first call left it; so when the
    first call succeeds the second one does too, and, the rules file being
    in place, every link of [X] is valid after either call.  Creating a
    link that is already in place with the same destination succeeds and
    leaves the tree unchanged, and so does removing a link that is absent
    when every name above its path holds a directory or nothing. *)
Theorem CreateTargetSymlinks_idempotent :
  (∀ X w,
     isValidTarget X = true →
     plain_parents w →
     let first := CreateTargetSymlinks X w in
     let second := CreateTargetSymlinks X first.2 in
     second.1 = first.1
     ∧ fs second.2 = fs first.2
     ∧ (first.1 = Ok () →
        ∀ rules, fs w !! ".viberules/rules.md" = Some (NFile rules) →
        ∀ t l, t ∈ GetAllTargets → Name t = X → l ∈ Links t →
          IsSymlinkValid (Target l) (Source l) first.2 = (Ok true, first.2)
          ∧ IsSymlinkValid (Target l) (Source l) second.2 = (Ok true, second.2)))
  ∧ (∀ source target w,
       entry_at w target = Some (NSymlink (Filepath.Clean source)) →
       node_at (fs w) (Filepath.Dir (Filepath.Clean target)) = Some NDir →
       ∃ w', createSymlink source target w = (Ok (), w') ∧ fs w' = fs w)
  ∧ (∀ p w, entry_at w p = None → dirs_above w p →
       ∃ w', removeSymlink p w = (Ok (), w') ∧ fs w' = fs w).
Proof.
  split; [| split].
  - intros X w HX Hplain.
    destruct (find_target_valid X HX) as (t & Hfind & Ht & Hname & Huniq).
    destruct (registry_links t Ht) as (l & Hlinks & Hcs & Hct & Hnd & Hnr & Hdest & _).
    assert (l ∈ Links t) as Hl by (rewrite Hlinks; apply list_elem_of_here).
    cbv zeta. rewrite !(CreateTargetSymlinks_eq X t l) by done.
    destruct (mkdir_required_plain w Hplain) as (wa & Hmk & Hadd & Hdir & Hplain_a).
    rewrite (bind_run _ _ _ _ _ Hmk).
    destruct (createSymlink (Source l) (Target l) wa) as [[[]|e] wb] eqn:Hcr.
    2:{ (* the link is refused: the tree is as [mkdir_required] left it *)
        pose proof (createSymlink_err _ _ _ _ _ Ht Hl Hdir Hcr) as ->.
        rewrite (bind_fail _ _ _ _ _ (on_error_fail _ _ _ _ _ Hcr)). cbn [fst snd].
        rewrite (bind_run _ _ _ _ _ (mkdir_required_exists _ Hdir)).
        by rewrite (bind_fail _ _ _ _ _ (on_error_fail _ _ _ _ _ Hcr)). }
    rewrite (bind_run _ _ _ _ _ (on_error_run _ _ _ _ _ Hcr)).
    change ((ret () : M ()) wb) with (Ok (), wb). cbn [fst snd].
    apply createSymlink_ok in Hcr as (Hlink & Hparent & Hrest).
    rewrite Hcs, Hct in Hlink. rewrite Hct in Hparent, Hrest.
    assert (node_at (fs wb) ".amazonq/rules" = Some NDir) as Hdir1.
    { destruct (Hrest ".amazonq/rules") as [Heq | [_ Heq]]; [done | |];
        change (fs wb !! ".amazonq/rules" = Some NDir); by rewrite Heq. }
    rewrite (bind_run _ _ _ _ _ (mkdir_required_exists _ Hdir1)).
    erewrite bind_run.
    2:{ apply on_error_run, createSymlink_existing; by rewrite ?Hct, ?Hcs. }
    change ((ret () : M ()) ?w') with (Ok (), w'). cbn [fst snd fs].
    split; [done|]. split; [done|].
    intros _ rules Hrules t' l' Ht' Hn' Hl'.
    rewrite (Huniq t' Ht' Hn'), Hlinks in Hl'.
    apply list_elem_of_singleton in Hl' as ->.
    assert (fs wb !! ".viberules/rules.md" = Some (NFile rules)) as Hrules1.
    { pose proof (dirs_added_keeps _ _ _ _ Hadd Hrules) as Hra.
      destruct (Hrest ".viberules/rules.md") as [-> | [? _]]; [done | done | congruence]. }
    assert (∀ w2, fs w2 = fs wb →
              IsSymlinkValid (Target l) (Source l) w2 = (Ok true, w2)) as Hvalid.
    { intros w2 Hfs. apply (IsSymlinkValid_true _ _ _ (Source l)).
      - unfold entry_at. by rewrite Hct, Hfs.
      - done.
      - unfold reachable. rewrite Hct, Hfs.
        erewrite stat_node_link; [done | exact Hlink | apply Hdest | exact Hrules1 | done]. }
    split; by apply Hvalid.
  - intros source target w Hlink Hparent.
    eexists. split; [by apply createSymlink_existing | reflexivity].
  - intros p w Hp Habove. exists w.
    by rewrite removeSymlink_absent by (by try apply absent_errno_free).
Qed.

Lemma CreateTargetSymlinks_idempotent_witness :
  let first := CreateTargetSymlinks "amazonq" Sample.initialised in
  let second := CreateTargetSymlinks "amazonq" first.2 in
  let refused := CreateTargetSymlinks "claude" Sample.with_user_files in
  first.1 = Ok ()
  ∧ second.1 = first.1
  ∧ fs second.2 = fs first.2
  ∧ IsSymlinkValid ".amazonq/rules/AMAZONQ.md" "../../.viberules/rules.md" second.2
    = (Ok true, second.2)
  ∧ is_ok refused.1 = false
  ∧ (CreateTargetSymlinks "claude" refused.2).1 = refused.1
  ∧ (∃ w', createSymlink ".viberules/rules.md" "CLAUDE.md" Sample.two_targets = (Ok (), w')
           ∧ fs w' = fs Sample.two_targets)
  ∧ (∃ w', removeSymlink "AGENTS.md" Sample.two_targets = (Ok (), w')
           ∧ fs w' = fs Sample.two_targets).
Proof.
  intros first second refused.
  destruct CreateTargetSymlinks_idempotent as (Hidem & Hcreate & Hremove).
  assert (plain_parents Sample.initialised) as Hp1.
  { intros p Hp. rewrite !elem_of_cons, elem_of_nil in Hp.
    destruct Hp as [-> | [-> | []]]; by left. }
  assert (plain_parents Sample.with_user_files) as Hp2.
  { intros p Hp. rewrite !elem_of_cons, elem_of_nil in Hp.
    destruct Hp as [-> | [-> | []]]; by left. }
  destruct (Hidem "amazonq" Sample.initialised eq_refl Hp1) as (Hres & Hfs & Hvalid).
  destruct (Hidem "claude" Sample.with_user_files eq_refl Hp2) as (Hres' & _ & _).
  split; [reflexivity|]. split; [exact Hres|]. split; [exact Hfs|]. split.
  { apply (Hvalid eq_refl "# rules" eq_refl
             (mkTarget "amazonq"
                [mkSymlinkDef "../../.viberules/rules.md" ".amazonq/rules/AMAZONQ.md"])
             (mkSymlinkDef "../../.viberules/rules.md" ".amazonq/rules/AMAZONQ.md"));
      [ compute_done | reflexivity | compute_done ]. }
  split; [reflexivity|]. split; [exact Hres'|]. split.
  - apply Hcreate; reflexivity.
  - apply Hremove; [reflexivity|].
    unfold dirs_above. change (ancestors _) with ["."].
    apply Forall_cons_2; [right; reflexivity | apply Forall_nil_2].
Defined.

(** ** The ignore-section rewrite *)


Lemma strip_sections_no_header skip lines : Forall no_header (strip_sections skip lines).
Proof.
  revert skip. induction lines as [|line rest IH]; intros skip; cbn [strip_sections];
    [constructor|].
  destruct (Strings.HasPrefix line gitignoreSectionPrefix) eqn:Hh; [apply IH|].
  destruct skip; [destruct (_ && _)|]; try apply IH; by constructor.
Qed.

Lemma strip_sections_sub (P : string → Prop) skip lines :
  Forall P lines → Forall P (strip_sections skip lines).
Proof.
  intros H. revert skip. induction H as [|line rest Hl Hrest IH]; intros skip;
    cbn [strip_sections]; [constructor|].
  destruct (Strings.HasPrefix line gitignoreSectionPrefix); [apply IH|].
  destruct skip; [destruct (_ && _)|]; try apply IH; by constructor.
Qed.

Lemma strip_sections_app lines1 lines2 :
  Forall no_header lines1 →
  strip_sections false (lines1 ++ lines2) = lines1 ++ strip_sections false lines2.
Proof.
  induction 1 as [|line rest Hl Hrest IH]; [done|].
  cbn [app strip_sections]. by rewrite Hl, IH.
Qed.

Lemma last_byte_nonempty s : s ≠ "" → ∃ c, Strings.last_byte s = Some c.
Proof.
  induction s as [|a s IH]; [done|]. intros _. destruct s as [|b s]; [by exists a|].
  destruct IH as [c Hc]; [done|]. by exists c.
Qed.

(** The section starts with an empty line, names the local-files marker,
    and is dropped as a whole by the loop; the rewrite leaves a file that
    holds the section alone as it is. *)
Lemma viberulesSection_shape mode :
  ∃ body, viberulesSection mode = String newline body
          ∧ strip_sections false (Strings.Split body newline) = []
          ∧ Strings.Contains body gitignoreLocalFiles = true
          ∧ gitignore_rewrite mode (viberulesSection mode) = viberulesSection mode.
Proof.
  unfold gitignore_rewrite, viberulesSection.
  destruct (decide (mode = "local")); eexists; (split; [reflexivity|]);
    repeat split; vm_compute; reflexivity.
Qed.

Lemma gitignore_rewrite_detected mode contentStr :
  section_detected contentStr = true →
  gitignore_rewrite mode contentStr
  = (if decide (kept_text contentStr = "") then ""
     else kept_text contentStr +:+ String newline "") +:+ viberulesSection mode.
Proof.
  unfold section_detected, gitignore_rewrite. intros ->. fold (kept_text contentStr).
  case_decide as Hk; [by rewrite Hk|].
  destruct (last_byte_nonempty _ Hk) as [c Hc]. rewrite Hc.
  destruct (Ascii.eqb_spec c newline) as [-> | _]; [|done].
  by destruct (TrimRight_last (Strings.Join
    (strip_sections false (Strings.Split contentStr newline)) (String newline "")) newline).
Qed.

Lemma kept_text_lines contentStr :
  Forall no_header (Strings.Split (kept_text contentStr) newline).
Proof.
  unfold kept_text.
  set (newLines := strip_sections false (Strings.Split contentStr newline)).
  destruct (Split_TrimRight (Strings.Join newLines (String newline "")) newline) as [k Hk].
  assert (Forall no_header (Strings.Split (Strings.Join newLines (String newline "")) newline))
    as Hall.
  { destruct (decide (newLines = [])) as [-> | Hne]; [by repeat constructor|].
    rewrite Split_Join; [apply strip_sections_no_header | done |].
    apply strip_sections_sub, Split_fields. }
  rewrite Hk in Hall. by apply Forall_app in Hall as [? _].
Qed.

(** A file that ends with a section written by the rewrite is left as it is. *)
Lemma gitignore_rewrite_settled mode t :
  t ≠ "" → Strings.TrimRight t newline = t →
  Forall no_header (Strings.Split t newline) →
  gitignore_rewrite mode (t +:+ String newline "" +:+ viberulesSection mode)
  = t +:+ String newline "" +:+ viberulesSection mode.
Proof.
  intros Hne Htrim Hlines.
  destruct (viberulesSection_shape mode) as (body & Hs & Hstrip & Hmark & _).
  rewrite gitignore_rewrite_detected.
  2:{ unfold section_detected, contains. apply orb_true_iff. left.
      do 2 apply Contains_app_l. rewrite Hs. cbn [Strings.Contains].
      by rewrite Hmark, orb_true_r. }
  assert (kept_text (t +:+ String newline "" +:+ viberulesSection mode) = t) as ->.
  { unfold kept_text. rewrite Hs.
    change (String newline "" +:+ String newline body) with (String newline (String newline body)).
    rewrite Split_app, Split_cons_sep, strip_sections_app by done.
    cbn [strip_sections]. change (Strings.HasPrefix "" gitignoreSectionPrefix) with false.
    cbn match. rewrite Hstrip, Join_snoc by apply Split_nonempty.
    rewrite Join_Split, string_app_nil_r, TrimRight_snoc. done. }
  rewrite decide_False by done. by rewrite string_app_assoc.
Qed.

(** Once a section has been detected, running the rewrite again changes
    nothing. *)
Lemma gitignore_rewrite_detected_fixed mode contentStr :
  section_detected contentStr = true →
  gitignore_rewrite mode (gitignore_rewrite mode contentStr)
  = gitignore_rewrite mode contentStr.
Proof.
  intros Hd. rewrite (gitignore_rewrite_detected mode contentStr Hd).
  case_decide as Hk.
  - rewrite string_app_nil_l. by destruct (viberulesSection_shape mode) as (? & _ & _ & _ & ->).
  - rewrite string_app_assoc. apply gitignore_rewrite_settled; [done | |].
    + apply TrimRight_idemp.
    + apply kept_text_lines.
Qed.

Lemma gitignore_rewrite_detects mode contentStr :
  section_detected (gitignore_rewrite mode contentStr) = true.
Proof.
  destruct (viberulesSection_shape mode) as (body & Hs & _ & Hmark & _).
  unfold section_detected, contains, gitignore_rewrite. apply orb_true_iff. left.
  apply Contains_app_l. rewrite Hs. cbn [Strings.Contains].
  by rewrite Hmark, orb_true_r.
Qed.

(** From its second run on the rewrite is the identity: the third run
    returns what the second returned, for every starting text and mode. *)
Lemma gitignore_rewrite_settles mode contentStr :
  let once := gitignore_rewrite mode contentStr in
  let twice := gitignore_rewrite mode once in
  gitignore_rewrite mode twice = twice.
Proof. cbv zeta. apply gitignore_rewrite_detected_fixed, gitignore_rewrite_detects. Qed.


(** C2. The rewrite is not idempotent from its first run.  On a .gitignore
    that ends with an empty line the first run appends the section after
    the empty line and the second run drops that line, so the two results
    differ, as texts and as files written by [addToGitignore].  On a
    .gitignore that holds a stale output-files header the first run leaves
    the header in and the marker occurs twice. *)
Theorem gitignore_second_run_differs :
  let once := gitignore_rewrite "local" Sample.blank_line_text in
  let twice := gitignore_rewrite "local" once in
  let ran_once := addToGitignore (codec := BlockYaml.codec) Sample.blank_line_gitignore in
  let ran_twice := addToGitignore (codec := BlockYaml.codec) ran_once.2 in
  once = "node_modules" +:+ String newline (String newline "") +:+ viberulesSection "local"
  ∧ twice = "node_modules" +:+ String newline "" +:+ viberulesSection "local"
  ∧ twice ≠ once
  ∧ ran_once.1 = Ok () ∧ ran_twice.1 = Ok ()
  ∧ fs ran_once.2 !! ".gitignore" = Some (NFile once)
  ∧ fs ran_twice.2 !! ".gitignore" = Some (NFile twice)
  ∧ Strings.Count (gitignore_rewrite "public" Sample.stale_header_text)
      gitignoreOutputFiles = 2%nat
  ∧ gitignore_rewrite "public" (gitignore_rewrite "public" Sample.stale_header_text)
    ≠ gitignore_rewrite "public" Sample.stale_header_text.
Proof.
  intros once twice ran_once ran_twice.
  assert (once = "node_modules" +:+ String newline (String newline "")
                 +:+ viberulesSection "local") as Honce by (vm_compute; reflexivity).
  assert (twice = "node_modules" +:+ String newline "" +:+ viberulesSection "local")
    as Htwice by (vm_compute; reflexivity).
  split; [exact Honce|]. split; [exact Htwice|]. split.
  { rewrite Honce, Htwice. vm_compute. discriminate. }
  split; [vm_compute; reflexivity|]. split; [vm_compute; reflexivity|].
  split; [vm_compute; reflexivity|]. split; [vm_compute; reflexivity|].
  split; [vm_compute; reflexivity|].
  vm_compute. discriminate.
Qed.

(** The test of the repository starts from no .gitignore at all; there the
    second run does return the text of the first. *)
Example gitignore_rewrite_from_empty mode :
  gitignore_rewrite mode (gitignore_rewrite mode "") = gitignore_rewrite mode "".
Proof.
  unfold gitignore_rewrite at 2 3. cbn [contains Strings.Contains Strings.last_byte].
  change (contains "" gitignoreLocalFiles || contains "" gitignoreLocalMode) with false.
  cbv iota. rewrite !string_app_nil_l.
  by destruct (viberulesSection_shape mode) as (? & _ & _ & _ & ->).
Qed.

(** C6 as stated fails when the user's own file is in the place of a link:
    the rules file exists, yet both calls are refused and CLAUDE.md is not a
    valid link afterwards. *)
Lemma CreateTargetSymlinks_refused_twice :
  let first := CreateTargetSymlinks "claude" Sample.with_user_files in
  let second := CreateTargetSymlinks "claude" first.2 in
  let refusal :=
    Errorf "failed to create symlink: %w"
      [ArgE (Errorf "refusing to remove %s: not a symlink" [ArgS "CLAUDE.md"])] in
  isValidTarget "claude" = true
  ∧ fs Sample.with_user_files !! ".viberules/rules.md" = Some (NFile "# rules")
  ∧ first.1 = Err refusal
  ∧ second.1 = Err refusal
  ∧ (IsSymlinkValid "CLAUDE.md" ".viberules/rules.md" second.2).1 = Ok false
  ∧ fs second.2 !! "CLAUDE.md" = Some (NFile "my notes").
Proof. repeat split; vm_compute; reflexivity. Qed.

(** ** From a fresh directory *)

(** [init] in a directory the tool never saw: the four links are made and
    valid, the config lists the four targets in local mode, and .gitignore
    holds the local-mode section, which ignores the whole of .viberules/. *)
Example init_in_fresh_directory :
  let done := initProject (codec := BlockYaml.codec) false Sample.fresh in
  done.1 = Ok ()
  ∧ map (λ t, map (λ l, (IsSymlinkValid (Target l) (Source l) done.2).1) (Links t))
      GetAllTargets
    = [[Ok true]; [Ok true]; [Ok true]; [Ok true]]
  ∧ (loadConfig (codec := BlockYaml.codec) done.2).1
    = Ok (mkConfig "local" ["claude"; "amazonq"; "gemini"; "codex"])
  ∧ fs done.2 !! ".gitignore" = Some (NFile (viberulesSection "local"))
  ∧ Strings.Contains (viberulesSection "local")
      (String newline (".viberules/" +:+ String newline "")) = true.
Proof. repeat split; vm_compute; reflexivity. Qed.

(** Removing amazonq afterwards takes its link and its entry in the config
    away; adding it again brings both back. *)
Example remove_then_add_amazonq :
  let done := initProject (codec := BlockYaml.codec) false Sample.fresh in
  let removed := removeTarget (codec := BlockYaml.codec) "amazonq" done.2 in
  let added := addTarget (codec := BlockYaml.codec) "amazonq" removed.2 in
  removed.1 = Ok ()
  ∧ entry_at removed.2 ".amazonq/rules/AMAZONQ.md" = None
  ∧ (loadEnabledTargets (codec := BlockYaml.codec) removed.2).1
    = Ok ["claude"; "gemini"; "codex"]
  ∧ added.1 = Ok ()
  ∧ (IsSymlinkValid ".amazonq/rules/AMAZONQ.md" "../../.viberules/rules.md" added.2).1
    = Ok true
  ∧ (loadEnabledTargets (codec := BlockYaml.codec) added.2).1
    = Ok ["claude"; "gemini"; "codex"; "amazonq"].
Proof. repeat split; vm_compute; reflexivity. Qed.

(* ===================================================================== *)
(** * The link operations as a whole                                      *)
(* ===================================================================== *)

(** ** What the link operations leave alone *)

Lemma keeps_files_refl w : keeps_files w w.
Proof. by intros q n. Qed.

Lemma keeps_files_trans w1 w2 w3 :
  keeps_files w1 w2 → keeps_files w2 w3 → keeps_files w1 w3.
Proof. intros H12 H23 q n Hq Hn. apply H23; [|done]. by apply H12. Qed.

Section Steps.

Context (R : world → world → Prop).
Context (R_refl : ∀ w, R w w).
Context (R_trans : ∀ w1 w2 w3, R w1 w2 → R w2 w3 → R w1 w3).

Lemma steps_pure {A} (m : M A) : (∀ w, (m w).2 = w) → steps R m.
Proof. intros H w. by rewrite H. Qed.

Lemma steps_ret {A} (a : A) : steps R (ret a).
Proof. by apply steps_pure. Qed.

Lemma steps_fail {A} (e : error) : steps R (fail e : M A).
Proof. by apply steps_pure. Qed.

Lemma steps_bind {A B} (m : M A) (k : A → M B) :
  steps R m → (∀ a, steps R (k a)) → steps R (m ≫= k).
Proof.
  intros Hm Hk w. specialize (Hm w). run.
  destruct (m w) as [[a|e] w1]; [|done].
  eapply R_trans; [exact Hm | apply Hk].
Qed.

Lemma steps_on_error {A} (m : M A) wrap : steps R m → steps R (on_error m wrap).
Proof. intros Hm w. specialize (Hm w). unfold on_error. by destruct (m w) as [[a|e] w1]. Qed.

Lemma steps_try {A} (m : M A) : steps R m → steps R (try m).
Proof. intros Hm w. specialize (Hm w). unfold try. by destruct (m w) as [r w1]. Qed.

Lemma steps_for_each {A} (l : list A) body :
  (∀ x, steps R (body x)) → steps R (for_each l body).
Proof.
  intros Hb. induction l as [|x l IH]; cbn [for_each]; [apply steps_ret|].
  by apply steps_bind.
Qed.

Lemma steps_with_target targets name body :
  (∀ t, steps R (body t)) → steps R (with_target targets name body).
Proof.
  intros Hb. induction targets as [|t ts IH]; cbn [with_target]; [apply steps_fail|].
  by case_decide.
Qed.

Lemma steps_if {A} (b : bool) (m1 m2 : M A) :
  steps R m1 → steps R m2 → steps R (if b then m1 else m2).
Proof. by destruct b. Qed.

(** [os.MkdirAll] changes the tree through [os.Mkdir] only. *)
Lemma steps_os_MkdirAll path :
  (∀ name, steps R (os_Mkdir name)) → steps R (os_MkdirAll path).
Proof.
  intros HM. unfold os_MkdirAll. generalize (rev (Strings.Split path Filepath.sep)).
  intros relems. induction relems as [|e parent IH]; cbn [mkdirAll_rec].
  - apply steps_ret.
  - case_decide; [apply steps_ret|].
    apply steps_bind; [apply steps_try, steps_pure, os_Stat_world|].
    intros [dir|err].
    + destruct (IsDir dir); [apply steps_ret | apply steps_fail].
    + apply steps_bind; [exact IH|]. intros _.
      apply steps_bind; [apply steps_try, HM|].
      intros [[]|err']; [apply steps_ret|].
      apply steps_bind; [apply steps_try, steps_pure, os_Lstat_world|].
      intros [dir|?]; [destruct (IsDir dir)|];
        first [apply steps_ret | apply steps_fail].
Qed.

(** On the required directory [os.MkdirAll] changes the tree through
    [os.Mkdir] on .amazonq and on .amazonq/rules only. *)
Lemma steps_os_MkdirAll_required :
  steps R (os_Mkdir ".amazonq") → steps R (os_Mkdir ".amazonq/rules") →
  steps R (os_MkdirAll ".amazonq/rules").
Proof.
  intros H1 H2. unfold os_MkdirAll.
  change (rev (Strings.Split ".amazonq/rules" Filepath.sep)) with ["rules"; ".amazonq"].
  cbn [mkdirAll_rec].
  change (Strings.Join (rev ["rules"; ".amazonq"]) "/") with ".amazonq/rules".
  change (Strings.Join (rev [".amazonq"]) "/") with ".amazonq".
  rewrite !decide_False by done.
  assert (∀ name (HM : steps R (os_Mkdir name)),
            steps R (r ← try (os_Mkdir name);
                     match r with
                     | Ok _ => ret ()
                     | Err err =>
                         r1 ← try (os_Lstat name);
                         match r1 with
                         | Ok dir => if IsDir dir then ret () else fail err
                         | Err _ => fail err
                         end
                     end)) as Hmake.
  { intros name HM. apply steps_bind; [by apply steps_try|].
    intros [[]|err']; [apply steps_ret|].
    apply steps_bind; [apply steps_try, steps_pure, os_Lstat_world|].
    intros [dir|?]; [destruct (IsDir dir)|];
      first [apply steps_ret | apply steps_fail]. }
  apply steps_bind; [apply steps_try, steps_pure, os_Stat_world|].
  intros [dir|err]; [destruct (IsDir dir); [apply steps_ret | apply steps_fail]|].
  apply steps_bind; [|intros _; by apply Hmake].
  apply steps_bind; [apply steps_try, steps_pure, os_Stat_world|].
  intros [dir|err']; [destruct (IsDir dir); [apply steps_ret | apply steps_fail]|].
  apply steps_bind; [apply steps_ret|]. intros _. by apply Hmake.
Qed.

End Steps.

(** At a path that holds nothing [removeSymlink] changes nothing, whether
    the lookup reports a missing name or fails otherwise. *)
Lemma removeSymlink_absent_world p w :
  entry_at w p = None → (removeSymlink p w).2 = w.
Proof.
  unfold entry_at, removeSymlink, os_Lstat, lstat_node. run. intros ->.
  by destruct (absent_errno _ _).
Qed.

Lemma node_at_none m path : node_at m path = None → m !! path = None.
Proof.
  intros Hn. destruct (node_at_not_special _ _ _ Hn); [done|].
  by rewrite node_at_special in Hn.
Qed.

Lemma keeps_files_insert_new w q n ev :
  node_at (fs w) q = None → keeps_files w (emit ev (<[q := n]> (fs w)) w).
Proof.
  intros Hn%node_at_none p k Hp Hk. cbn [fs emit].
  rewrite lookup_insert_ne; [done|]. intros <-. congruence.
Qed.

Lemma keeps_files_os_Symlink old new : steps keeps_files (os_Symlink old new).
Proof.
  intros w. unfold os_Symlink.
  destruct (create_errno (fs w) new) eqn:Hc; [apply keeps_files_refl|].
  apply create_errno_None in Hc as [Hn _]. by apply keeps_files_insert_new.
Qed.

Lemma keeps_files_os_Mkdir name : steps keeps_files (os_Mkdir name).
Proof.
  intros w. unfold os_Mkdir.
  destruct (create_errno (fs w) name) eqn:Hc; [apply keeps_files_refl|].
  apply create_errno_None in Hc as [Hn _]. by apply keeps_files_insert_new.
Qed.

Lemma keeps_files_os_MkdirAll path : steps keeps_files (os_MkdirAll path).
Proof.
  apply (steps_os_MkdirAll keeps_files keeps_files_refl keeps_files_trans).
  apply keeps_files_os_Mkdir.
Qed.

Lemma removeSymlink_refuses path w n :
  entry_at w path = Some n → is_symlink n = false →
  removeSymlink path w
  = (Err (Errorf "refusing to remove %s: not a symlink" [ArgS (Filepath.Clean path)]), w).
Proof.
  unfold entry_at, removeSymlink, os_Lstat, lstat_node. run. intros -> Hn. cbn.
  by rewrite info_of_symlink, Hn.
Qed.

Lemma keeps_files_removeSymlink path : steps keeps_files (removeSymlink path).
Proof.
  intros w. destruct (entry_at w path) as [n|] eqn:Hn.
  - destruct (is_symlink n) eqn:Hs.
    + destruct n as [| |d]; try done. unfold entry_at in Hn.
      rewrite (removeSymlink_existing _ _ _ Hn). cbn [snd].
      intros q k Hq Hk. cbn [fs emit].
      rewrite lookup_delete_ne; [done|]. intros <-.
      destruct (node_at_not_special _ _ _ Hn); [done|].
      rewrite node_at_special in Hn by done. rewrite Hn in Hq. by injection Hq as <-.
    + rewrite (removeSymlink_refuses _ _ _ Hn Hs). apply keeps_files_refl.
  - rewrite removeSymlink_absent_world by done. apply keeps_files_refl.
Qed.

Lemma keeps_files_createSymlink source target :
  steps keeps_files (createSymlink source target).
Proof.
  unfold createSymlink.
  apply (steps_bind keeps_files keeps_files_trans); [apply keeps_files_removeSymlink|].
  intros _. apply (steps_bind keeps_files keeps_files_trans).
  - case_decide.
    + apply steps_on_error, keeps_files_os_MkdirAll.
    + apply steps_ret, keeps_files_refl.
  - intros _. apply steps_on_error, keeps_files_os_Symlink.
Qed.

Lemma keeps_files_mkdir_required : steps keeps_files mkdir_required.
Proof.
  apply (steps_for_each keeps_files keeps_files_refl keeps_files_trans).
  intros dir. apply steps_on_error, keeps_files_os_MkdirAll.
Qed.

Lemma keeps_files_create_links {A} (links : list SymlinkDef) (wrap : A) f :
  steps keeps_files
    (for_each links (λ link, on_error (createSymlink (Source link) (Target link)) (f wrap))).
Proof.
  apply (steps_for_each keeps_files keeps_files_refl keeps_files_trans).
  intros l. apply steps_on_error, keeps_files_createSymlink.
Qed.

Lemma keeps_files_remove_links {A} (links : list SymlinkDef) (wrap : A) f :
  steps keeps_files
    (for_each links (λ link, on_error (removeSymlink (Target link)) (f wrap))).
Proof.
  apply (steps_for_each keeps_files keeps_files_refl keeps_files_trans).
  intros l. apply steps_on_error, keeps_files_removeSymlink.
Qed.

Lemma keeps_files_CreateAllSymlinks : steps keeps_files CreateAllSymlinks.
Proof.
  apply (steps_bind keeps_files keeps_files_trans); [apply keeps_files_mkdir_required|].
  intros _. apply (steps_for_each keeps_files keeps_files_refl keeps_files_trans).
  intros t. apply (keeps_files_create_links _ t
    (λ t err, Errorf "failed to create symlink for %s: %w" [ArgS (Name t); ArgE err])).
Qed.

Lemma keeps_files_RemoveAllSymlinks : steps keeps_files RemoveAllSymlinks.
Proof.
  apply (steps_for_each keeps_files keeps_files_refl keeps_files_trans).
  intros t. apply (keeps_files_remove_links _ t
    (λ t err, Errorf "failed to remove symlink for %s: %w" [ArgS (Name t); ArgE err])).
Qed.

Lemma keeps_files_CreateTargetSymlinks X : steps keeps_files (CreateTargetSymlinks X).
Proof.
  apply steps_with_target; [apply keeps_files_refl|]. intros t.
  apply (steps_bind keeps_files keeps_files_trans); [apply keeps_files_mkdir_required|].
  intros _. apply (keeps_files_create_links _ ()
    (λ _ err, Errorf "failed to create symlink: %w" [ArgE err])).
Qed.

Lemma keeps_files_RemoveTargetSymlinks X : steps keeps_files (RemoveTargetSymlinks X).
Proof.
  apply steps_with_target; [apply keeps_files_refl|]. intros t.
  apply (keeps_files_remove_links _ ()
    (λ _ err, Errorf "failed to remove symlink: %w" [ArgE err])).
Qed.

(** X1. No operation of symlink.go deletes or overwrites a regular file or
    a directory: whatever [removeSymlink], [createSymlink],
    [CreateAllSymlinks], [RemoveAllSymlinks], [CreateTargetSymlinks] and
    [RemoveTargetSymlinks] are called with and whether they succeed or
    fail, every file and every directory of the tree is there afterwards
    with the content it had. *)
Theorem link_operations_keep_files_and_directories (w : world) (q : string) (n : node) :
  fs w !! q = Some n → is_symlink n = false →
  (∀ path, fs (removeSymlink path w).2 !! q = Some n)
  ∧ (∀ source target, fs (createSymlink source target w).2 !! q = Some n)
  ∧ fs (CreateAllSymlinks w).2 !! q = Some n
  ∧ fs (RemoveAllSymlinks w).2 !! q = Some n
  ∧ (∀ X, fs (CreateTargetSymlinks X w).2 !! q = Some n)
  ∧ (∀ X, fs (RemoveTargetSymlinks X w).2 !! q = Some n).
Proof.
  intros Hq Hn. repeat split; intros.
  - by apply keeps_files_removeSymlink.
  - by apply keeps_files_createSymlink.
  - by apply keeps_files_CreateAllSymlinks.
  - by apply keeps_files_RemoveAllSymlinks.
  - by apply keeps_files_CreateTargetSymlinks.
  - by apply keeps_files_RemoveTargetSymlinks.
Qed.

Lemma link_operations_keep_files_and_directories_witness :
  fs (removeSymlink "docs" Sample.with_user_files).2 !! "docs" = Some NDir
  ∧ fs (createSymlink ".viberules/rules.md" "CLAUDE.md" Sample.with_user_files).2
      !! "CLAUDE.md" = Some (NFile "my notes")
  ∧ fs (CreateAllSymlinks Sample.with_user_files).2 !! "CLAUDE.md" = Some (NFile "my notes")
  ∧ fs (RemoveAllSymlinks Sample.with_user_files).2 !! "CLAUDE.md" = Some (NFile "my notes").
Proof.
  pose proof (link_operations_keep_files_and_directories
                Sample.with_user_files "docs" NDir eq_refl eq_refl) as (Hrm & _).
  pose proof (link_operations_keep_files_and_directories
                Sample.with_user_files "CLAUDE.md" (NFile "my notes") eq_refl eq_refl)
    as (_ & Hcr & Hall & Hrmall & _).
  split; [apply Hrm|]. split; [apply Hcr|]. split; [exact Hall | exact Hrmall].
Defined.

(** X2. A name that the registry does not hold makes both per-target
    operations fail with the not-found error before anything is done: no
    directory is made and no link is touched. *)
Theorem unknown_target_changes_nothing (X : string) (w : world) :
  (∀ t, t ∈ GetAllTargets → Name t ≠ X) →
  CreateTargetSymlinks X w = (Err (Errorf "target %s not found" [ArgS X]), w)
  ∧ RemoveTargetSymlinks X w = (Err (Errorf "target %s not found" [ArgS X]), w).
Proof.
  intros HX. unfold CreateTargetSymlinks, RemoveTargetSymlinks.
  rewrite !with_target_find.
  destruct (find _ GetAllTargets) as [t|] eqn:Hf; [|done].
  apply find_some in Hf as [Hin Hname].
  apply bool_decide_eq_true in Hname. apply list_elem_of_In in Hin.
  by destruct (HX t Hin).
Qed.

Lemma unknown_target_changes_nothing_witness :
  CreateTargetSymlinks "cursor" Sample.fresh
  = (Err (Errorf "target %s not found" [ArgS "cursor"]), Sample.fresh)
  ∧ RemoveTargetSymlinks "cursor" Sample.fresh
    = (Err (Errorf "target %s not found" [ArgS "cursor"]), Sample.fresh).
Proof.
  apply (unknown_target_changes_nothing "cursor" Sample.fresh).
  intros t Ht. unfold GetAllTargets in Ht.
  repeat (apply elem_of_cons in Ht as [-> | Ht]; [discriminate|]).
  by apply elem_of_nil in Ht.
Defined.

(** A link in the place of the new one is replaced, whatever it led to. *)
Lemma createSymlink_replaces source target w d :
  let s := Filepath.Clean source in
  let t := Filepath.Clean target in
  node_at (fs w) t = Some (NSymlink d) →
  node_at (fs w) (Filepath.Dir t) = Some NDir →
  createSymlink source target w
  = (Ok (), mkWorld (<[t := NSymlink s]> (fs w))
              (trace w ++ [EvRemove t; EvSymlink s t])).
Proof.
  intros s t Hlink Hdir. pose proof (Clean_idemp target) as Hclean.
  unfold createSymlink. fold s t. fold t in Hclean.
  destruct (node_at_not_special _ _ _ Hlink) as [? ?]; [done|].
  assert (t ≠ Filepath.Dir t) as Hne by (intros Heq; rewrite <- Heq in Hdir; congruence).
  rewrite <- Hclean in Hlink.
  erewrite bind_run; [|by eapply removeSymlink_existing]. rewrite Hclean.
  set (w1 := emit (EvRemove t) (delete t (fs w)) w).
  assert (node_at (fs w1) (Filepath.Dir t) = Some NDir) as Hdir'
    by (cbn; by rewrite node_at_delete_ne).
  erewrite bind_run.
  2:{ case_decide; [|reflexivity]. by apply on_error_run, os_MkdirAll_exists. }
  apply on_error_run.
  unfold os_Symlink. rewrite create_errno_free; [| |done].
  2:{ cbn. rewrite node_at_special by done. apply lookup_delete_eq. }
  unfold emit. cbn. f_equal. f_equal.
  - by rewrite insert_delete_eq.
  - by rewrite <- app_assoc.
Qed.

(** X3. Neither [removeSymlink] nor [createSymlink] looks at where an
    existing link leads.  A symbolic link at the path is deleted by
    [removeSymlink] whatever its destination (the rules file, another file,
    nothing at all), and the deletion of that one entry is the only change.
    [createSymlink] replaces such a link by the link asked for, in a
    directory that exists, and changes nothing else: a stale or a foreign
    link is overwritten. *)
Theorem links_are_removed_and_replaced (path dest : string) (w : world) :
  entry_at w path = Some (NSymlink dest) →
  (∃ w', removeSymlink path w = (Ok (), w')
         ∧ fs w' = delete (Filepath.Clean path) (fs w)
         ∧ trace w' = trace w ++ [EvRemove (Filepath.Clean path)])
  ∧ (∀ source,
       node_at (fs w) (Filepath.Dir (Filepath.Clean path)) = Some NDir →
       ∃ w', createSymlink source path w = (Ok (), w')
             ∧ fs w' = <[Filepath.Clean path := NSymlink (Filepath.Clean source)]> (fs w)).
Proof.
  intros Hn. split.
  - eexists. split; [by apply (removeSymlink_existing _ _ dest)|]. done.
  - intros source Hdir. eexists. split; [by apply (createSymlink_replaces _ _ _ dest)|].
    done.
Qed.

Lemma links_are_removed_and_replaced_witness :
  (∃ w', removeSymlink "./wrong" Sample.odd_links = (Ok (), w')
         ∧ fs w' = delete "wrong" (fs Sample.odd_links)
         ∧ trace w' = trace Sample.odd_links ++ [EvRemove "wrong"])
  ∧ ∃ w', createSymlink ".viberules/rules.md" "./wrong" Sample.odd_links = (Ok (), w')
          ∧ fs w' = <["wrong" := NSymlink ".viberules/rules.md"]> (fs Sample.odd_links).
Proof.
  destruct (links_are_removed_and_replaced "./wrong" "docs/index.md" Sample.odd_links
              eq_refl) as [Hrm Hcr].
  split; [exact Hrm | exact (Hcr ".viberules/rules.md" eq_refl)].
Defined.

(** ** The links of the registry, one by one *)

Lemma IsSymlinkValid_valid_in w l :
  IsSymlinkValid (Target l) (Source l) w = (Ok (valid_in w l), w).
Proof.
  unfold valid_in, IsSymlinkValid, os_Lstat, os_Readlink, os_Stat, lstat_node. run.
  destruct (node_at (fs w) (Filepath.Clean (Target l))) as [[c| |d]|] eqn:Hn;
    simpl; rewrite ?Hn; simpl; try done.
  case_bool_decide; simpl; [|done].
  by destruct (stat_node (fs w) (Filepath.Clean (Target l))).
Qed.

Lemma valid_in_true w l :
  valid_in w l = true ↔ IsSymlinkValid (Target l) (Source l) w = (Ok true, w).
Proof.
  rewrite IsSymlinkValid_valid_in. split; [by intros -> | by intros [= ->]].
Qed.

(** The names above a link path of the registry are the two required
    directories at most: when these are directories or absent, a link path
    that holds nothing is reported as missing. *)
Lemma absent_errno_registry t l w :
  t ∈ GetAllTargets → l ∈ Links t → plain_parents w →
  absent_errno (fs w) (Target l) = ENOENT.
Proof.
  intros Ht Hl Hp. unfold GetAllTargets in Ht.
  rewrite !elem_of_cons, elem_of_nil in Ht.
  destruct Ht as [-> | [-> | [-> | [-> | []]]]];
    apply list_elem_of_singleton in Hl as ->; try reflexivity.
  unfold absent_errno.
  change (ancestors _) with ["."; ".amazonq"; ".amazonq/rules"].
  apply first_obstacle_free.
  apply Forall_cons_2; [by right|].
  apply Forall_cons_2; [apply Hp; in_list|].
  apply Forall_cons_2; [apply Hp; in_list | apply Forall_nil_2].
Qed.

(** A link of the registry in a tree that has the required directory:
    a link in its place is replaced, a free place is taken when the lookup
    reports it as missing, anything else is refused. *)
Lemma createSymlink_registry t l w :
  t ∈ GetAllTargets → l ∈ Links t →
  node_at (fs w) ".amazonq/rules" = Some NDir →
  createSymlink (Source l) (Target l) w
  = match node_at (fs w) (Target l) with
    | Some (NSymlink _) =>
        (Ok (), mkWorld (<[Target l := NSymlink (Source l)]> (fs w))
                  (trace w ++ [EvRemove (Target l); EvSymlink (Source l) (Target l)]))
    | Some _ =>
        (Err (Errorf "refusing to remove %s: not a symlink" [ArgS (Target l)]), w)
    | None =>
        match absent_errno (fs w) (Target l) with
        | ENOENT =>
            (Ok (), mkWorld (<[Target l := NSymlink (Source l)]> (fs w))
                      (trace w ++ [EvSymlink (Source l) (Target l)]))
        | e =>
            (Err (Errorf "failed to stat %s: %w"
                    [ArgS (Target l); ArgE (PathError "lstat" (Target l) e)]), w)
        end
    end.
Proof.
  intros Ht Hl Hdir.
  destruct (registry_links t Ht) as (l' & Hlinks & Hcs & Hct & Hnd & _ & _ & Hparent).
  rewrite Hlinks in Hl. apply list_elem_of_singleton in Hl as ->.
  unfold createSymlink. rewrite Hcs, Hct.
  assert (∀ w1, node_at (fs w1) ".amazonq/rules" = Some NDir →
            node_at (fs w1) (Target l') = None →
            ((_ ← (if decide (Filepath.Dir (Target l') ≠ ".")
                   then on_error (os_MkdirAll (Filepath.Dir (Target l')))
                          (λ err, Errorf "failed to create parent directory: %w" [ArgE err])
                   else ret ());
              on_error (os_Symlink (Source l') (Target l'))
                (λ err, Errorf "failed to create symlink %s -> %s: %w"
                          [ArgS (Target l'); ArgS (Source l'); ArgE err])) w1)
            = (Ok (), emit (EvSymlink (Source l') (Target l'))
                        (<[Target l' := NSymlink (Source l')]> (fs w1)) w1)) as Hmake.
  { intros w1 Hd1 Hn1.
    assert (node_at (fs w1) (Filepath.Dir (Target l')) = Some NDir) as Hp1
      by (by destruct Hparent as [-> | ->]).
    erewrite bind_run.
    2:{ case_decide; [|reflexivity]. by apply on_error_run, os_MkdirAll_exists. }
    apply on_error_run. unfold os_Symlink. by rewrite create_errno_free. }
  destruct (node_at (fs w) (Target l')) as [[c| |d]|] eqn:Hn.
  - erewrite bind_fail; [done|]. rewrite <- Hct at 2.
    apply (removeSymlink_refuses _ _ (NFile c)); [|done]. unfold entry_at. by rewrite Hct.
  - erewrite bind_fail; [done|]. rewrite <- Hct at 2.
    apply (removeSymlink_refuses _ _ NDir); [|done]. unfold entry_at. by rewrite Hct.
  - erewrite bind_run; [|apply (removeSymlink_existing _ _ d); by rewrite Hct].
    rewrite Hct. destruct (node_at_not_special _ _ _ Hn) as [? ?]; [done|].
    rewrite Hmake.
    + unfold emit. cbn [fs trace]. f_equal. f_equal.
      * by rewrite insert_delete_eq.
      * by rewrite <- app_assoc.
    + cbn [fs emit]. by rewrite node_at_delete_ne.
    + cbn [fs emit]. rewrite node_at_special by done. apply lookup_delete_eq.
  - destruct (absent_errno (fs w) (Target l')) eqn:He;
      try (erewrite bind_fail; [done|];
           unfold removeSymlink, os_Lstat, lstat_node; run;
           by rewrite Hct, Hn, He).
    erewrite bind_run; [|apply removeSymlink_absent; unfold entry_at; by rewrite Hct].
    by rewrite Hmake.
Qed.

Lemma same_outside_refl S w : same_outside S w w.
Proof. by intros q. Qed.

Lemma same_outside_trans S w1 w2 w3 :
  same_outside S w1 w2 → same_outside S w2 w3 → same_outside S w1 w3.
Proof. intros H12 H23 q Hq. by rewrite H23, H12. Qed.

Lemma same_outside_weaken S S' w w' :
  S ⊆ S' → same_outside S w w' → same_outside S' w w'.
Proof. intros Hsub H q Hq. apply H. intros Hin. by apply Hq, Hsub. Qed.

Lemma same_outside_removeSymlink path :
  steps (same_outside [Filepath.Clean path]) (removeSymlink path).
Proof.
  intros w. destruct (removeSymlink path w) as [[[]|e] w'] eqn:Hr.
  - apply removeSymlink_ok in Hr as (Hfs & _ & _). intros q Hq. cbn [snd].
    rewrite Hfs, lookup_delete_ne; [done|]. intros <-. apply Hq, list_elem_of_here.
  - apply removeSymlink_err in Hr as ->. apply same_outside_refl.
Qed.

Lemma same_outside_os_Mkdir S name :
  name ∈ S → steps (same_outside S) (os_Mkdir name).
Proof.
  intros Hin w q Hq. unfold os_Mkdir.
  destruct (create_errno (fs w) name); [done|].
  cbn [snd fs emit]. rewrite lookup_insert_ne; [done|]. by intros <-.
Qed.

Lemma same_outside_mkdir_required :
  steps (same_outside [".amazonq"; ".amazonq/rules"]) mkdir_required.
Proof.
  intros w. rewrite mkdir_required_eq. revert w.
  apply steps_on_error.
  apply (steps_os_MkdirAll_required _ (same_outside_refl _) (same_outside_trans _));
    apply same_outside_os_Mkdir; in_list.
Qed.

Lemma same_outside_createSymlink_registry t l w :
  t ∈ GetAllTargets → l ∈ Links t →
  node_at (fs w) ".amazonq/rules" = Some NDir →
  same_outside [Target l] w (createSymlink (Source l) (Target l) w).2.
Proof.
  intros Ht Hl Hdir q Hq. rewrite (createSymlink_registry t) by done.
  assert (q ≠ Target l) as Hne by (intros ->; apply Hq, list_elem_of_here).
  destruct (node_at (fs w) (Target l)) as [[| |]|]; cbn [snd fs]; try done;
    [by rewrite lookup_insert_ne|].
  destruct (absent_errno (fs w) (Target l)); cbn [snd fs]; try done.
  by rewrite lookup_insert_ne.
Qed.

Lemma same_outside_os_Symlink S old new :
  new ∈ S → steps (same_outside S) (os_Symlink old new).
Proof.
  intros Hin w q Hq. unfold os_Symlink.
  destruct (create_errno (fs w) new); [done|].
  cbn [snd fs emit]. rewrite lookup_insert_ne; [done|]. by intros <-.
Qed.

(** Whatever stands at the required directories, making a link of the
    registry changes its path and these directories at most. *)
Lemma same_outside_createSymlink_any t l :
  t ∈ GetAllTargets → l ∈ Links t →
  steps (same_outside [Target l; ".amazonq"; ".amazonq/rules"])
    (createSymlink (Source l) (Target l)).
Proof.
  intros Ht Hl.
  destruct (registry_links t Ht) as (l' & Hlinks & Hcs & Hct & _ & _ & _ & Hparent).
  rewrite Hlinks in Hl. apply list_elem_of_singleton in Hl as ->.
  unfold createSymlink. rewrite Hcs, Hct.
  set (S := [Target l'; ".amazonq"; ".amazonq/rules"]).
  apply (steps_bind _ (same_outside_trans S)).
  { intros w. eapply same_outside_weaken; [|apply same_outside_removeSymlink].
    rewrite Hct. intros x ->%list_elem_of_singleton. apply list_elem_of_here. }
  intros _. apply (steps_bind _ (same_outside_trans S)).
  - case_decide; [|apply (steps_ret _ (same_outside_refl S))].
    apply steps_on_error. destruct Hparent as [Hp | Hp]; [done|]. rewrite Hp.
    apply (steps_os_MkdirAll_required _ (same_outside_refl S) (same_outside_trans S));
      apply same_outside_os_Mkdir; in_list.
  - intros _. apply steps_on_error, same_outside_os_Symlink. in_list.
Qed.

(** X4. The per-target operations stay within their target:
    [RemoveTargetSymlinks X] changes nothing but the link paths of [X],
    and [CreateTargetSymlinks X] nothing but these and the directories
    .amazonq and .amazonq/rules, whether the call succeeds or fails.  The
    links of the other targets are as they were. *)
Theorem target_operations_touch_only_their_links (X : string) (w : world) (q : string) :
  (∀ t l, t ∈ GetAllTargets → Name t = X → l ∈ Links t → q ≠ Target l) →
  fs (RemoveTargetSymlinks X w).2 !! q = fs w !! q
  ∧ (q ≠ ".amazonq" → q ≠ ".amazonq/rules" →
     fs (CreateTargetSymlinks X w).2 !! q = fs w !! q).
Proof.
  intros Hq. unfold RemoveTargetSymlinks, CreateTargetSymlinks.
  rewrite !with_target_find.
  destruct (find _ GetAllTargets) as [t|] eqn:Hf; [|done].
  apply find_some in Hf as [Ht%list_elem_of_In Hname%bool_decide_eq_true].
  destruct (registry_links t Ht) as (l & Hlinks & Hcs & Hct & Hnd & _).
  assert (l ∈ Links t) as Hl by (rewrite Hlinks; apply list_elem_of_here).
  assert (q ∉ [Target l]) as Hql.
  { intros ->%list_elem_of_singleton. by apply (Hq t l). }
  rewrite Hlinks. cbn [for_each]. split.
  - pose proof (same_outside_removeSymlink (Target l) w) as Hrm.
    rewrite Hct in Hrm. specialize (Hrm q Hql). run.
    by destruct (removeSymlink (Target l) w) as [[[]|e] w1].
  - intros Hq1 Hq2.
    assert (q ∉ [".amazonq"; ".amazonq/rules"]) as Hqd.
    { intros [->|[->|?%elem_of_nil]%elem_of_cons]%elem_of_cons; done. }
    pose proof (same_outside_mkdir_required w q Hqd) as Hmk.
    destruct (mkdir_required w) as [[[]|e] w1] eqn:Hm.
    2:{ by rewrite (bind_fail _ _ _ _ _ Hm). }
    rewrite (bind_run _ _ _ _ _ Hm).
    assert (q ∉ [Target l; ".amazonq"; ".amazonq/rules"]) as Hqa.
    { intros [->|Hin]%elem_of_cons; [by apply Hql, list_elem_of_here | done]. }
    pose proof (same_outside_createSymlink_any t l Ht Hl w1 q Hqa) as Hcr.
    cbn [snd] in Hmk. rewrite <- Hmk, <- Hcr. run.
    by destruct (createSymlink (Source l) (Target l) w1) as [[[]|e] w2].
Qed.

Lemma target_operations_touch_only_their_links_witness :
  fs (RemoveTargetSymlinks "claude" Sample.two_targets).2 !! "GEMINI.md"
  = Some (NSymlink ".viberules/rules.md")
  ∧ fs (CreateTargetSymlinks "amazonq" Sample.two_targets).2 !! "CLAUDE.md"
    = Some (NSymlink ".viberules/rules.md").
Proof.
  assert (∀ X, X ≠ "gemini" → ∀ t l, t ∈ GetAllTargets → Name t = X → l ∈ Links t →
            "GEMINI.md" ≠ Target l) as Hg.
  { intros X HX t l Ht Hn Hl. unfold GetAllTargets in Ht.
    repeat (apply elem_of_cons in Ht as [-> | Ht];
            [ first [ done | apply list_elem_of_singleton in Hl as ->; discriminate ] | ]).
    by apply elem_of_nil in Ht. }
  assert (∀ X, X ≠ "claude" → ∀ t l, t ∈ GetAllTargets → Name t = X → l ∈ Links t →
            "CLAUDE.md" ≠ Target l) as Hc.
  { intros X HX t l Ht Hn Hl. unfold GetAllTargets in Ht.
    repeat (apply elem_of_cons in Ht as [-> | Ht];
            [ first [ done | apply list_elem_of_singleton in Hl as ->; discriminate ] | ]).
    by apply elem_of_nil in Ht. }
  destruct (target_operations_touch_only_their_links "claude" Sample.two_targets "GEMINI.md"
              (Hg "claude" ltac:(done))) as [Hrm _].
  destruct (target_operations_touch_only_their_links "amazonq" Sample.two_targets "CLAUDE.md"
              (Hc "amazonq" ltac:(done))) as [_ Hcr].
  split; [exact Hrm | by apply Hcr].
Defined.

(** ** All links at once *)

Lemma check_links_run t links allValid missing w :
  for_state links (λ link '(allValid, missing),
      valid ← IsSymlinkValid (Target link) (Source link);
      if negb valid
      then ret (false, missing ++ [missing_entry t link])
      else ret (allValid, missing)) (allValid, missing) w
  = (Ok (allValid && forallb (valid_in w) links,
         missing ++ map (missing_entry t) (filter (λ l, valid_in w l = false) links)), w).
Proof.
  revert allValid missing. induction links as [|l links IH]; intros allValid missing;
    cbn [for_state forallb].
  - by rewrite filter_nil, app_nil_r, andb_true_r.
  - erewrite bind_run.
    2:{ erewrite bind_run; [|apply IsSymlinkValid_valid_in].
        instantiate (1 := w).
        instantiate (1 := if valid_in w l then (allValid, missing)
                          else (false, missing ++ [missing_entry t l])).
        by destruct (valid_in w l). }
    destruct (valid_in w l) eqn:Hv.
    + rewrite IH, filter_cons_False by (by rewrite Hv). done.
    + rewrite IH, filter_cons_True by done. cbn [map].
      by rewrite andb_false_r, <- app_assoc.
Qed.

Lemma check_targets_run targets allValid missing w :
  for_state targets (λ target,
      for_state (Links target) (λ link '(allValid, missing),
        valid ← IsSymlinkValid (Target link) (Source link);
        if negb valid
        then ret (false, missing ++ [missing_entry target link])
        else ret (allValid, missing))) (allValid, missing) w
  = (Ok (allValid && forallb (λ t, forallb (valid_in w) (Links t)) targets,
         missing ++ flat_map (λ t, map (missing_entry t)
                                     (filter (λ l, valid_in w l = false) (Links t)))
                      targets), w).
Proof.
  revert allValid missing. induction targets as [|t targets IH]; intros allValid missing;
    cbn [for_state forallb flat_map].
  - by rewrite app_nil_r, andb_true_r.
  - erewrite bind_run; [|apply check_links_run]. rewrite IH.
    by rewrite andb_assoc, app_assoc.
Qed.

Lemma forallb_links_valid w targets :
  forallb (λ t, forallb (valid_in w) (Links t)) targets = true
  ↔ ∀ t l, t ∈ targets → l ∈ Links t →
      IsSymlinkValid (Target l) (Source l) w = (Ok true, w).
Proof.
  rewrite forallb_forall. split.
  - intros H t l Ht Hl. apply list_elem_of_In in Ht, Hl.
    specialize (H t Ht). rewrite forallb_forall in H.
    apply valid_in_true. by apply H.
  - intros H t Ht. apply forallb_forall. intros l Hl.
    apply list_elem_of_In in Ht, Hl. apply valid_in_true. by apply (H t).
Qed.

Lemma missing_nil_valid w targets :
  flat_map (λ t, map (missing_entry t) (filter (λ l, valid_in w l = false) (Links t)))
    targets = []
  ↔ forallb (λ t, forallb (valid_in w) (Links t)) targets = true.
Proof.
  induction targets as [|t targets IH]; cbn [flat_map forallb]; [done|].
  rewrite andb_true_iff, <- IH. split.
  - intros [Ht Hts]%app_eq_nil. split; [|done].
    apply fmap_nil_inv in Ht. apply forallb_forall. intros l Hl%list_elem_of_In.
    destruct (valid_in w l) eqn:Hv; [done|].
    assert (l ∈ filter (λ l, valid_in w l = false) (Links t)) as Hin
      by (by apply list_elem_of_filter).
    rewrite Ht in Hin. by apply elem_of_nil in Hin.
  - intros [Ht ->]. rewrite app_nil_r.
    rewrite forallb_forall in Ht.
    induction (Links t) as [|l links IHl]; [done|].
    rewrite filter_cons_False.
    + apply IHl. intros x Hx. apply Ht. by right.
    + rewrite (Ht l); [done | by left].
Qed.

Lemma CheckAllSymlinks_eq w :
  CheckAllSymlinks w
  = (Ok (forallb (λ t, forallb (valid_in w) (Links t)) GetAllTargets,
         flat_map (λ t, map (missing_entry t)
                          (filter (λ l, valid_in w l = false) (Links t))) GetAllTargets), w).
Proof. apply check_targets_run. Qed.

(** X5. [CheckAllSymlinks] changes nothing and reports exactly the links
    for which [IsSymlinkValid] answers no: one entry [path (target)] per
    such link, in the order of the registry.  Its flag is true exactly when
    the list is empty, that is when every link of every target is valid. *)
Theorem CheckAllSymlinks_reports_invalid_links (w : world) :
  ∃ (allValid : bool) (missing : list string),
    CheckAllSymlinks w = (Ok (allValid, missing), w)
    ∧ missing
      = flat_map (λ t, map (missing_entry t)
                         (filter (λ l, valid_in w l = false) (Links t))) GetAllTargets
    ∧ (allValid = true ↔ missing = [])
    ∧ (allValid = true ↔
       ∀ t l, t ∈ GetAllTargets → l ∈ Links t →
         IsSymlinkValid (Target l) (Source l) w = (Ok true, w)).
Proof.
  eexists _, _. split; [apply CheckAllSymlinks_eq|].
  split; [done|]. split.
  - symmetry. apply missing_nil_valid.
  - apply forallb_links_valid.
Qed.

Lemma create_links_ok links wrap w w' :
  for_each links (λ link, on_error (createSymlink (Source link) (Target link)) (wrap link)) w
  = (Ok (), w') →
  NoDup (map (λ l, Filepath.Clean (Target l)) links) →
  (∀ l, l ∈ links →
     node_at (fs w') (Filepath.Clean (Target l)) = Some (NSymlink (Filepath.Clean (Source l))))
  ∧ (∀ q, q ∉ map (λ l, Filepath.Clean (Target l)) links →
       fs w' !! q = fs w !! q ∨ (fs w !! q = None ∧ fs w' !! q = Some NDir)).
Proof.
  revert w. induction links as [|l links IH]; intros w; cbn [for_each].
  - intros [= <-] _. split; [by intros ? ?%elem_of_nil | by left].
  - intros ([] & w1 & Hcr%on_error_ok & Hrest)%bind_ok Hnd.
    cbn [map] in Hnd. apply NoDup_cons in Hnd as [Hnin Hnd].
    destruct (IH _ Hrest Hnd) as [IH1 IH2].
    apply createSymlink_ok in Hcr as (Hlink & _ & Hother).
    split.
    + intros l' [-> | Hl']%elem_of_cons; [|by apply IH1].
      destruct (node_at_not_special _ _ _ Hlink) as [? ?]; [done|].
      rewrite node_at_special in * by done.
      destruct (IH2 _ Hnin) as [-> | [? _]]; [done | congruence].
    + intros q Hq. cbn [map] in Hq. apply not_elem_of_cons in Hq as [Hq1 Hq2].
      destruct (IH2 q Hq2) as [-> | [Hn1 ->]].
      * by apply Hother.
      * destruct (Hother q Hq1) as [Heq | [_ Hd]]; [|congruence].
        right. by rewrite <- Heq.
Qed.

Lemma create_targets_ok targets wrap w w' :
  for_each targets (λ target,
    for_each (Links target) (λ link,
      on_error (createSymlink (Source link) (Target link)) (wrap target))) w
  = (Ok (), w') →
  NoDup (link_paths targets) →
  (∀ t l, t ∈ targets → l ∈ Links t →
     node_at (fs w') (Filepath.Clean (Target l)) = Some (NSymlink (Filepath.Clean (Source l))))
  ∧ (∀ q, q ∉ link_paths targets →
       fs w' !! q = fs w !! q ∨ (fs w !! q = None ∧ fs w' !! q = Some NDir)).
Proof.
  revert w. induction targets as [|t targets IH]; intros w; cbn [for_each].
  - intros [= <-] _. split; [by intros ? ? ?%elem_of_nil | by left].
  - intros ([] & w1 & Hcr & Hrest)%bind_ok Hnd.
    unfold link_paths in Hnd. cbn [flat_map] in Hnd.
    apply NoDup_app in Hnd as (Hnd1 & Hdisj & Hnd2).
    destruct (IH _ Hrest Hnd2) as [IH1 IH2].
    apply (create_links_ok _ (λ _, wrap t)) in Hcr as [Hl1 Hl2]; [|done].
    split.
    + intros t' l [-> | Ht']%elem_of_cons Hl; [|by eapply IH1].
      assert (Filepath.Clean (Target l) ∈ map (λ l, Filepath.Clean (Target l)) (Links t))
        as Hin by (apply list_elem_of_fmap; eauto).
      specialize (Hl1 l Hl).
      destruct (node_at_not_special _ _ _ Hl1) as [? ?]; [done|].
      rewrite node_at_special in * by done.
      destruct (IH2 _ (Hdisj _ Hin)) as [-> | [? _]]; [done | congruence].
    + intros q Hq. unfold link_paths in Hq. cbn [flat_map] in Hq.
      apply not_elem_of_app in Hq as [Hq1 Hq2].
      destruct (IH2 q Hq2) as [-> | [Hn1 ->]].
      * by apply Hl2.
      * destruct (Hl2 q Hq1) as [Heq | [_ Hd]]; [|congruence].
        right. by rewrite <- Heq.
Qed.

Lemma remove_targets_ok targets wrap w w' :
  for_each targets (λ target,
    for_each (Links target) (λ link,
      on_error (removeSymlink (Target link)) (wrap target))) w
  = (Ok (), w') →
  (∀ t l, t ∈ targets → l ∈ Links t → entry_at w' (Target l) = None)
  ∧ (∀ q, q ∉ link_paths targets → fs w' !! q = fs w !! q).
Proof.
  revert w. induction targets as [|t targets IH]; intros w; cbn [for_each].
  - intros [= <-]. split; [by intros ? ? ?%elem_of_nil | done].
  - intros ([] & w1 & Hrm & Hrest)%bind_ok.
    destruct (IH _ Hrest) as [IH1 IH2].
    apply (remove_links_ok _ (λ _, wrap t)) in Hrm as [Hl1 Hl2].
    split.
    + intros t' l [-> | Ht']%elem_of_cons Hl; [|by eapply IH1].
      destruct (decide (Filepath.Clean (Target l) ∈ link_paths targets)) as [Hin|Hnin].
      * unfold link_paths in Hin.
        apply list_elem_of_In, in_flat_map in Hin as (t'' & Ht'' & Hin).
        apply list_elem_of_In, list_elem_of_fmap in Hin as (l'' & Heq & Hl'').
        unfold entry_at. rewrite Heq. apply (IH1 t'' l''); [by apply list_elem_of_In | done].
      * specialize (Hl1 l Hl). unfold entry_at in *.
        destruct (node_at_not_special _ _ _ Hl1) as [? ?]; [done|].
        rewrite node_at_special in * by done. by rewrite IH2.
    + intros q Hq. unfold link_paths in Hq. cbn [flat_map] in Hq.
      apply not_elem_of_app in Hq as [Hq1 Hq2].
      by rewrite IH2, Hl2.
Qed.

Lemma link_paths_registry :
  link_paths GetAllTargets
  = ["CLAUDE.md"; ".amazonq/rules/AMAZONQ.md"; "GEMINI.md"; "AGENTS.md"].
Proof. reflexivity. Qed.

Lemma link_paths_NoDup : NoDup (link_paths GetAllTargets).
Proof. rewrite link_paths_registry. compute_done. Qed.

Lemma not_link_path q :
  (∀ t l, t ∈ GetAllTargets → l ∈ Links t → q ≠ Target l) → q ∉ link_paths GetAllTargets.
Proof.
  intros Hq Hin. unfold link_paths in Hin.
  apply list_elem_of_In, in_flat_map in Hin as (t & Ht%list_elem_of_In & Hin).
  apply list_elem_of_In, list_elem_of_fmap in Hin as (l & -> & Hl).
  destruct (registry_links t Ht) as (l' & Hlinks & _ & Hct & _).
  rewrite Hlinks in Hl. apply list_elem_of_singleton in Hl as ->.
  apply (Hq t l'); [done | by rewrite Hlinks; left | done].
Qed.

(** After the links were made, every one of them is valid as long as the
    rules file is in place. *)
Lemma links_valid_after t l w n :
  t ∈ GetAllTargets → l ∈ Links t →
  node_at (fs w) (Filepath.Clean (Target l)) = Some (NSymlink (Filepath.Clean (Source l))) →
  fs w !! ".viberules/rules.md" = Some n → is_symlink n = false →
  IsSymlinkValid (Target l) (Source l) w = (Ok true, w).
Proof.
  intros Ht Hl Hlink Hrules Hn.
  destruct (registry_links t Ht) as (l' & Hlinks & Hcs & Hct & _ & _ & Hdest & _).
  rewrite Hlinks in Hl. apply list_elem_of_singleton in Hl as ->.
  rewrite Hcs, Hct in Hlink.
  apply (IsSymlinkValid_true _ _ _ (Source l')).
  - unfold entry_at. by rewrite Hct.
  - done.
  - unfold reachable. rewrite Hct.
    erewrite stat_node_link; [done | exact Hlink | apply Hdest | exact Hrules | done].
Qed.

(** X6. When [CreateAllSymlinks] succeeds in a project whose rules file
    (or directory) is in place, the directories above the nested link being
    directories or absent, [CheckAllSymlinks] finds every link valid: it
    returns true and an empty list. *)
Theorem CreateAllSymlinks_then_check (w w' : world) (n : node) :
  plain_parents w →
  CreateAllSymlinks w = (Ok (), w') →
  fs w !! ".viberules/rules.md" = Some n → is_symlink n = false →
  CheckAllSymlinks w' = (Ok (true, []), w').
Proof.
  intros _ ([] & w1 & Hmk & Hcr)%bind_ok Hrules Hn.
  apply mkdir_required_ok in Hmk as [Hadd _].
  apply create_targets_ok in Hcr as [Hlinks Hother]; [|apply link_paths_NoDup].
  assert (fs w' !! ".viberules/rules.md" = Some n) as Hrules'.
  { pose proof (dirs_added_keeps _ _ _ _ Hadd Hrules) as Hr1.
    destruct (Hother ".viberules/rules.md") as [-> | [? _]]; [|done|congruence].
    rewrite link_paths_registry. compute_done. }
  rewrite CheckAllSymlinks_eq.
  assert (forallb (λ t, forallb (valid_in w') (Links t)) GetAllTargets = true) as Hall.
  { apply forallb_links_valid. intros t l Ht Hl.
    apply (links_valid_after t l w' n); [done | done | by apply (Hlinks t) | done | done]. }
  rewrite Hall. by apply missing_nil_valid in Hall as ->.
Qed.

Lemma CreateAllSymlinks_then_check_witness :
  let made := CreateAllSymlinks Sample.initialised in
  made.1 = Ok () ∧ CheckAllSymlinks made.2 = (Ok (true, []), made.2).
Proof.
  split; [reflexivity|].
  apply (CreateAllSymlinks_then_check Sample.initialised _ (NFile "# rules"));
    [|reflexivity..].
  intros p Hp. rewrite !elem_of_cons, elem_of_nil in Hp.
  destruct Hp as [-> | [-> | []]]; by left.
Defined.

Lemma node_at_delete_some m k p n : node_at (delete k m) p = Some n → node_at m p = Some n.
Proof.
  unfold node_at. repeat case_decide; try done.
  destruct (decide (p = k)) as [->|]; [by rewrite lookup_delete_eq|].
  by rewrite lookup_delete_ne.
Qed.

Lemma node_at_same m m' p : m' !! p = m !! p → node_at m' p = node_at m p.
Proof. unfold node_at. intros ->. done. Qed.

(** Removing a link keeps the required directories as they are. *)
Lemma plain_parents_delete w w1 k :
  plain_parents w → fs w1 = delete k (fs w) → plain_parents w1.
Proof.
  intros Hp Hfs p Hin. rewrite Hfs.
  destruct (Hp p Hin) as [Hn | Hn].
  - left. destruct (node_at_not_special _ _ _ Hn) as [? ?]; [done|].
    rewrite node_at_special in * by done.
    destruct (decide (p = k)) as [->|]; [apply lookup_delete_eq|].
    by rewrite lookup_delete_ne.
  - destruct (node_at (delete k (fs w)) p) as [n|] eqn:Hd; [|by left].
    right. apply node_at_delete_some in Hd. congruence.
Qed.

(** The loop that removes links goes through only when none of the places
    holds a file or a directory. *)
Lemma remove_links_only_links links wrap w w' :
  for_each links (λ link, on_error (removeSymlink (Target link)) (wrap link)) w = (Ok (), w') →
  ∀ l n, l ∈ links → entry_at w (Target l) = Some n → is_symlink n = true.
Proof.
  revert w. induction links as [|l links IH]; intros w; cbn [for_each].
  - by intros _ ? ? ?%elem_of_nil.
  - intros ([] & w1 & Hrm%on_error_ok & Hrest)%bind_ok l' n Hl' Hn.
    destruct (is_symlink n) eqn:Hs; [done|].
    assert (entry_at w (Target l) = Some n → False) as Hhead.
    { intros Hl. by rewrite (removeSymlink_refuses _ _ _ Hl Hs) in Hrm. }
    apply elem_of_cons in Hl' as [-> | Hl']; [by destruct Hhead|].
    assert (entry_at w1 (Target l') = Some n) as Hn1.
    { apply removeSymlink_ok in Hrm as (Hfs & _ & _). unfold entry_at in *.
      rewrite Hfs. rewrite node_at_delete_ne; [done|].
      intros Heq. apply Hhead. by rewrite <- Heq. }
    assert (is_symlink n = true); [|congruence].
    eapply IH; [exact Hrest | exact Hl' | exact Hn1].
Qed.

(** It goes through for links of the registry when none of the places
    holds a file or a directory and the required directories are
    directories or absent. *)
Lemma remove_links_succeeds links wrap w :
  (∀ l, l ∈ links → ∃ t, t ∈ GetAllTargets ∧ l ∈ Links t) →
  plain_parents w →
  (∀ l n, l ∈ links → entry_at w (Target l) = Some n → is_symlink n = true) →
  ∃ w', for_each links (λ link, on_error (removeSymlink (Target link)) (wrap link)) w
        = (Ok (), w')
        ∧ plain_parents w'.
Proof.
  revert w. induction links as [|l links IH]; intros w Hreg Hp Hall; cbn [for_each].
  - by exists w.
  - assert (∃ w1, removeSymlink (Target l) w = (Ok (), w1)
                  ∧ plain_parents w1
                  ∧ ∀ p n, node_at (fs w1) p = Some n → node_at (fs w) p = Some n)
      as (w1 & Hrm & Hp1 & Hsub).
    { destruct (Hreg l ltac:(left)) as (t & Ht & Hl).
      destruct (registry_links t Ht) as (l' & Hlinks & _ & Hct & _).
      rewrite Hlinks in Hl. apply list_elem_of_singleton in Hl as ->.
      destruct (entry_at w (Target l')) as [n|] eqn:Hn.
      - pose proof (Hall l' n ltac:(left) Hn) as Hs. destruct n as [| |d]; try done.
        eexists. split; [by apply (removeSymlink_existing _ _ d)|].
        split; [by eapply plain_parents_delete|].
        intros p n. cbn [fs emit]. apply node_at_delete_some.
      - exists w. split; [|done]. apply removeSymlink_absent; [done|].
        rewrite Hct. apply (absent_errno_registry t); [done | | done].
        rewrite Hlinks. apply list_elem_of_here. }
    destruct (IH w1) as (w' & Hrest & Hp').
    { intros l' Hl'. apply Hreg. by right. }
    { done. }
    { intros l' n Hl' Hn. apply (Hall l' n); [by right|]. by apply Hsub. }
    exists w'. split; [|done]. erewrite bind_run; [exact Hrest|]. by apply on_error_run.
Qed.

Lemma remove_targets_only_links targets wrap w w' :
  for_each targets (λ target,
    for_each (Links target) (λ link,
      on_error (removeSymlink (Target link)) (wrap target))) w = (Ok (), w') →
  ∀ t l n, t ∈ targets → l ∈ Links t →
    entry_at w (Target l) = Some n → is_symlink n = true.
Proof.
  revert w. induction targets as [|t targets IH]; intros w; cbn [for_each].
  - by intros _ ? ? ? ?%elem_of_nil.
  - intros ([] & w1 & Hrm & Hrest)%bind_ok t' l n Ht' Hl Hn.
    pose proof (remove_links_only_links (Links t) (λ _, wrap t) w w1 Hrm) as Hhead.
    apply elem_of_cons in Ht' as [-> | Ht']; [by eapply Hhead|].
    destruct (is_symlink n) eqn:Hs; [done|].
    assert (entry_at w1 (Target l) = Some n) as Hn1.
    { apply (remove_links_ok _ (λ _, wrap t)) in Hrm as [_ Hsame].
      unfold entry_at in *. rewrite <- Hn. apply node_at_same, Hsame.
      intros (l' & Heq & Hl')%list_elem_of_fmap.
      assert (is_symlink n = true); [|congruence].
      apply (Hhead l' n Hl'). unfold entry_at. by rewrite <- Heq. }
    assert (is_symlink n = true); [|congruence].
    eapply IH; [exact Hrest | exact Ht' | exact Hl | exact Hn1].
Qed.

Lemma remove_targets_succeeds targets wrap w :
  (∀ t, t ∈ targets → t ∈ GetAllTargets) →
  plain_parents w →
  (∀ t l n, t ∈ targets → l ∈ Links t →
     entry_at w (Target l) = Some n → is_symlink n = true) →
  ∃ w', for_each targets (λ target,
          for_each (Links target) (λ link,
            on_error (removeSymlink (Target link)) (wrap target))) w = (Ok (), w').
Proof.
  revert w. induction targets as [|t targets IH]; intros w Hreg Hp Hall; cbn [for_each].
  - by exists w.
  - destruct (remove_links_succeeds (Links t) (λ _, wrap t) w) as (w1 & Hrm & Hp1).
    { intros l Hl. exists t. split; [apply Hreg; by left | done]. }
    { done. }
    { intros l n Hl. apply (Hall t); [by left | done]. }
    destruct (IH w1) as (w' & Hrest).
    { intros t' Ht'. apply Hreg. by right. }
    { done. }
    { intros t' l n Ht' Hl Hn. apply (Hall t' l n); [by right | done |].
      apply (remove_links_ok _ (λ _, wrap t)) in Hrm as [Hgone Hsame].
      unfold entry_at in *. rewrite <- Hn. symmetry. apply node_at_same, Hsame.
      intros (l' & Heq & Hl')%list_elem_of_fmap.
      specialize (Hgone l' Hl'). unfold entry_at in Hgone. rewrite <- Heq in Hgone.
      congruence. }
    exists w'. by erewrite bind_run.
Qed.

Lemma valid_in_absent w l : entry_at w (Target l) = None → valid_in w l = false.
Proof.
  unfold valid_in, entry_at, IsSymlinkValid, os_Lstat, lstat_node. run. by intros ->.
Qed.

Lemma all_missing w targets :
  (∀ t l, t ∈ targets → l ∈ Links t → valid_in w l = false) →
  flat_map (λ t, map (missing_entry t) (filter (λ l, valid_in w l = false) (Links t)))
    targets
  = flat_map (λ t, map (missing_entry t) (Links t)) targets.
Proof.
  induction targets as [|t targets IH]; intros Hall; cbn [flat_map]; [done|].
  rewrite IH by (intros t' l Ht'; apply Hall; by right). f_equal. f_equal.
  assert (∀ l, l ∈ Links t → valid_in w l = false) as Ht
    by (intros l; apply Hall; by left).
  induction (Links t) as [|l links IHl]; [done|].
  rewrite filter_cons_True by (apply Ht; by left).
  f_equal. apply IHl. intros l' Hl'. apply Ht. by right.
Qed.

(** X7. [RemoveAllSymlinks] removes links and nothing else.  It succeeds
    whenever no link path of the registry holds a regular file or a
    directory (the directories above the nested link being directories or
    absent), and only then.  When it succeeds every link path is free, no
    other path has changed (the directories made for the links stay), and
    [CheckAllSymlinks] reports all four links. *)
Theorem RemoveAllSymlinks_removes_links_only (w : world) :
  (plain_parents w → links_or_free w → ∃ w', RemoveAllSymlinks w = (Ok (), w'))
  ∧ ∀ w', RemoveAllSymlinks w = (Ok (), w') →
      links_or_free w
      ∧ (∀ t l, t ∈ GetAllTargets → l ∈ Links t → entry_at w' (Target l) = None)
      ∧ (∀ q, q ∉ link_paths GetAllTargets → fs w' !! q = fs w !! q)
      ∧ CheckAllSymlinks w'
        = (Ok (false, ["CLAUDE.md (claude)"; ".amazonq/rules/AMAZONQ.md (amazonq)";
                       "GEMINI.md (gemini)"; "AGENTS.md (codex)"]), w').
Proof.
  unfold links_or_free.
  split; [intros Hp Hfree; by apply remove_targets_succeeds|].
  intros w' Hrm. split.
  { by apply (remove_targets_only_links GetAllTargets
                (λ t err, Errorf "failed to remove symlink for %s: %w"
                            [ArgS (Name t); ArgE err]) w w'). }
  apply remove_targets_ok in Hrm as [Hgone Hsame].
  split; [done|]. split; [done|].
  rewrite CheckAllSymlinks_eq.
  assert (∀ t l, t ∈ GetAllTargets → l ∈ Links t → valid_in w' l = false) as Hinv
    by (intros t l Ht Hl; by apply valid_in_absent, (Hgone t)).
  rewrite (all_missing _ _ Hinv).
  destruct (forallb _ GetAllTargets) eqn:Hall; [|reflexivity].
  rewrite forallb_links_valid in Hall.
  specialize (Hall (mkTarget "claude" [mkSymlinkDef ".viberules/rules.md" "CLAUDE.md"])
                   (mkSymlinkDef ".viberules/rules.md" "CLAUDE.md")
                   ltac:(compute_done) ltac:(compute_done)).
  apply valid_in_true in Hall.
  rewrite (Hinv (mkTarget "claude" [mkSymlinkDef ".viberules/rules.md" "CLAUDE.md"]))
    in Hall; [done | compute_done | compute_done].
Qed.

Lemma plain_parents_two_targets : plain_parents Sample.two_targets.
Proof.
  intros p Hp. rewrite !elem_of_cons, elem_of_nil in Hp.
  destruct Hp as [-> | [-> | []]]; by left.
Qed.

Lemma links_or_free_two_targets : links_or_free Sample.two_targets.
Proof.
  intros t l n Ht Hl. unfold GetAllTargets in Ht.
  rewrite !elem_of_cons, elem_of_nil in Ht.
  destruct Ht as [-> | [-> | [-> | [-> | []]]]];
    apply list_elem_of_singleton in Hl as ->; by intros [= <-].
Qed.

Lemma RemoveAllSymlinks_removes_links_only_witness :
  let removed := RemoveAllSymlinks Sample.two_targets in
  (∃ w', RemoveAllSymlinks Sample.two_targets = (Ok (), w'))
  ∧ entry_at removed.2 "CLAUDE.md" = None
  ∧ fs removed.2 !! ".viberules/rules.md" = Some (NFile "# rules")
  ∧ CheckAllSymlinks removed.2
    = (Ok (false, ["CLAUDE.md (claude)"; ".amazonq/rules/AMAZONQ.md (amazonq)";
                   "GEMINI.md (gemini)"; "AGENTS.md (codex)"]), removed.2).
Proof.
  destruct (RemoveAllSymlinks_removes_links_only Sample.two_targets) as [Hrun Hpost].
  destruct (Hpost (RemoveAllSymlinks Sample.two_targets).2 eq_refl)
    as (_ & Hgone & Hsame & Hcheck).
  split; [exact (Hrun plain_parents_two_targets links_or_free_two_targets)|].
  split; [|split; [|exact Hcheck]].
  - apply (Hgone (mkTarget "claude" [mkSymlinkDef ".viberules/rules.md" "CLAUDE.md"])
                 (mkSymlinkDef ".viberules/rules.md" "CLAUDE.md")); compute_done.
  - rewrite Hsame; [reflexivity | compute_done].
Defined.

(** The loop that makes links goes through only when none of the places
    holds a file or a directory. *)
Lemma create_targets_only_links targets wrap w w' :
  for_each targets (λ target,
    for_each (Links target) (λ link,
      on_error (createSymlink (Source link) (Target link)) (wrap target))) w
  = (Ok (), w') →
  ∀ t l n, t ∈ targets → l ∈ Links t →
    entry_at w (Target l) = Some n → is_symlink n = true.
Proof.
  assert (∀ links wrap w w',
            for_each links (λ link,
              on_error (createSymlink (Source link) (Target link)) (wrap link)) w
            = (Ok (), w') →
            (∀ l n, l ∈ links → entry_at w (Target l) = Some n → is_symlink n = true)
            ∧ ∀ p n, node_at (fs w) p = Some n → is_symlink n = false →
                node_at (fs w') p = Some n) as Hlinks.
  { clear. intros links wrap. induction links as [|l links IH]; intros w w'; cbn [for_each].
    - intros [= <-]. split; [by intros ? ? ?%elem_of_nil | done].
    - intros ([] & w1 & Hcr%on_error_ok & Hrest)%bind_ok.
      destruct (IH _ _ Hrest) as [IH1 IH2].
      assert (∀ p n, node_at (fs w) p = Some n → is_symlink n = false →
                node_at (fs w1) p = Some n) as Hkeep.
      { intros p n Hp Hs.
        pose proof (keeps_files_createSymlink (Source l) (Target l) w) as Hk.
        rewrite Hcr in Hk. cbn [snd] in Hk.
        unfold node_at in *. repeat case_decide; try done. by apply Hk. }
      split.
      + intros l' n Hl' Hn. destruct (is_symlink n) eqn:Hs; [done|].
        apply elem_of_cons in Hl' as [-> | Hl'].
        * assert (entry_at w (Filepath.Clean (Target l)) = Some n) as Hn'
            by (unfold entry_at in *; by rewrite Clean_idemp).
          unfold createSymlink in Hcr.
          by rewrite (bind_fail _ _ _ _ _ (removeSymlink_refuses _ _ _ Hn' Hs)) in Hcr.
        * assert (is_symlink n = true); [|congruence].
          apply (IH1 l' n Hl'). unfold entry_at in *. by apply Hkeep.
      + intros p n Hp Hs. apply IH2; [|done]. by apply Hkeep. }
  revert w. induction targets as [|t targets IH]; intros w; cbn [for_each].
  - by intros _ ? ? ? ?%elem_of_nil.
  - intros ([] & w1 & Hcr & Hrest)%bind_ok t' l n Ht' Hl Hn.
    destruct (Hlinks _ (λ _, wrap t) _ _ Hcr) as [Hhead Hkeep].
    apply elem_of_cons in Ht' as [-> | Ht']; [by eapply Hhead|].
    destruct (is_symlink n) eqn:Hs; [done|].
    assert (is_symlink n = true); [|congruence].
    apply (IH _ Hrest t' l n Ht' Hl). unfold entry_at in *. by apply Hkeep.
Qed.

(** Making a link of the registry keeps the required directories as they
    are. *)
Lemma plain_parents_insert_link w t l d evs :
  t ∈ GetAllTargets → l ∈ Links t → plain_parents w →
  plain_parents (mkWorld (<[Target l := NSymlink d]> (fs w)) evs).
Proof.
  intros Ht Hl Hp p Hin. cbn [fs].
  assert (p ≠ Target l) as Hne.
  { intros ->. unfold GetAllTargets in Ht.
    rewrite !elem_of_cons, elem_of_nil in Ht.
    destruct Ht as [-> | [-> | [-> | [-> | []]]]];
      apply list_elem_of_singleton in Hl as ->; cbn in Hin;
      rewrite !elem_of_cons, elem_of_nil in Hin;
      destruct Hin as [? | [? | []]]; discriminate. }
  rewrite node_at_insert_ne by done. by apply Hp.
Qed.

(** The loop that makes the links of registry targets goes through when
    none of the places holds a file or a directory and the required
    directories are in place. *)
Lemma create_targets_succeeds targets wrap w :
  Forall (λ t, t ∈ GetAllTargets) targets →
  node_at (fs w) ".amazonq/rules" = Some NDir →
  plain_parents w →
  (∀ t l n, t ∈ targets → l ∈ Links t →
     node_at (fs w) (Target l) = Some n → is_symlink n = true) →
  ∃ w', for_each targets (λ target,
          for_each (Links target) (λ link,
            on_error (createSymlink (Source link) (Target link)) (wrap target))) w
        = (Ok (), w').
Proof.
  intros Hreg. revert w. induction Hreg as [|t targets Ht Hreg IH]; intros w Hdir Hp Hall;
    cbn [for_each].
  - by exists w.
  - destruct (registry_links t Ht) as (l & Hlinks & _ & _ & Hnd & _).
    assert (l ∈ Links t) as Hl by (rewrite Hlinks; apply list_elem_of_here).
    pose proof (createSymlink_registry t l w Ht Hl Hdir) as Hcr.
    rewrite (absent_errno_registry t l w Ht Hl Hp) in Hcr.
    rewrite Hlinks. cbn [for_each].
    set (made := <[Target l := NSymlink (Source l)]> (fs w)).
    assert (∀ evs,
              ∃ w', for_each targets (λ target,
                      for_each (Links target) (λ link,
                        on_error (createSymlink (Source link) (Target link)) (wrap target)))
                      (mkWorld made evs) = (Ok (), w')) as Hrest.
    { intros evs. apply IH.
      - cbn [fs]. unfold made. by rewrite node_at_insert_ne.
      - by apply (plain_parents_insert_link w t l).
      - intros t' l' n Ht' Hl' Hn. cbn [fs] in Hn. unfold made in Hn.
        destruct (decide (Target l' = Target l)) as [Heq|Hne].
        + rewrite Heq in Hn.
          destruct (decide (Target l = ".")) as [Hd|Hd];
            [rewrite Hd in Hn; injection Hn as <-;
             by apply (Hall t l NDir); [left | | rewrite Hd]|].
          destruct (decide (Target l = "/")) as [Hr|Hr];
            [rewrite Hr in Hn; injection Hn as <-;
             by apply (Hall t l NDir); [left | | rewrite Hr]|].
          rewrite node_at_special, lookup_insert_eq in Hn by done. by injection Hn as <-.
        + apply (Hall t' l' n); [by right | done |].
          by rewrite node_at_insert_ne in Hn. }
    destruct (node_at (fs w) (Target l)) as [[c| |d]|] eqn:Hn.
    + by specialize (Hall t l (NFile c) ltac:(left) Hl Hn).
    + by specialize (Hall t l NDir ltac:(left) Hl Hn).
    + destruct (Hrest (trace w ++ [EvRemove (Target l); EvSymlink (Source l) (Target l)]))
        as (w' & Hw').
      exists w'. rewrite <- Hw'.
      erewrite bind_run; [done|].
      erewrite bind_run; [done|]. by apply on_error_run.
    + destruct (Hrest (trace w ++ [EvSymlink (Source l) (Target l)])) as (w' & Hw').
      exists w'. rewrite <- Hw'.
      erewrite bind_run; [done|].
      erewrite bind_run; [done|]. by apply on_error_run.
Qed.

Lemma plain_parents_mkdir w :
  plain_parents w →
  ∃ w1, mkdir_required w = (Ok (), w1)
        ∧ node_at (fs w1) ".amazonq/rules" = Some NDir
        ∧ same_outside [".amazonq"; ".amazonq/rules"] w w1
        ∧ plain_parents w1.
Proof.
  intros Hp. destruct (mkdir_required_plain w Hp) as (w1 & Hm & _ & Hdir & Hp1).
  exists w1. split; [done|]. split; [done|]. split; [|done].
  pose proof (same_outside_mkdir_required w) as Hs. by rewrite Hm in Hs.
Qed.

Lemma registry_entry_at t l w :
  t ∈ GetAllTargets → l ∈ Links t → entry_at w (Target l) = node_at (fs w) (Target l).
Proof.
  intros Ht Hl. destruct (registry_links t Ht) as (l' & Hlinks & _ & Hct & _).
  rewrite Hlinks in Hl. apply list_elem_of_singleton in Hl as ->.
  unfold entry_at. by rewrite Hct.
Qed.

Lemma registry_link_path t l :
  t ∈ GetAllTargets → l ∈ Links t →
  Target l ∈ link_paths GetAllTargets ∧ Target l ∉ [".amazonq"; ".amazonq/rules"].
Proof.
  intros Ht Hl. unfold GetAllTargets in Ht.
  rewrite !elem_of_cons, elem_of_nil in Ht.
  destruct Ht as [-> | [-> | [-> | [-> | []]]]];
    apply list_elem_of_singleton in Hl as ->; split; compute_done.
Qed.

Lemma link_path_no_dir q :
  q ∈ link_paths GetAllTargets → q ∉ [".amazonq"; ".amazonq/rules"].
Proof.
  rewrite link_paths_registry, !elem_of_cons, elem_of_nil.
  intros [-> | [-> | [-> | [-> | []]]]]; compute_done.
Qed.

Lemma links_or_free_same w w1 :
  (∀ q, q ∈ link_paths GetAllTargets → fs w1 !! q = fs w !! q) →
  links_or_free w ↔
  ∀ t l n, t ∈ GetAllTargets → l ∈ Links t →
    node_at (fs w1) (Target l) = Some n → is_symlink n = true.
Proof.
  intros Hsame. unfold links_or_free.
  split; intros Hall t l n Ht Hl Hn; apply (Hall t l n Ht Hl).
  - rewrite (registry_entry_at t l) by done. rewrite <- Hn. symmetry.
    by apply node_at_same, Hsame, (registry_link_path t l).
  - rewrite (registry_entry_at t l) in Hn by done. rewrite <- Hn.
    by apply node_at_same, Hsame, (registry_link_path t l).
Qed.

(** A round over the whole registry that goes through has made the nested
    link, so the directory of that link is in place. *)
Lemma create_all_rules_dir wrap w w' :
  for_each GetAllTargets (λ target,
    for_each (Links target) (λ link,
      on_error (createSymlink (Source link) (Target link)) (wrap target))) w
  = (Ok (), w') →
  node_at (fs w') ".amazonq/rules" = Some NDir.
Proof.
  unfold GetAllTargets. cbn [for_each Links].
  intros ([] & w1 & _ & H)%bind_ok.
  apply bind_ok in H as ([] & w2 & H2 & H).
  apply bind_ok in H2 as ([] & w2' & H2%on_error_ok & [= <-]).
  apply bind_ok in H as ([] & w3 & H3 & H).
  apply bind_ok in H3 as ([] & w3' & H3%on_error_ok & [= <-]).
  apply bind_ok in H as ([] & w4 & H4 & [= <-]).
  apply bind_ok in H4 as ([] & w4' & H4%on_error_ok & [= <-]).
  apply createSymlink_ok in H2 as (_ & Hdir & _).
  apply createSymlink_ok in H3 as (_ & _ & H3).
  apply createSymlink_ok in H4 as (_ & _ & H4).
  change (Filepath.Dir (Filepath.Clean (Target _))) with ".amazonq/rules" in Hdir.
  change (fs w2' !! ".amazonq/rules" = Some NDir) in Hdir.
  change (fs w4' !! ".amazonq/rules" = Some NDir).
  destruct (H3 ".amazonq/rules" ltac:(done)) as [E3 | [_ E3]];
    destruct (H4 ".amazonq/rules" ltac:(done)) as [E4 | [_ E4]]; congruence.
Qed.

(** What a successful [CreateAllSymlinks] leaves behind. *)
Lemma CreateAllSymlinks_post w w' :
  CreateAllSymlinks w = (Ok (), w') →
  node_at (fs w') ".amazonq/rules" = Some NDir
  ∧ (∀ q, q ∉ link_paths GetAllTargets →
       fs w' !! q = fs w !! q ∨ (fs w !! q = None ∧ fs w' !! q = Some NDir))
  ∧ (∀ t l, t ∈ GetAllTargets → l ∈ Links t →
       node_at (fs w') (Filepath.Clean (Target l))
       = Some (NSymlink (Filepath.Clean (Source l)))).
Proof.
  intros ([] & w1 & Hmk & Hcr)%bind_ok.
  apply mkdir_required_ok in Hmk as [Hadd _].
  pose proof (create_all_rules_dir _ _ _ Hcr) as Hdir.
  apply create_targets_ok in Hcr as [Hlinks Hother]; [|apply link_paths_NoDup].
  split; [| split; [|done]].
  - done.
  - intros q Hq. destruct (Hother q Hq) as [-> | [Hn ->]].
    + apply Hadd.
    + right. split; [|done]. destruct (Hadd q) as [<- | [? ?]]; [done | congruence].
Qed.

Lemma CreateAllSymlinks_runs w :
  plain_parents w → links_or_free w → ∃ w', CreateAllSymlinks w = (Ok (), w').
Proof.
  intros (w1 & Hmk & Hdir & Hsame & Hp1)%plain_parents_mkdir Hfree.
  unfold CreateAllSymlinks. rewrite (bind_run _ _ _ _ _ Hmk).
  apply create_targets_succeeds; [by apply Forall_forall | done | done |].
  apply (links_or_free_same w w1); [|done].
  intros q Hq. by apply Hsame, link_path_no_dir.
Qed.

(** X8. [CreateAllSymlinks] succeeds whenever no link path of the registry
    holds a regular file or a directory (the directories above the nested
    link being directories or absent), and it cannot succeed when one
    does.  When it succeeds the directory .amazonq/rules exists, and every
    path that is not a link path is as before or is a directory that was
    made. *)
Theorem CreateAllSymlinks_succeeds_unless_occupied (w : world) :
  (plain_parents w → links_or_free w → ∃ w', CreateAllSymlinks w = (Ok (), w'))
  ∧ ∀ w', CreateAllSymlinks w = (Ok (), w') →
      links_or_free w
      ∧ node_at (fs w') ".amazonq/rules" = Some NDir
      ∧ ∀ q, q ∉ link_paths GetAllTargets →
          fs w' !! q = fs w !! q ∨ (fs w !! q = None ∧ fs w' !! q = Some NDir).
Proof.
  assert (Forall (λ t, t ∈ GetAllTargets) GetAllTargets) as Hreg
    by (by apply Forall_forall).
  split; [apply CreateAllSymlinks_runs|].
  intros w' Hfull. pose proof Hfull as ([] & w1 & Hmk & Hcr)%bind_ok.
  pose proof (same_outside_mkdir_required w) as Hsame. rewrite Hmk in Hsame.
  cbn [snd] in Hsame.
  split; [| split].
  - apply (links_or_free_same w w1).
    + intros q Hq. by apply Hsame, link_path_no_dir.
    + intros t l n Ht Hl Hn.
      apply (create_targets_only_links GetAllTargets
               (λ t err, Errorf "failed to create symlink for %s: %w"
                           [ArgS (Name t); ArgE err]) w1 w' Hcr t l n Ht Hl).
      by rewrite (registry_entry_at t l).
  - by apply CreateAllSymlinks_post in Hfull as (? & _).
  - by apply CreateAllSymlinks_post in Hfull as (_ & ? & _).
Qed.

Lemma plain_parents_initialised : plain_parents Sample.initialised.
Proof.
  intros p Hp. rewrite !elem_of_cons, elem_of_nil in Hp.
  destruct Hp as [-> | [-> | []]]; by left.
Qed.

Lemma links_or_free_initialised : links_or_free Sample.initialised.
Proof.
  intros t l n Ht Hl. unfold GetAllTargets in Ht.
  rewrite !elem_of_cons, elem_of_nil in Ht.
  destruct Ht as [-> | [-> | [-> | [-> | []]]]];
    apply list_elem_of_singleton in Hl as ->; discriminate.
Qed.

Lemma CreateAllSymlinks_succeeds_unless_occupied_witness :
  (∃ w', CreateAllSymlinks Sample.initialised = (Ok (), w'))
  ∧ links_or_free Sample.initialised
  ∧ node_at (fs (CreateAllSymlinks Sample.initialised).2) ".amazonq/rules" = Some NDir
  ∧ is_ok (CreateAllSymlinks Sample.with_user_files).1 = false.
Proof.
  destruct (CreateAllSymlinks_succeeds_unless_occupied Sample.initialised) as [Hrun Hpost].
  destruct (Hpost (CreateAllSymlinks Sample.initialised).2 eq_refl) as (Hfree & Hdir & _).
  split; [exact (Hrun plain_parents_initialised links_or_free_initialised)|].
  split; [exact Hfree|]. split; [exact Hdir | reflexivity].
Defined.

(** Links that are all in place are all removed. *)
Lemma remove_links_all_links links wrap w :
  NoDup (map (λ l, Filepath.Clean (Target l)) links) →
  (∀ l, l ∈ links → ∃ d, entry_at w (Target l) = Some (NSymlink d)) →
  ∃ w', for_each links (λ link, on_error (removeSymlink (Target link)) (wrap link)) w
        = (Ok (), w').
Proof.
  revert w. induction links as [|l links IH]; intros w Hnd Hall; cbn [for_each].
  - by exists w.
  - cbn [map] in Hnd. apply NoDup_cons in Hnd as [Hnin Hnd].
    destruct (Hall l ltac:(left)) as [d Hd].
    pose proof (removeSymlink_existing _ _ _ Hd) as Hrm.
    destruct (IH (emit (EvRemove (Filepath.Clean (Target l)))
                    (delete (Filepath.Clean (Target l)) (fs w)) w) Hnd) as (w' & Hrest).
    { intros l' Hl'. destruct (Hall l' ltac:(by right)) as [d' Hd'].
      exists d'. unfold entry_at in *. cbn [fs emit].
      rewrite node_at_delete_ne; [done|].
      intros Heq. apply Hnin. rewrite <- Heq. apply list_elem_of_fmap. eauto. }
    exists w'. erewrite bind_run; [exact Hrest|]. by apply on_error_run.
Qed.

Lemma remove_targets_all_links targets wrap w :
  NoDup (link_paths targets) →
  (∀ t l, t ∈ targets → l ∈ Links t → ∃ d, entry_at w (Target l) = Some (NSymlink d)) →
  ∃ w', for_each targets (λ target,
          for_each (Links target) (λ link,
            on_error (removeSymlink (Target link)) (wrap target))) w = (Ok (), w').
Proof.
  revert w. induction targets as [|t targets IH]; intros w Hnd Hall; cbn [for_each].
  - by exists w.
  - unfold link_paths in Hnd. cbn [flat_map] in Hnd.
    apply NoDup_app in Hnd as (Hnd1 & Hdisj & Hnd2).
    destruct (remove_links_all_links (Links t) (λ _, wrap t) w Hnd1) as (w1 & Hrm).
    { intros l Hl. apply (Hall t); [by left | done]. }
    destruct (IH w1 Hnd2) as (w' & Hrest).
    { intros t' l Ht' Hl. destruct (Hall t' l ltac:(by right) Hl) as [d Hd].
      exists d. apply (remove_links_ok _ (λ _, wrap t)) in Hrm as [_ Hsame].
      unfold entry_at in *. rewrite <- Hd. apply node_at_same, Hsame.
      intros Hin. apply (Hdisj _ Hin). unfold link_paths.
      apply list_elem_of_In, in_flat_map. exists t'.
      split; [by apply list_elem_of_In|].
      apply list_elem_of_In, list_elem_of_fmap. eauto. }
    exists w'. by erewrite bind_run.
Qed.

(** X9. [RemoveAllSymlinks] undoes a successful [CreateAllSymlinks] up to
    the directories: it succeeds, every link path is free again, and every
    other path is as it was before the links were made or is a directory
    that was made for them; .amazonq/rules is not removed. *)
Theorem RemoveAllSymlinks_after_CreateAllSymlinks (w w1 : world) :
  CreateAllSymlinks w = (Ok (), w1) →
  ∃ w2, RemoveAllSymlinks w1 = (Ok (), w2)
        ∧ (∀ t l, t ∈ GetAllTargets → l ∈ Links t → entry_at w2 (Target l) = None)
        ∧ (∀ q, q ∉ link_paths GetAllTargets →
             fs w2 !! q = fs w !! q ∨ (fs w !! q = None ∧ fs w2 !! q = Some NDir))
        ∧ node_at (fs w2) ".amazonq/rules" = Some NDir.
Proof.
  intros Hcr.
  destruct (CreateAllSymlinks_post w w1 Hcr) as (Hdir & Hother & Hlinks).
  destruct (remove_targets_all_links GetAllTargets
              (λ t err, Errorf "failed to remove symlink for %s: %w"
                          [ArgS (Name t); ArgE err]) w1 link_paths_NoDup) as (w2 & Hrm).
  { intros t l Ht Hl. eexists. unfold entry_at. by rewrite (Hlinks t l Ht Hl). }
  exists w2. split; [exact Hrm|].
  apply remove_targets_ok in Hrm as [Hgone Hsame].
  split; [done|]. split.
  - intros q Hq. rewrite Hsame by done. by apply Hother.
  - rewrite <- Hdir. apply node_at_same, Hsame.
    rewrite link_paths_registry. compute_done.
Qed.

Lemma RemoveAllSymlinks_after_CreateAllSymlinks_witness :
  let made := CreateAllSymlinks Sample.initialised in
  ∃ w2, RemoveAllSymlinks made.2 = (Ok (), w2)
        ∧ entry_at w2 ".amazonq/rules/AMAZONQ.md" = None
        ∧ node_at (fs w2) ".amazonq/rules" = Some NDir
        ∧ fs Sample.initialised !! ".amazonq/rules" = None.
Proof.
  destruct (RemoveAllSymlinks_after_CreateAllSymlinks Sample.initialised
              (CreateAllSymlinks Sample.initialised).2 eq_refl)
    as (w2 & Hrm & Hgone & _ & Hdir).
  exists w2. split; [exact Hrm|]. split; [|split; [exact Hdir | reflexivity]].
  apply (Hgone (mkTarget "amazonq"
                  [mkSymlinkDef "../../.viberules/rules.md" ".amazonq/rules/AMAZONQ.md"])
               (mkSymlinkDef "../../.viberules/rules.md" ".amazonq/rules/AMAZONQ.md"));
    compute_done.
Defined.

(* ===================================================================== *)
(** * The config store and the commands                                   *)
(* ===================================================================== *)

Section Store.

Context {codec : YamlCodec}.

Lemma loadConfig_mode w config w' :
  loadConfig w = (Ok config, w') → Mode config = "local" ∨ Mode config = "public".
Proof.
  rewrite loadConfig_eq.
  destruct (stat_node (fs w) configPath) as [e|n]; [intros [= <- _]; by left|].
  destruct (_ <? _); [done|].
  destruct n as [content| |]; try done.
  destruct (yaml_Unmarshal content) as [c|]; [|done].
  case_bool_decide as H1; case_bool_decide as H2; cbn [andb].
  - intros [= <- _]. by left.
  - intros [= <- _]. right. by destruct (decide (Mode c = "public")).
  - intros [= <- _]. left. by destruct (decide (Mode c = "local")).
  - intros [= <- _]. left. by destruct (decide (Mode c = "local")).
Qed.

Lemma loadConfig_result w r w' : loadConfig w = (r, w') → w' = w.
Proof. intros H. pose proof (loadConfig_world w) as Hw. by rewrite H in Hw. Qed.

Lemma getProjectMode_eq w :
  getProjectMode w
  = (Ok (match (loadConfig w).1 with Ok config => Mode config | Err _ => "local" end), w).
Proof.
  unfold getProjectMode. run. pose proof (loadConfig_world w) as Hw.
  destruct (loadConfig w) as [[c|e] w1]; cbn in *; by subst.
Qed.

(** A config with a valid mode that the codec reads back and that fits the
    size bound is what the next load returns. *)
Lemma saveConfig_then_loadConfig config w w1 :
  Mode config = "local" ∨ Mode config = "public" →
  yaml_Unmarshal (yaml_Marshal config) = Some config →
  Z.of_nat (String.length (yaml_Marshal config)) ≤ maxConfigSize →
  saveConfig config w = (Ok (), w1) →
  loadConfig w1 = (Ok config, w1).
Proof.
  intros Hm Hrt Hsz Hsave%saveConfig_ok.
  rewrite loadConfig_eq, (stat_node_after_write _ _ _ _ Hsave).
  cbn [info_of fi_Size].
  destruct (Z.ltb_spec maxConfigSize
              (Z.of_nat (String.length (yaml_Marshal config)))); [lia|].
  rewrite Hrt. by destruct Hm as [-> | ->].
Qed.

(** X10. [getProjectMode] never fails and never changes anything, and the
    mode it reports is always local or public: local when the config
    cannot be loaded (too large, unreadable, not parsable) or names another
    mode, the stored mode otherwise. *)
Theorem getProjectMode_is_local_or_public (w : world) :
  ∃ mode, getProjectMode w = (Ok mode, w)
          ∧ (mode = "local" ∨ mode = "public")
          ∧ (∀ e, (loadConfig w).1 = Err e → mode = "local")
          ∧ (∀ config, (loadConfig w).1 = Ok config → mode = Mode config).
Proof.
  eexists. split; [apply getProjectMode_eq|].
  destruct (loadConfig w) as [[c|e] w1] eqn:Hload; cbn [fst].
  - split; [by eapply loadConfig_mode|]. split; [done|]. by intros ? [= ->].
  - split; [by left|]. split; [done | done].
Qed.

(** X11. A config store that cannot be loaded blocks every change to it:
    [removeTarget], [addTarget] (in an initialised project) and
    [setProjectMode] return the load error, wrapped by the first two, and
    leave the tree as it is, while [getProjectMode] answers local. *)
Theorem unloadable_config_blocks_changes (w : world) (e : error) :
  loadConfig w = (Err e, w) →
  (∀ X, isValidTarget X = true →
     removeTarget X w
     = (Err (Errorf "failed to load target settings: %w" [ArgE e]), w)
     ∧ (reachable (fs w) ".viberules/rules.md" = true →
        addTarget X w
        = (Err (Errorf "failed to load target settings: %w" [ArgE e]), w)))
  ∧ (∀ mode, mode = "public" ∨ mode = "local" → setProjectMode mode w = (Err e, w))
  ∧ (∀ targets, saveEnabledTargets targets w = (Err e, w))
  ∧ getProjectMode w = (Ok "local", w).
Proof.
  intros Hload. split; [| split; [| split]].
  - intros X HX. unfold removeTarget, addTarget. rewrite HX. cbn [negb].
    assert (on_error loadEnabledTargets
              (λ err, Errorf "failed to load target settings: %w" [ArgE err]) w
            = (Err (Errorf "failed to load target settings: %w" [ArgE e]), w)) as Hl.
    { apply (on_error_fail loadEnabledTargets
               (λ err, Errorf "failed to load target settings: %w" [ArgE err]) w e w).
      by rewrite loadEnabledTargets_eq, Hload. }
    split.
    + by rewrite (bind_fail _ _ _ _ _ Hl).
    + intros Hr. erewrite bind_run; [|apply fileExists_eq]. rewrite Hr. cbn [negb].
      by rewrite (bind_fail _ _ _ _ _ Hl).
  - intros mode Hmode. unfold setProjectMode.
    assert (bool_decide (mode ≠ "public") && bool_decide (mode ≠ "local") = false) as ->
      by (by destruct Hmode as [-> | ->]).
    by rewrite (bind_fail _ _ _ _ _ Hload).
  - intros targets. unfold saveEnabledTargets. by rewrite (bind_fail _ _ _ _ _ Hload).
  - by rewrite getProjectMode_eq, Hload.
Qed.

(** X12. The two setters of the config store change one field and keep the
    other.  [setProjectMode] refuses a mode other than public and local
    without touching anything; with a valid mode it saves the loaded
    targets under the new mode, and [saveEnabledTargets] saves the new
    targets under the loaded mode.  When the saved config is one the codec
    reads back and fits the size bound, the next load returns it. *)
Theorem config_setters_keep_the_other_field (w : world) :
  (∀ mode, mode ≠ "public" → mode ≠ "local" →
     setProjectMode mode w
     = (Err (Errorf "invalid mode: %s (must be 'public' or 'local')" [ArgS mode]), w))
  ∧ (∀ config mode w',
       loadConfig w = (Ok config, w) →
       mode = "public" ∨ mode = "local" →
       let config' := mkConfig mode (Targets config) in
       yaml_Unmarshal (yaml_Marshal config') = Some config' →
       Z.of_nat (String.length (yaml_Marshal config')) ≤ maxConfigSize →
       setProjectMode mode w = (Ok (), w') →
       loadConfig w' = (Ok config', w')
       ∧ getProjectMode w' = (Ok mode, w')
       ∧ loadEnabledTargets w' = (Ok (Targets config), w'))
  ∧ (∀ config targets w',
       loadConfig w = (Ok config, w) →
       let config' := mkConfig (Mode config) targets in
       yaml_Unmarshal (yaml_Marshal config') = Some config' →
       Z.of_nat (String.length (yaml_Marshal config')) ≤ maxConfigSize →
       saveEnabledTargets targets w = (Ok (), w') →
       loadConfig w' = (Ok config', w')
       ∧ getProjectMode w' = (Ok (Mode config), w')
       ∧ loadEnabledTargets w' = (Ok targets, w')).
Proof.
  split; [| split].
  - intros mode H1 H2. unfold setProjectMode.
    by rewrite !bool_decide_eq_true_2.
  - intros config mode w' Hload Hmode config' Hrt Hsz.
    unfold setProjectMode.
    assert (bool_decide (mode ≠ "public") && bool_decide (mode ≠ "local") = false) as ->
      by (by destruct Hmode as [-> | ->]).
    rewrite (bind_run _ _ _ _ _ Hload). fold config'. intros Hsave.
    assert (loadConfig w' = (Ok config', w')) as Hl.
    { apply (saveConfig_then_loadConfig config' w); [|done..].
      destruct Hmode as [-> | ->]; [by right | by left]. }
    split; [done|]. split.
    + by rewrite getProjectMode_eq, Hl.
    + by rewrite loadEnabledTargets_eq, Hl.
  - intros config targets w' Hload config' Hrt Hsz.
    unfold saveEnabledTargets. rewrite (bind_run _ _ _ _ _ Hload). fold config'.
    intros Hsave.
    assert (loadConfig w' = (Ok config', w')) as Hl.
    { apply (saveConfig_then_loadConfig config' w); [|done..].
      by apply (loadConfig_mode w config w). }
    split; [done|]. split.
    + by rewrite getProjectMode_eq, Hl.
    + by rewrite loadEnabledTargets_eq, Hl.
Qed.

End Store.

Lemma unloadable_config_blocks_changes_witness :
  removeTarget (codec := BlockYaml.codec) "claude" Sample.oversized
  = (Err (Errorf "failed to load target settings: %w"
            [ArgE (Errorf "config file too large: %d bytes (max %d)"
                     [ArgD 1048605; ArgD 1048576])]), Sample.oversized)
  ∧ setProjectMode (codec := BlockYaml.codec) "public" Sample.oversized
    = (Err (Errorf "config file too large: %d bytes (max %d)"
              [ArgD 1048605; ArgD 1048576]), Sample.oversized)
  ∧ getProjectMode (codec := BlockYaml.codec) Sample.oversized
    = (Ok "local", Sample.oversized).
Proof.
  destruct (unloadable_config_blocks_changes (codec := BlockYaml.codec) Sample.oversized
              (Errorf "config file too large: %d bytes (max %d)"
                 [ArgD 1048605; ArgD 1048576]))
    as (Htargets & Hmode & _ & Hget).
  { apply loadConfig_oversized. reflexivity. }
  destruct (Htargets "claude" eq_refl) as [Hrm _].
  split; [exact Hrm|]. split; [exact (Hmode "public" (or_introl eq_refl)) | exact Hget].
Defined.

Lemma config_setters_keep_the_other_field_witness :
  let set := setProjectMode (codec := BlockYaml.codec) "public" Sample.two_targets in
  let saved := saveEnabledTargets (codec := BlockYaml.codec) ["codex"] Sample.two_targets in
  setProjectMode (codec := BlockYaml.codec) "team" Sample.two_targets
  = (Err (Errorf "invalid mode: %s (must be 'public' or 'local')" [ArgS "team"]),
     Sample.two_targets)
  ∧ loadConfig (codec := BlockYaml.codec) set.2
    = (Ok (mkConfig "public" ["claude"; "gemini"]), set.2)
  ∧ loadConfig (codec := BlockYaml.codec) saved.2
    = (Ok (mkConfig "local" ["codex"]), saved.2).
Proof.
  destruct (config_setters_keep_the_other_field (codec := BlockYaml.codec)
              Sample.two_targets) as (Hbad & Hset & Hsave).
  split; [by apply Hbad|]. split.
  - apply (Hset (mkConfig "local" ["claude"; "gemini"]) "public"); try reflexivity.
    + by left.
    + vm_compute. discriminate.
  - apply (Hsave (mkConfig "local" ["claude"; "gemini"]) ["codex"]); try reflexivity.
    vm_compute. discriminate.
Defined.

(** ** Writes to plain files *)

Lemma os_WriteFile_plain name data w :
  name ≠ "." → name ≠ "/" →
  (∀ d, fs w !! name ≠ Some (NSymlink d)) →
  os_WriteFile name data w
  = match fs w !! name with
    | Some (NFile _) =>
        (Ok (), emit (EvWriteFile name data) (<[name := NFile data]> (fs w)) w)
    | Some _ => (Err (PathError "open" name EISDIR), w)
    | None =>
        match need_dir (fs w) (Filepath.Dir name) with
        | None =>
            (Ok (), emit (EvWriteFile name data) (<[name := NFile data]> (fs w)) w)
        | Some e => (Err (PathError "open" name e), w)
        end
    end.
Proof.
  intros H1 H2 Hplain. unfold os_WriteFile.
  rewrite follow_plain by (rewrite node_at_special by done; apply Hplain).
  unfold create_errno. rewrite node_at_special by done.
  by destruct (fs w !! name) as [[c| |d]|] eqn:Hn.
Qed.

Lemma stat_node_entry m path :
  path ≠ "." → path ≠ "/" →
  (∀ d, m !! path ≠ Some (NSymlink d)) →
  stat_node m path
  = match m !! path with Some n => inr n | None => inl (absent_errno m path) end.
Proof.
  intros H1 H2 Hplain. destruct (m !! path) as [n|] eqn:Hn.
  - apply stat_node_plain; [by rewrite node_at_special|].
    destruct n as [| |d]; try done. by destruct (Hplain d).
  - apply stat_node_absent. by rewrite node_at_special.
Qed.

Lemma registry_not_special t l :
  t ∈ GetAllTargets → l ∈ Links t → Target l ≠ "." ∧ Target l ≠ "/".
Proof.
  intros Ht Hl. unfold GetAllTargets in Ht.
  rewrite !elem_of_cons, elem_of_nil in Ht.
  destruct Ht as [-> | [-> | [-> | [-> | []]]]];
    apply list_elem_of_singleton in Hl as ->; by split.
Qed.

Section Commands.

Context {codec : YamlCodec}.


Lemma loadConfig_of_file config w :
  Mode config = "local" ∨ Mode config = "public" →
  yaml_Unmarshal (yaml_Marshal config) = Some config →
  Z.of_nat (String.length (yaml_Marshal config)) ≤ maxConfigSize →
  fs w !! configPath = Some (NFile (yaml_Marshal config)) →
  loadConfig w = (Ok config, w).
Proof.
  intros Hm Hrt Hsz Hfile. rewrite loadConfig_eq.
  rewrite (stat_node_plain _ _ (NFile (yaml_Marshal config))) by done.
  cbn [info_of fi_Size].
  destruct (Z.ltb_spec maxConfigSize
              (Z.of_nat (String.length (yaml_Marshal config)))); [lia|].
  rewrite Hrt. by destruct Hm as [-> | ->].
Qed.

Lemma saveConfig_plain config w w' :
  (∀ d, fs w !! configPath ≠ Some (NSymlink d)) →
  saveConfig config w = (Ok (), w') →
  w' = mkWorld (<[configPath := NFile (yaml_Marshal config)]> (fs w))
         (trace w ++ [EvWriteFile configPath (yaml_Marshal config)]).
Proof.
  intros Hplain (q & Hq & _ & ->)%saveConfig_ok%os_WriteFile_ok.
  rewrite follow_plain in Hq by (intros d; apply (Hplain d)). by simplify_eq.
Qed.

Lemma saveConfig_file config w content :
  fs w !! configPath = Some (NFile content) →
  saveConfig config w
  = (Ok (), mkWorld (<[configPath := NFile (yaml_Marshal config)]> (fs w))
              (trace w ++ [EvWriteFile configPath (yaml_Marshal config)])).
Proof.
  intros Hfile. unfold saveConfig. apply on_error_run.
  rewrite os_WriteFile_plain; [by rewrite Hfile | done | done |].
  intros d. by rewrite Hfile.
Qed.

(** What a successful [addTarget] of a target that was not enabled leaves
    behind. *)
Lemma addTarget_ok X w w' config rules :
  isValidTarget X = true →
  loadConfig w = (Ok config, w) →
  X ∉ Targets config →
  fs w !! ".viberules/rules.md" = Some rules → is_symlink rules = false →
  (∀ d, fs w !! configPath ≠ Some (NSymlink d)) →
  addTarget X w = (Ok (), w') →
  ∃ t l, find_target X = Some t ∧ t ∈ GetAllTargets ∧ Links t = [l]
         ∧ fs w' !! configPath
           = Some (NFile (yaml_Marshal (mkConfig (Mode config) (Targets config ++ [X]))))
         ∧ fs w' !! Target l = Some (NSymlink (Source l))
         ∧ fs w' !! ".viberules/rules.md" = Some rules
         ∧ ∀ q, q ≠ Target l → q ≠ configPath →
             fs w' !! q = fs w !! q ∨ (fs w !! q = None ∧ fs w' !! q = Some NDir).
Proof.
  intros HX Hload Hnin Hrules Hfile Hplain.
  unfold addTarget. rewrite HX. cbn [negb].
  erewrite bind_run; [|apply fileExists_eq].
  assert (reachable (fs w) ".viberules/rules.md" = true) as ->.
  { unfold reachable. by rewrite (stat_node_plain _ _ rules). }
  cbn [negb].
  erewrite bind_run.
  2:{ apply on_error_run. by rewrite loadEnabledTargets_eq, Hload. }
  rewrite bool_decide_eq_false_2 by done.
  intros ([] & ws & Hsave%on_error_ok & Hrest)%bind_ok.
  apply bind_ok in Hrest as ([] & wr & Hcr%on_error_ok & [= <-]).
  unfold saveEnabledTargets in Hsave. rewrite (bind_run _ _ _ _ _ Hload) in Hsave.
  apply saveConfig_plain in Hsave as ->; [|done].
  destruct (find_target_valid X HX) as (t & Hfind & Ht & Hname & Huniq).
  destruct (registry_links t Ht) as (l & Hlinks & Hcs & Hct & Hnd & Hnr & Hdest & _).
  assert (l ∈ Links t) as Hl by (rewrite Hlinks; apply list_elem_of_here).
  rewrite (CreateTargetSymlinks_eq X t l) in Hcr by done.
  apply bind_ok in Hcr as ([] & wa & Hmk & Hcr).
  apply bind_ok in Hcr as ([] & wb & Hcr%on_error_ok & [= <-]).
  apply mkdir_required_ok in Hmk as [Hadd _].
  apply createSymlink_ok in Hcr as (Hlink & _ & Hother).
  rewrite Hct in Hother. rewrite Hct, Hcs in Hlink.
  assert (Target l ≠ configPath) as Hnc.
  { intros Heq. apply (config_is_no_link t l Ht Hl). by rewrite Hct. }
  assert (∀ q n, q ≠ Target l →
            <[configPath := NFile (yaml_Marshal
                                     (mkConfig (Mode config) (Targets config ++ [X])))]>
              (fs w) !! q = Some n →
            fs wb !! q = Some n) as Hkeep.
  { intros q n Hq Hn. apply (dirs_added_keeps _ _ _ _ Hadd) in Hn.
    destruct (Hother q Hq) as [-> | [? _]]; [done | congruence]. }
  exists t, l. split; [done|]. split; [done|]. split; [done|]. split; [| split; [| split]].
  - apply Hkeep; [done | apply lookup_insert_eq].
  - destruct (node_at_not_special _ _ _ Hlink) as [? ?]; [done|].
    by rewrite node_at_special in Hlink.
  - apply Hkeep; [done|]. by rewrite lookup_insert_ne.
  - intros q Hq1 Hq2. destruct (Hother q Hq1) as [-> | [Hn ->]].
    + destruct (Hadd q) as [-> | [Hn Hd]].
      * left. cbn [fs]. by rewrite lookup_insert_ne.
      * right. cbn [fs] in Hn. by rewrite lookup_insert_ne in Hn.
    + right. split; [|done]. destruct (Hadd q) as [Heq | [Hn' ?]]; [|congruence].
      rewrite Heq in Hn. cbn [fs] in Hn. by rewrite lookup_insert_ne in Hn.
Qed.

(** X13. Adding a target that is not enabled, in an initialised project
    whose config store is not a symbolic link: when [addTarget] succeeds,
    the stored list is the old list with the target appended at its end,
    the mode is the one that was loaded, and every link of the target is
    valid.  (The saved config is one the codec reads back, within the size
    bound; the directories above the nested link are directories or
    absent.) *)
Theorem addTarget_appends_and_links (X : string) (w w' : world) (config : Config)
    (rules : node) :
  isValidTarget X = true →
  loadConfig w = (Ok config, w) →
  X ∉ Targets config →
  fs w !! ".viberules/rules.md" = Some rules → is_symlink rules = false →
  (∀ d, fs w !! configPath ≠ Some (NSymlink d)) →
  plain_parents w →
  let config' := mkConfig (Mode config) (Targets config ++ [X]) in
  yaml_Unmarshal (yaml_Marshal config') = Some config' →
  Z.of_nat (String.length (yaml_Marshal config')) ≤ maxConfigSize →
  addTarget X w = (Ok (), w') →
  loadConfig w' = (Ok config', w')
  ∧ ∀ t l, t ∈ GetAllTargets → Name t = X → l ∈ Links t →
      IsSymlinkValid (Target l) (Source l) w' = (Ok true, w').
Proof.
  intros HX Hload Hnin Hrules Hfile Hplain _ config' Hrt Hsz Hadd.
  destruct (addTarget_ok X w w' config rules) as
    (t & l & Hfind & Ht & Hlinks & Hcfg & Hlink & Hrules' & _); try done.
  destruct (find_target_valid X HX) as (t0 & Hfind0 & _ & _ & Huniq).
  rewrite Hfind in Hfind0. injection Hfind0 as <-.
  destruct (registry_links t Ht) as (l0 & Hlinks0 & Hcs & Hct & _).
  rewrite Hlinks in Hlinks0. injection Hlinks0 as <-.
  split.
  - apply loadConfig_of_file; [by apply (loadConfig_mode w config w) | done | done | done].
  - intros t' l' Ht' Hn' Hl'. rewrite (Huniq t' Ht' Hn'), Hlinks in Hl'.
    apply list_elem_of_singleton in Hl' as ->.
    apply (links_valid_after t l w' rules); [done | by rewrite Hlinks; left | | done | done].
    rewrite Hct, Hcs.
    destruct (registry_not_special t l Ht) as [? ?]; [by rewrite Hlinks; left|].
    by rewrite node_at_special.
Qed.

Lemma filter_undoes_append (X : string) (T : list string) :
  X ∉ T → filter (λ t, t ≠ X) (T ++ [X]) = T.
Proof.
  intros Hnin. rewrite filter_app, filter_cons_False, filter_nil, app_nil_r by (by intros ?).
  induction T as [|a T IH]; [done|].
  apply not_elem_of_cons in Hnin as [Hne Hnin].
  rewrite filter_cons_True by done. by rewrite IH.
Qed.

(** X14. [removeTarget] undoes [addTarget].  After a successful
    [addTarget X] of a target that was not enabled, [removeTarget X]
    succeeds; the stored list and mode are then the ones from before the
    two commands, the links of [X] are gone, and every path other than the
    config store and the link of [X] is as it was before or is a directory
    that was made for the links.  (Both saved configs are ones the codec
    reads back, within the size bound.) *)
Theorem removeTarget_undoes_addTarget (X : string) (w w1 : world) (config : Config)
    (rules : node) :
  isValidTarget X = true →
  loadConfig w = (Ok config, w) →
  X ∉ Targets config →
  fs w !! ".viberules/rules.md" = Some rules → is_symlink rules = false →
  (∀ d, fs w !! configPath ≠ Some (NSymlink d)) →
  let added := mkConfig (Mode config) (Targets config ++ [X]) in
  yaml_Unmarshal (yaml_Marshal added) = Some added →
  Z.of_nat (String.length (yaml_Marshal added)) ≤ maxConfigSize →
  yaml_Unmarshal (yaml_Marshal config) = Some config →
  Z.of_nat (String.length (yaml_Marshal config)) ≤ maxConfigSize →
  addTarget X w = (Ok (), w1) →
  ∃ w2, removeTarget X w1 = (Ok (), w2)
        ∧ loadConfig w2 = (Ok config, w2)
        ∧ (∀ t l, t ∈ GetAllTargets → Name t = X → l ∈ Links t →
             entry_at w2 (Target l) = None)
        ∧ ∀ q, q ≠ configPath →
            (∀ t l, t ∈ GetAllTargets → Name t = X → l ∈ Links t → q ≠ Target l) →
            fs w2 !! q = fs w !! q ∨ (fs w !! q = None ∧ fs w2 !! q = Some NDir).
Proof.
  intros HX Hload Hnin Hrules Hfile Hplain added Hrt Hsz Hrt0 Hsz0 Hadd.
  destruct (addTarget_ok X w w1 config rules) as
    (t & l & Hfind & Ht & Hlinks & Hcfg & Hlink & Hrules' & Hother); try done.
  destruct (find_target_valid X HX) as (t0 & Hfind0 & _ & Hname & Huniq).
  rewrite Hfind in Hfind0. injection Hfind0 as <-.
  destruct (registry_links t Ht) as (l0 & Hlinks0 & Hcs & Hct & _).
  rewrite Hlinks in Hlinks0. injection Hlinks0 as <-.
  assert (l ∈ Links t) as Hl by (rewrite Hlinks; apply list_elem_of_here).
  assert (Target l ≠ configPath) as Hnc.
  { intros Heq. apply (config_is_no_link t l Ht Hl). by rewrite Hct. }
  pose proof (loadConfig_mode w config w Hload) as Hmode.
  assert (loadConfig w1 = (Ok added, w1)) as Hload1
    by (by apply loadConfig_of_file).
  assert (config = mkConfig (Mode config) (Targets config)) as Heta by (by destruct config).
  set (ws := mkWorld (<[configPath := NFile (yaml_Marshal config)]> (fs w1))
               (trace w1 ++ [EvWriteFile configPath (yaml_Marshal config)])).
  set (w2 := emit (EvRemove (Target l)) (delete (Target l) (fs ws)) ws).
  exists w2. split; [| split; [| split]].
  - unfold removeTarget. rewrite HX. cbn [negb].
    erewrite bind_run.
    2:{ apply on_error_run. by rewrite loadEnabledTargets_eq, Hload1. }
    cbn [Targets added].
    rewrite bool_decide_eq_true_2 by (apply elem_of_app; right; apply list_elem_of_here).
    cbn [negb]. rewrite filter_undoes_append by done.
    erewrite bind_run.
    2:{ apply on_error_run. unfold saveEnabledTargets.
        rewrite (bind_run _ _ _ _ _ Hload1). cbn [Mode added]. rewrite <- Heta.
        by apply (saveConfig_file config w1 (yaml_Marshal added)). }
    fold ws. erewrite bind_run; [done|].
    apply on_error_run. unfold RemoveTargetSymlinks. rewrite with_target_find.
    fold (find_target X). rewrite Hfind, Hlinks. cbn [for_each].
    erewrite bind_run; [done|]. apply on_error_run.
    pose proof (removeSymlink_existing (Target l) ws (Source l)) as Hrm.
    rewrite Hct in Hrm. apply Hrm.
    destruct (registry_not_special t l Ht Hl) as [? ?].
    rewrite node_at_special by done. cbn [fs ws]. by rewrite lookup_insert_ne.
  - apply loadConfig_of_file; [done | done | done |].
    cbn [fs w2 emit ws]. rewrite lookup_delete_ne by done. apply lookup_insert_eq.
  - intros t' l' Ht' Hn' Hl'. rewrite (Huniq t' Ht' Hn'), Hlinks in Hl'.
    apply list_elem_of_singleton in Hl' as ->.
    unfold entry_at. rewrite Hct. destruct (registry_not_special t l Ht Hl) as [? ?].
    rewrite node_at_special by done. cbn [fs w2 emit]. apply lookup_delete_eq.
  - intros q Hq1 Hq2. assert (q ≠ Target l) as Hq3 by (by apply (Hq2 t l)).
    cbn [fs w2 emit ws]. rewrite lookup_delete_ne, lookup_insert_ne by done.
    by apply Hother.
Qed.

End Commands.

Lemma addTarget_appends_and_links_witness :
  let added := addTarget (codec := BlockYaml.codec) "amazonq" Sample.two_targets in
  added.1 = Ok ()
  ∧ loadConfig (codec := BlockYaml.codec) added.2
    = (Ok (mkConfig "local" ["claude"; "gemini"; "amazonq"]), added.2)
  ∧ IsSymlinkValid ".amazonq/rules/AMAZONQ.md" "../../.viberules/rules.md" added.2
    = (Ok true, added.2).
Proof.
  destruct (addTarget_appends_and_links (codec := BlockYaml.codec) "amazonq"
              Sample.two_targets
              (addTarget (codec := BlockYaml.codec) "amazonq" Sample.two_targets).2
              (mkConfig "local" ["claude"; "gemini"]) (NFile "# rules"))
    as [Hload Hvalid]; try reflexivity.
  - compute_done.
  - by intros d.
  - exact plain_parents_two_targets.
  - vm_compute. discriminate.
  - split; [reflexivity|]. split; [exact Hload|].
    apply (Hvalid (mkTarget "amazonq"
                     [mkSymlinkDef "../../.viberules/rules.md" ".amazonq/rules/AMAZONQ.md"])
                  (mkSymlinkDef "../../.viberules/rules.md" ".amazonq/rules/AMAZONQ.md"));
      [compute_done | reflexivity | compute_done].
Defined.

Lemma removeTarget_undoes_addTarget_witness :
  let added := addTarget (codec := BlockYaml.codec) "amazonq" Sample.two_targets in
  ∃ w2, removeTarget (codec := BlockYaml.codec) "amazonq" added.2 = (Ok (), w2)
        ∧ loadConfig (codec := BlockYaml.codec) w2
          = (Ok (mkConfig "local" ["claude"; "gemini"]), w2)
        ∧ entry_at w2 ".amazonq/rules/AMAZONQ.md" = None.
Proof.
  destruct (removeTarget_undoes_addTarget (codec := BlockYaml.codec) "amazonq"
              Sample.two_targets
              (addTarget (codec := BlockYaml.codec) "amazonq" Sample.two_targets).2
              (mkConfig "local" ["claude"; "gemini"]) (NFile "# rules"))
    as (w2 & Hrm & Hload & Hgone & _); try reflexivity.
  - compute_done.
  - by intros d.
  - vm_compute. discriminate.
  - vm_compute. discriminate.
  - exists w2. split; [exact Hrm|]. split; [exact Hload|].
    apply (Hgone (mkTarget "amazonq"
                    [mkSymlinkDef "../../.viberules/rules.md" ".amazonq/rules/AMAZONQ.md"])
                 (mkSymlinkDef "../../.viberules/rules.md" ".amazonq/rules/AMAZONQ.md"));
      [compute_done | reflexivity | compute_done].
Defined.

Lemma try_run {A} (m : M A) w r w1 : m w = (r, w1) → try m w = (Ok r, w1).
Proof. unfold try. by intros ->. Qed.

Section Modes.

Context {codec : YamlCodec}.

(** [addToGitignore] when .gitignore is a regular file or does not exist:
    the file is read, rewritten for the mode in force, and written. *)
Lemma addToGitignore_plain w :
  file_or_free w ".gitignore" →
  let mode := match (loadConfig w).1 with Ok config => Mode config | Err _ => "local" end in
  let text := gitignore_rewrite mode (text_at w ".gitignore") in
  addToGitignore w
  = (Ok (), emit (EvWriteFile ".gitignore" text) (<[".gitignore" := NFile text]> (fs w)) w).
Proof.
  intros Hfile mode text. unfold addToGitignore. cbv zeta.
  erewrite bind_run; [|apply getProjectMode_eq]. fold mode.
  erewrite bind_run; [|apply fileExists_eq].
  assert (∀ d, fs w !! ".gitignore" ≠ Some (NSymlink d)) as Hplain.
  { intros d. by destruct Hfile as [-> | [c ->]]. }
  unfold reachable. rewrite stat_node_entry by done.
  unfold text, text_at.
  destruct Hfile as [Hnone | [c Hc]].
  - rewrite Hnone. erewrite bind_run; [|reflexivity].
    apply on_error_run. rewrite os_WriteFile_plain by done. by rewrite Hnone.
  - rewrite Hc. erewrite bind_run.
    2:{ apply on_error_run. unfold os_ReadFile.
        by rewrite (stat_node_plain _ _ (NFile c)). }
    apply on_error_run. rewrite os_WriteFile_plain by done. by rewrite Hc.
Qed.

(** X15. [setModeCommand] needs an initialised project and a valid mode:
    without the rules file it fails with the not-found error, with a mode
    other than public and local it fails with the invalid-mode error, and
    in both cases nothing changes.  When it succeeds (the two stores
    being regular files or absent, the config store loading, and the
    config under the new mode being one the codec reads back, within the
    size bound), the stored mode is the new one, the stored targets are
    unchanged, .gitignore holds the rewrite of its old text for the new
    mode, and no other path has changed. *)
Theorem setModeCommand_sets_mode_and_section (mode : string) (w : world) :
  (reachable (fs w) ".viberules/rules.md" = false →
     setModeCommand mode w
     = (Err (Errorf ".viberules/rules.md not found. Run 'viberules init' first"
               (@nil fmt_arg)), w))
  ∧ (reachable (fs w) ".viberules/rules.md" = true →
     mode ≠ "public" → mode ≠ "local" →
     setModeCommand mode w
     = (Err (Errorf "invalid mode: %s (must be 'public' or 'local')" [ArgS mode]), w))
  ∧ (∀ config w',
       mode = "public" ∨ mode = "local" →
       loadConfig w = (Ok config, w) →
       file_or_free w ".gitignore" → file_or_free w configPath →
       let config' := mkConfig mode (Targets config) in
       yaml_Unmarshal (yaml_Marshal config') = Some config' →
       Z.of_nat (String.length (yaml_Marshal config')) ≤ maxConfigSize →
       setModeCommand mode w = (Ok (), w') →
       loadConfig w' = (Ok config', w')
       ∧ fs w' !! ".gitignore"
         = Some (NFile (gitignore_rewrite mode (text_at w ".gitignore")))
       ∧ ∀ q, q ≠ ".gitignore" → q ≠ configPath → fs w' !! q = fs w !! q).
Proof.
  unfold setModeCommand. split; [| split].
  - intros Hr. erewrite bind_run; [|apply fileExists_eq]. by rewrite Hr.
  - intros Hr H1 H2. erewrite bind_run; [|apply fileExists_eq]. rewrite Hr.
    cbn [negb]. erewrite bind_fail; [done|].
    unfold setProjectMode. by rewrite !bool_decide_eq_true_2.
  - intros config w' Hmode Hload Hgi Hcfg Hrt Hsz.
    set (config' := mkConfig mode (Targets config)) in *.
    erewrite bind_run; [|apply fileExists_eq].
    destruct (reachable (fs w) ".viberules/rules.md"); cbn [negb]; [|done].
    intros ([] & w1 & Hset & Hrest)%bind_ok.
    unfold setProjectMode in Hset.
    assert (bool_decide (mode ≠ "public") && bool_decide (mode ≠ "local") = false) as Hv
      by (by destruct Hmode as [-> | ->]).
    rewrite Hv, (bind_run _ _ _ _ _ Hload) in Hset. fold config' in Hset.
    apply saveConfig_plain in Hset as ->.
    2:{ intros d. by destruct Hcfg as [-> | [c ->]]. }
    set (w1 := mkWorld _ _) in Hrest.
    assert (loadConfig w1 = (Ok config', w1)) as Hload1.
    { apply loadConfig_of_file; [|done|done|apply lookup_insert_eq].
      destruct Hmode as [-> | ->]; [by right | by left]. }
    assert (fs w1 !! ".gitignore" = fs w !! ".gitignore") as Hsame
      by (cbn [fs w1]; by rewrite lookup_insert_ne).
    assert (file_or_free w1 ".gitignore") as Hgi1 by (unfold file_or_free; by rewrite Hsame).
    pose proof (addToGitignore_plain w1 Hgi1) as Hadd. cbv zeta in Hadd.
    rewrite Hload1 in Hadd. cbn [fst Mode config'] in Hadd.
    assert (text_at w1 ".gitignore" = text_at w ".gitignore") as Htext
      by (unfold text_at; by rewrite Hsame).
    rewrite Htext in Hadd.
    rewrite (bind_run _ _ _ _ _ (try_run _ _ _ _ Hadd)) in Hrest.
    injection Hrest as <-.
    split; [| split].
    + apply loadConfig_of_file; [|done|done|].
      * destruct Hmode as [-> | ->]; [by right | by left].
      * cbn [fs emit w1]. rewrite lookup_insert_ne by done. apply lookup_insert_eq.
    + cbn [fs emit]. apply lookup_insert_eq.
    + intros q Hq1 Hq2. cbn [fs emit w1]. by rewrite !lookup_insert_ne.
Qed.

End Modes.

(** ** What the commands leave alone *)

Lemma steps_for_each_in (R : world → world → Prop) {A} (l : list A) body :
  (∀ w, R w w) → (∀ w1 w2 w3, R w1 w2 → R w2 w3 → R w1 w3) →
  (∀ x, x ∈ l → steps R (body x)) → steps R (for_each l body).
Proof.
  intros Hrefl Htrans. induction l as [|x l IH]; intros Hb; cbn [for_each].
  - by apply steps_ret.
  - apply steps_bind; [done | apply Hb; by left |]. intros _. apply IH.
    intros y Hy. apply Hb. by right.
Qed.

Lemma steps_with_target_in (R : world → world → Prop) targets name body :
  (∀ w, R w w) →
  (∀ t, t ∈ targets → steps R (body t)) → steps R (with_target targets name body).
Proof.
  intros Hrefl. induction targets as [|t ts IH]; intros Hb; cbn [with_target].
  - by apply steps_fail.
  - case_decide; [apply Hb; by left|]. apply IH. intros t' Ht'. apply Hb. by right.
Qed.

Lemma links_only_at_refl S w : links_only_at S w w.
Proof. by intros q d. Qed.

Lemma links_only_at_trans S w1 w2 w3 :
  links_only_at S w1 w2 → links_only_at S w2 w3 → links_only_at S w1 w3.
Proof. intros H12 H23 q d Hq Hl. apply H12; [done|]. by apply H23. Qed.

Lemma links_only_at_insert S w q n ev :
  (q ∈ S ∨ is_symlink n = false) →
  links_only_at S w (emit ev (<[q := n]> (fs w)) w).
Proof.
  intros Hq p d Hp. cbn [fs emit]. destruct (decide (p = q)) as [->|Hne].
  - rewrite lookup_insert_eq. intros [= ->]. by destruct Hq.
  - by rewrite lookup_insert_ne.
Qed.

Lemma links_only_at_os_Mkdir S name : steps (links_only_at S) (os_Mkdir name).
Proof.
  intros w. unfold os_Mkdir. destruct (create_errno _ _); [apply links_only_at_refl|].
  apply links_only_at_insert. by right.
Qed.

Lemma links_only_at_os_MkdirAll S path : steps (links_only_at S) (os_MkdirAll path).
Proof.
  apply (steps_os_MkdirAll _ (links_only_at_refl S) (links_only_at_trans S)).
  apply links_only_at_os_Mkdir.
Qed.

Lemma links_only_at_removeSymlink S path : steps (links_only_at S) (removeSymlink path).
Proof.
  intros w. destruct (removeSymlink path w) as [[[]|e] w'] eqn:Hr.
  - apply removeSymlink_ok in Hr as (Hfs & _ & _). intros q d _. cbn [snd]. rewrite Hfs.
    destruct (decide (q = Filepath.Clean path)) as [->|Hne].
    + by rewrite lookup_delete_eq.
    + by rewrite lookup_delete_ne.
  - apply removeSymlink_err in Hr as ->. apply links_only_at_refl.
Qed.

Lemma links_only_at_createSymlink S source target :
  Filepath.Clean target ∈ S → steps (links_only_at S) (createSymlink source target).
Proof.
  intros Hin. unfold createSymlink.
  apply (steps_bind _ (links_only_at_trans S)); [apply links_only_at_removeSymlink|].
  intros _. apply (steps_bind _ (links_only_at_trans S)).
  - case_decide.
    + apply steps_on_error, links_only_at_os_MkdirAll.
    + apply steps_ret, links_only_at_refl.
  - intros _. apply steps_on_error. intros w. unfold os_Symlink.
    destruct (create_errno _ _); [apply links_only_at_refl|].
    apply links_only_at_insert. by left.
Qed.

Lemma links_only_at_mkdir_required S : steps (links_only_at S) mkdir_required.
Proof.
  apply (steps_for_each _ (links_only_at_refl S) (links_only_at_trans S)).
  intros dir. apply steps_on_error, links_only_at_os_MkdirAll.
Qed.

Lemma links_only_at_create_links targets t wrap :
  t ∈ targets →
  steps (links_only_at (link_paths targets))
    (for_each (Links t) (λ link,
       on_error (createSymlink (Source link) (Target link)) wrap)).
Proof.
  intros Ht.
  apply steps_for_each_in; [apply links_only_at_refl | apply links_only_at_trans|].
  intros l Hl. apply steps_on_error, links_only_at_createSymlink.
  unfold link_paths. apply list_elem_of_In, in_flat_map. exists t.
  split; [by apply list_elem_of_In|]. apply list_elem_of_In, list_elem_of_fmap. eauto.
Qed.

Lemma links_only_at_CreateAllSymlinks :
  steps (links_only_at (link_paths GetAllTargets)) CreateAllSymlinks.
Proof.
  apply (steps_bind _ (links_only_at_trans _)); [apply links_only_at_mkdir_required|].
  intros _.
  apply steps_for_each_in; [apply links_only_at_refl | apply links_only_at_trans|].
  intros t Ht. by apply links_only_at_create_links.
Qed.

Lemma links_only_at_CreateTargetSymlinks X :
  steps (links_only_at (link_paths GetAllTargets)) (CreateTargetSymlinks X).
Proof.
  apply steps_with_target_in; [apply links_only_at_refl|]. intros t Ht.
  apply (steps_bind _ (links_only_at_trans _)); [apply links_only_at_mkdir_required|].
  intros _. by apply links_only_at_create_links.
Qed.

Lemma links_only_at_RemoveTargetSymlinks X :
  steps (links_only_at (link_paths GetAllTargets)) (RemoveTargetSymlinks X).
Proof.
  apply steps_with_target; [apply links_only_at_refl|]. intros t.
  apply (steps_for_each _ (links_only_at_refl _) (links_only_at_trans _)).
  intros l. apply steps_on_error, links_only_at_removeSymlink.
Qed.

Lemma keeps_other_files_refl w : keeps_other_files w w.
Proof. intros Hp. split; [done|]. by intros q n. Qed.

Lemma keeps_other_files_trans w1 w2 w3 :
  keeps_other_files w1 w2 → keeps_other_files w2 w3 → keeps_other_files w1 w3.
Proof.
  intros H12 H23 Hp. destruct (H12 Hp) as [Hp2 Hk12]. destruct (H23 Hp2) as [Hp3 Hk23].
  split; [done|]. intros q n Hq Hn Hs. apply Hk23; [done | |done]. by apply Hk12.
Qed.

(** An operation that keeps files and makes links at the link paths only
    keeps the other files. *)
Lemma keeps_other_files_links {A} (m : M A) :
  steps keeps_files m → steps (links_only_at (link_paths GetAllTargets)) m →
  steps keeps_other_files m.
Proof.
  intros Hk Hl w Hp. split.
  - intros p d Hin Hlink. apply (Hp p d Hin). apply (Hl w); [|done].
    rewrite link_paths_registry. revert Hin. rewrite !elem_of_cons, !elem_of_nil.
    intros [-> | [-> | []]]; compute_done.
  - intros q n _ Hn Hs. by apply (Hk w).
Qed.

(** A write to one of the two stores. *)
Lemma keeps_other_files_write store data :
  store ∈ [".gitignore"; configPath] →
  steps keeps_other_files (os_WriteFile store data).
Proof.
  intros Hin w Hp.
  assert (store ≠ "." ∧ store ≠ "/") as [? ?].
  { revert Hin. rewrite !elem_of_cons, elem_of_nil. by intros [-> | [-> | []]]. }
  rewrite os_WriteFile_plain; [|done|done|intros d; by apply Hp].
  assert (keeps_other_files w
            (emit (EvWriteFile store data) (<[store := NFile data]> (fs w)) w)) as Hw.
  { intros _. split.
    - intros p d Hpin. cbn [fs emit]. destruct (decide (p = store)) as [->|Hne].
      + by rewrite lookup_insert_eq.
      + rewrite lookup_insert_ne by done. by apply Hp.
    - intros q n Hq Hn _. cbn [fs emit]. rewrite lookup_insert_ne; [done|].
      by intros <-. }
  destruct (fs w !! store) as [[| |]|]; try (by apply keeps_other_files_refl);
    try (by apply Hw).
  destruct (need_dir _ _); [by apply keeps_other_files_refl | by apply Hw].
Qed.

(** The rules file is written only when nothing can be read at its path:
    the write makes a new file and overwrites none. *)
Lemma keeps_other_files_new_file name data w :
  reachable (fs w) name = false →
  keeps_other_files w (os_WriteFile name data w).2.
Proof.
  unfold reachable, stat_node, os_WriteFile. intros Hr.
  destruct (follow maxSymlinks (fs w) name) as [e|q]; [apply keeps_other_files_refl|].
  destruct (node_at (fs w) q) as [n|] eqn:Hn;
    [by rewrite (lstat_node_found _ _ _ Hn) in Hr|].
  destruct (create_errno _ _); [apply keeps_other_files_refl|].
  apply node_at_none in Hn. intros Hp. split.
  - intros p d Hpin. cbn [snd fs emit]. destruct (decide (p = q)) as [->|Hne].
    + by rewrite lookup_insert_eq.
    + rewrite lookup_insert_ne by done. by apply Hp.
  - intros p n _ Hpn _. cbn [snd fs emit]. rewrite lookup_insert_ne; [done|].
    intros <-. congruence.
Qed.

Section Frames.

Context {codec : YamlCodec}.

Lemma keeps_other_files_saveConfig config : steps keeps_other_files (saveConfig config).
Proof.
  apply steps_on_error, keeps_other_files_write. compute_done.
Qed.

Lemma keeps_other_files_loadConfig : steps keeps_other_files loadConfig.
Proof. apply steps_pure; [apply keeps_other_files_refl | apply loadConfig_world]. Qed.

Lemma keeps_other_files_saveEnabledTargets targets :
  steps keeps_other_files (saveEnabledTargets targets).
Proof.
  apply (steps_bind _ keeps_other_files_trans); [apply keeps_other_files_loadConfig|].
  intros config. apply keeps_other_files_saveConfig.
Qed.

Lemma keeps_other_files_setProjectMode mode :
  steps keeps_other_files (setProjectMode mode).
Proof.
  unfold setProjectMode. apply steps_if; [apply steps_fail, keeps_other_files_refl|].
  apply (steps_bind _ keeps_other_files_trans); [apply keeps_other_files_loadConfig|].
  intros config. apply keeps_other_files_saveConfig.
Qed.

Lemma keeps_other_files_fileExists name : steps keeps_other_files (fileExists name).
Proof.
  apply steps_pure; [apply keeps_other_files_refl|]. intros w. by rewrite fileExists_eq.
Qed.

Lemma keeps_other_files_addToGitignore : steps keeps_other_files addToGitignore.
Proof.
  unfold addToGitignore.
  apply (steps_bind _ keeps_other_files_trans).
  { apply steps_pure; [apply keeps_other_files_refl|]. intros w.
    by rewrite getProjectMode_eq. }
  intros mode. apply (steps_bind _ keeps_other_files_trans);
    [apply keeps_other_files_fileExists|].
  intros ex. apply (steps_bind _ keeps_other_files_trans).
  - apply steps_if; [|apply steps_ret, keeps_other_files_refl].
    apply steps_on_error, steps_pure; [apply keeps_other_files_refl|].
    apply os_ReadFile_world.
  - intros content. apply steps_on_error, keeps_other_files_write. compute_done.
Qed.

Lemma keeps_other_files_addTarget X : steps keeps_other_files (addTarget X).
Proof.
  unfold addTarget. apply steps_if; [apply steps_fail, keeps_other_files_refl|].
  apply (steps_bind _ keeps_other_files_trans); [apply keeps_other_files_fileExists|].
  intros ex. apply steps_if; [apply steps_fail, keeps_other_files_refl|].
  apply (steps_bind _ keeps_other_files_trans).
  { apply steps_on_error, steps_pure; [apply keeps_other_files_refl|].
    apply loadEnabledTargets_world. }
  intros enabled. apply steps_if; [apply steps_ret, keeps_other_files_refl|].
  apply (steps_bind _ keeps_other_files_trans).
  { apply steps_on_error, keeps_other_files_saveEnabledTargets. }
  intros _. apply (steps_bind _ keeps_other_files_trans).
  - apply steps_on_error, keeps_other_files_links.
    + apply keeps_files_CreateTargetSymlinks.
    + apply links_only_at_CreateTargetSymlinks.
  - intros _. apply steps_ret, keeps_other_files_refl.
Qed.

Lemma keeps_other_files_removeTarget X : steps keeps_other_files (removeTarget X).
Proof.
  unfold removeTarget. apply steps_if; [apply steps_fail, keeps_other_files_refl|].
  apply (steps_bind _ keeps_other_files_trans).
  { apply steps_on_error, steps_pure; [apply keeps_other_files_refl|].
    apply loadEnabledTargets_world. }
  intros enabled. cbv zeta. apply steps_if; [apply steps_ret, keeps_other_files_refl|].
  apply (steps_bind _ keeps_other_files_trans).
  { apply steps_on_error, keeps_other_files_saveEnabledTargets. }
  intros _. apply (steps_bind _ keeps_other_files_trans).
  - apply steps_on_error, keeps_other_files_links.
    + apply keeps_files_RemoveTargetSymlinks.
    + apply links_only_at_RemoveTargetSymlinks.
  - intros _. apply steps_ret, keeps_other_files_refl.
Qed.

Lemma keeps_other_files_setModeCommand mode :
  steps keeps_other_files (setModeCommand mode).
Proof.
  unfold setModeCommand.
  apply (steps_bind _ keeps_other_files_trans); [apply keeps_other_files_fileExists|].
  intros ex. apply steps_if; [apply steps_fail, keeps_other_files_refl|].
  apply (steps_bind _ keeps_other_files_trans); [apply keeps_other_files_setProjectMode|].
  intros _. apply (steps_bind _ keeps_other_files_trans).
  - apply steps_try, keeps_other_files_addToGitignore.
  - intros _. apply steps_ret, keeps_other_files_refl.
Qed.

Lemma keeps_other_files_initProject force : steps keeps_other_files (initProject force).
Proof.
  unfold initProject.
  apply (steps_bind _ keeps_other_files_trans).
  { apply steps_try, steps_pure; [apply keeps_other_files_refl | apply os_Stat_world]. }
  intros r. apply steps_if; [apply steps_fail, keeps_other_files_refl|].
  apply (steps_bind _ keeps_other_files_trans).
  { apply steps_on_error, keeps_other_files_links.
    - apply keeps_files_os_MkdirAll.
    - apply links_only_at_os_MkdirAll. }
  intros _ w. cbv zeta.
  erewrite bind_run; [|apply fileExists_eq].
  assert (∀ {B} (k : () → M B), steps keeps_other_files (k ()) →
            keeps_other_files w
              (((if negb (reachable (fs w) ".viberules/rules.md")
                 then on_error (os_WriteFile ".viberules/rules.md" rulesContent)
                        (λ err, Errorf "failed to create .viberules/rules.md: %w"
                                  [ArgE err])
                 else ret ()) ≫= k) w).2) as Hstep.
  { intros B k Hk. destruct (reachable (fs w) ".viberules/rules.md") eqn:Hr; cbn [negb].
    - apply (Hk w).
    - pose proof (keeps_other_files_new_file ".viberules/rules.md" rulesContent w Hr)
        as Hw.
      run. destruct (os_WriteFile ".viberules/rules.md" rulesContent w) as [[[]|e] w1];
        [|done].
      eapply keeps_other_files_trans; [exact Hw | apply (Hk w1)]. }
  apply Hstep.
  apply (steps_bind _ keeps_other_files_trans).
  { apply steps_try, keeps_other_files_addToGitignore. }
  intros _. apply (steps_bind _ keeps_other_files_trans).
  { apply steps_on_error, keeps_other_files_links.
    - apply keeps_files_CreateAllSymlinks.
    - apply links_only_at_CreateAllSymlinks. }
  intros _. apply (steps_bind _ keeps_other_files_trans).
  - apply steps_try, keeps_other_files_saveConfig.
  - intros _. apply steps_ret, keeps_other_files_refl.
Qed.

(** X16. The commands write two files, .gitignore and the config store,
    and nothing else that exists: as long as these two are not symbolic
    links, every other regular file and every directory of the tree is
    there with its content after [initProject] (with or without --force),
    [addTarget], [removeTarget] and [setModeCommand], whatever their
    arguments and whether they succeed or fail.  In particular an existing
    rules file is never overwritten. *)
Theorem commands_keep_other_files (w : world) (q : string) (n : node) :
  stores_plain w →
  fs w !! q = Some n → is_symlink n = false →
  q ≠ ".gitignore" → q ≠ configPath →
  (∀ force, fs (initProject force w).2 !! q = Some n)
  ∧ (∀ X, fs (addTarget X w).2 !! q = Some n)
  ∧ (∀ X, fs (removeTarget X w).2 !! q = Some n)
  ∧ (∀ mode, fs (setModeCommand mode w).2 !! q = Some n).
Proof.
  intros Hp Hq Hn H1 H2.
  assert (q ∉ [".gitignore"; configPath]) as Hnin.
  { rewrite !elem_of_cons, elem_of_nil. by intros [-> | [-> | []]]. }
  repeat split; intros.
  - by apply (keeps_other_files_initProject force w Hp).
  - by apply (keeps_other_files_addTarget X w Hp).
  - by apply (keeps_other_files_removeTarget X w Hp).
  - by apply (keeps_other_files_setModeCommand mode w Hp).
Qed.

End Frames.

(** ** Initialising a project *)




Section Init.

Context {codec : YamlCodec}.


End Init.

(** ** The commands on sample projects *)



Lemma setModeCommand_sets_mode_and_section_witness :
  let set := setModeCommand (codec := BlockYaml.codec) "local" Sample.public_project in
  setModeCommand (codec := BlockYaml.codec) "local" Sample.fresh
  = (Err (Errorf ".viberules/rules.md not found. Run 'viberules init' first"
            (@nil fmt_arg)), Sample.fresh)
  ∧ setModeCommand (codec := BlockYaml.codec) "team" Sample.public_project
    = (Err (Errorf "invalid mode: %s (must be 'public' or 'local')" [ArgS "team"]),
       Sample.public_project)
  ∧ loadConfig (codec := BlockYaml.codec) set.2 = (Ok (mkConfig "local" ["gemini"]), set.2)
  ∧ fs set.2 !! ".gitignore"
    = Some (NFile ("node_modules" +:+ String newline "" +:+ viberulesSection "local")).
Proof.
  destruct (setModeCommand_sets_mode_and_section (codec := BlockYaml.codec)
              "local" Sample.fresh) as (Hnone & _ & _).
  destruct (setModeCommand_sets_mode_and_section (codec := BlockYaml.codec)
              "team" Sample.public_project) as (_ & Hbad & _).
  destruct (setModeCommand_sets_mode_and_section (codec := BlockYaml.codec)
              "local" Sample.public_project) as (_ & _ & Hset).
  destruct (Hset (mkConfig "public" ["gemini"])
              (setModeCommand (codec := BlockYaml.codec) "local" Sample.public_project).2)
    as (Hload & Hgi & _); try reflexivity.
  - by right.
  - right. by eexists.
  - right. by eexists.
  - vm_compute. discriminate.
  - split; [by apply Hnone|]. split; [by apply Hbad|]. split; [exact Hload | exact Hgi].
Defined.

Lemma commands_keep_other_files_witness :
  fs (initProject (codec := BlockYaml.codec) true Sample.with_user_files).2 !! "CLAUDE.md"
  = Some (NFile "my notes")
  ∧ fs (addTarget (codec := BlockYaml.codec) "claude" Sample.gemini_and_notes).2
      !! "CLAUDE.md" = Some (NFile "my notes")
  ∧ fs (initProject (codec := BlockYaml.codec) true Sample.public_project).2
      !! ".viberules/rules.md" = Some (NFile "# rules").
Proof.
  assert (stores_plain Sample.with_user_files ∧ stores_plain Sample.gemini_and_notes
          ∧ stores_plain Sample.public_project) as (H1 & H2 & H3).
  { repeat split; intros p d Hp; rewrite !elem_of_cons, elem_of_nil in Hp;
      destruct Hp as [-> | [-> | []]]; done. }
  destruct (commands_keep_other_files (codec := BlockYaml.codec) Sample.with_user_files
              "CLAUDE.md" (NFile "my notes") H1 eq_refl eq_refl) as (Hinit & _);
    [done | done |].
  destruct (commands_keep_other_files (codec := BlockYaml.codec) Sample.gemini_and_notes
              "CLAUDE.md" (NFile "my notes") H2 eq_refl eq_refl) as (_ & Hadd & _);
    [done | done |].
  destruct (commands_keep_other_files (codec := BlockYaml.codec) Sample.public_project
              ".viberules/rules.md" (NFile "# rules") H3 eq_refl eq_refl) as (Hre & _);
    [done | done |].
  split; [apply Hinit|]. split; [apply Hadd | apply Hre].
Defined.


(** ** The ignore section and the mode *)

Lemma viberulesSection_replaced mode1 mode2 :
  gitignore_rewrite mode2 (viberulesSection mode1) = viberulesSection mode2.
Proof.
  unfold gitignore_rewrite, viberulesSection.
  destruct (decide (mode1 = "local")), (decide (mode2 = "local")); vm_compute; reflexivity.
Qed.

(** A text without section headers that is followed by a section, of
    whichever mode, keeps the text and gets the section of the mode asked
    for. *)
Lemma gitignore_rewrite_switch mode1 mode2 t :
  t ≠ "" → Strings.TrimRight t newline = t →
  Forall no_header (Strings.Split t newline) →
  gitignore_rewrite mode2 (t +:+ String newline "" +:+ viberulesSection mode1)
  = t +:+ String newline "" +:+ viberulesSection mode2.
Proof.
  intros Hne Htrim Hlines.
  destruct (viberulesSection_shape mode1) as (body & Hs & Hstrip & Hmark & _).
  rewrite gitignore_rewrite_detected.
  2:{ unfold section_detected, contains. apply orb_true_iff. left.
      do 2 apply Contains_app_l. rewrite Hs. cbn [Strings.Contains].
      by rewrite Hmark, orb_true_r. }
  assert (kept_text (t +:+ String newline "" +:+ viberulesSection mode1) = t) as ->.
  { unfold kept_text. rewrite Hs.
    change (String newline "" +:+ String newline body) with (String newline (String newline body)).
    rewrite Split_app, Split_cons_sep, strip_sections_app by done.
    cbn [strip_sections]. change (Strings.HasPrefix "" gitignoreSectionPrefix) with false.
    cbn match. rewrite Hstrip, Join_snoc by apply Split_nonempty.
    rewrite Join_Split, string_app_nil_r, TrimRight_snoc. done. }
  rewrite decide_False by done. by rewrite string_app_assoc.
Qed.

(** X18. Every text that the rewrite of [addToGitignore] returns holds
    a section marker, and on a text that holds one the result depends on
    the mode of the last run only: rewriting for one mode and then for
    another gives what rewriting for the other alone gives.  A text that
    holds a marker need not be left as it is, though: the first run on a
    .gitignore that ends with an empty line returns a text that the next
    run, in the same mode or after a change of mode and back, does not
    return.  What a run returns for a text that holds a marker, hence what
    any second run returns, is settled: a further run in the same mode
    returns it, and so does a change of mode and back, byte for byte.  A
    text without section headers and without trailing empty lines that is
    followed by a section keeps the text and has the section replaced. *)
Theorem gitignore_rewrite_depends_on_last_mode (mode1 mode2 : string) :
  (∀ contentStr, section_detected (gitignore_rewrite mode1 contentStr) = true)
  ∧ (∀ contentStr,
       section_detected contentStr = true →
       gitignore_rewrite mode2 (gitignore_rewrite mode1 contentStr)
       = gitignore_rewrite mode2 contentStr)
  ∧ (∀ contentStr,
       section_detected contentStr = true →
       let settled := gitignore_rewrite mode1 contentStr in
       gitignore_rewrite mode1 settled = settled
       ∧ gitignore_rewrite mode1 (gitignore_rewrite mode2 settled) = settled)
  ∧ (∀ contentStr,
       let second := gitignore_rewrite mode1 (gitignore_rewrite mode2 contentStr) in
       gitignore_rewrite mode1 second = second
       ∧ gitignore_rewrite mode1 (gitignore_rewrite mode2 second) = second)
  ∧ (let first := gitignore_rewrite "local" Sample.blank_line_text in
     section_detected first = true
     ∧ gitignore_rewrite "local" first ≠ first
     ∧ gitignore_rewrite "local" (gitignore_rewrite "public" first) ≠ first)
  ∧ (∀ t, t ≠ "" → Strings.TrimRight t newline = t →
       Forall no_header (Strings.Split t newline) →
       gitignore_rewrite mode2 (t +:+ String newline "" +:+ viberulesSection mode1)
       = t +:+ String newline "" +:+ viberulesSection mode2).
Proof.
  assert (∀ m1 m2 contentStr,
            section_detected contentStr = true →
            gitignore_rewrite m2 (gitignore_rewrite m1 contentStr)
            = gitignore_rewrite m2 contentStr) as Hlast.
  { intros m1 m2 contentStr Hd.
    rewrite (gitignore_rewrite_detected m1 contentStr Hd),
            (gitignore_rewrite_detected m2 contentStr Hd).
    case_decide as Hk.
    - rewrite !string_app_nil_l. apply viberulesSection_replaced.
    - rewrite !string_app_assoc. apply gitignore_rewrite_switch; [done | |].
      + apply TrimRight_idemp.
      + apply kept_text_lines. }
  assert (∀ contentStr,
            section_detected contentStr = true →
            let settled := gitignore_rewrite mode1 contentStr in
            gitignore_rewrite mode1 settled = settled
            ∧ gitignore_rewrite mode1 (gitignore_rewrite mode2 settled) = settled)
    as Hsettled.
  { intros contentStr Hd settled.
    assert (gitignore_rewrite mode1 settled = settled) as Hfix
      by (by apply Hlast).
    split; [exact Hfix|].
    rewrite Hlast by apply gitignore_rewrite_detects. exact Hfix. }
  split; [apply gitignore_rewrite_detects|]. split; [by apply Hlast|].
  split; [exact Hsettled|]. split.
  { intros contentStr. apply Hsettled, gitignore_rewrite_detects. }
  split; [|apply gitignore_rewrite_switch].
  split; [apply gitignore_rewrite_detects|].
  split; vm_compute; discriminate.
Qed.

Lemma gitignore_rewrite_depends_on_last_mode_witness :
  let first := gitignore_rewrite "local" Sample.blank_line_text in
  let settled := gitignore_rewrite "local" first in
  gitignore_rewrite "public" settled = gitignore_rewrite "public" first
  ∧ settled ≠ first
  ∧ gitignore_rewrite "local" settled = settled
  ∧ gitignore_rewrite "local" (gitignore_rewrite "public" settled) = settled
  ∧ gitignore_rewrite "public"
      ("node_modules" +:+ String newline "" +:+ viberulesSection "local")
    = "node_modules" +:+ String newline "" +:+ viberulesSection "public".
Proof.
  intros first settled.
  destruct (gitignore_rewrite_depends_on_last_mode "local" "public")
    as (Hmark & Hlast & Hsettled & _ & (_ & Hmoves & _) & Hswitch).
  assert (section_detected first = true) as Hd by apply Hmark.
  split; [by apply Hlast|]. split; [exact Hmoves|].
  split; [by apply (Hsettled first)|]. split; [by apply (Hsettled first)|].
  apply (Hswitch "node_modules"); [done | reflexivity | by repeat constructor].
Defined.

(** ** Where the loop over the registry stops *)

Lemma link_path_of targets t l :
  t ∈ targets → l ∈ Links t → Filepath.Clean (Target l) ∈ link_paths targets.
Proof.
  intros Ht Hl. unfold link_paths. apply list_elem_of_In, in_flat_map. exists t.
  split; [by apply list_elem_of_In|]. apply list_elem_of_In, list_elem_of_fmap. eauto.
Qed.

Lemma link_paths_app ts1 ts2 : link_paths (ts1 ++ ts2) = link_paths ts1 ++ link_paths ts2.
Proof. unfold link_paths. apply flat_map_app. Qed.

(** The loop makes the links of the targets that come before the first
    occupied link path and fails there. *)
Lemma create_targets_stops before t after l n wrap w :
  Forall (λ t, t ∈ GetAllTargets) (before ++ t :: after) →
  NoDup (link_paths (before ++ t :: after)) →
  node_at (fs w) ".amazonq/rules" = Some NDir →
  plain_parents w →
  l ∈ Links t →
  (∀ t' l' n', t' ∈ before → l' ∈ Links t' →
     node_at (fs w) (Target l') = Some n' → is_symlink n' = true) →
  node_at (fs w) (Target l) = Some n → is_symlink n = false →
  ∃ w', for_each (before ++ t :: after) (λ target,
          for_each (Links target) (λ link,
            on_error (createSymlink (Source link) (Target link)) (wrap target))) w
        = (Err (wrap t (Errorf "refusing to remove %s: not a symlink" [ArgS (Target l)])),
           w')
        ∧ (∀ t' l', t' ∈ before → l' ∈ Links t' →
             node_at (fs w') (Target l') = Some (NSymlink (Source l')))
        ∧ same_outside (link_paths before) w w'.
Proof.
  revert w. induction before as [|b before IH]; intros w Hreg Hnd Hdir Hpp Hl Hfree Hn Hs;
    cbn [app for_each] in *.
  - apply Forall_cons in Hreg as [Ht _].
    destruct (registry_links t Ht) as (l0 & Hlinks & _).
    rewrite Hlinks in Hl. apply list_elem_of_singleton in Hl as ->.
    assert (l0 ∈ Links t) as Hl by (rewrite Hlinks; apply list_elem_of_here).
    pose proof (createSymlink_registry t l0 w Ht Hl Hdir) as Hcr. rewrite Hn in Hcr.
    exists w. split; [| split; [by intros ? ? ?%elem_of_nil | apply same_outside_refl]].
    rewrite Hlinks. cbn [for_each].
    apply bind_fail, bind_fail, on_error_fail.
    by destruct n as [| |d].
  - apply Forall_cons in Hreg as [Hb Hreg].
    destruct (registry_links b Hb) as (lb & Hlinks & _ & Hct & Hnrules & _).
    assert (lb ∈ Links b) as Hlb by (rewrite Hlinks; apply list_elem_of_here).
    change (b :: before ++ t :: after) with ([b] ++ (before ++ t :: after)) in Hnd.
    rewrite link_paths_app in Hnd.
    apply NoDup_app in Hnd as (_ & Hdisj & Hnd).
    assert (∀ t' l', t' ∈ before ++ t :: after → l' ∈ Links t' → Target l' ≠ Target lb)
      as Hother.
    { intros t' l' Ht' Hl' Heq.
      assert (t' ∈ GetAllTargets) as Hreg' by (by eapply Forall_forall in Hreg).
      destruct (registry_links t' Hreg') as (l0 & Hlinks' & _ & Hct' & _).
      rewrite Hlinks' in Hl'. apply list_elem_of_singleton in Hl' as ->.
      apply (Hdisj (Target lb)).
      - rewrite <- Hct. apply (link_path_of [b] b lb); [by left | done].
      - rewrite <- Heq, <- Hct'. apply (link_path_of _ t' l0); [done|].
        rewrite Hlinks'. by left. }
    set (made := <[Target lb := NSymlink (Source lb)]> (fs w)).
    assert (∃ evs, createSymlink (Source lb) (Target lb) w = (Ok (), mkWorld made evs))
      as (evs & Hcr).
    { rewrite (createSymlink_registry b lb w Hb Hlb Hdir).
      rewrite (absent_errno_registry b lb w Hb Hlb Hpp).
      destruct (node_at (fs w) (Target lb)) as [[c| |d]|] eqn:Hnb; try by eexists.
      - by specialize (Hfree b lb (NFile c) ltac:(left) Hlb Hnb).
      - by specialize (Hfree b lb NDir ltac:(left) Hlb Hnb). }
    destruct (IH (mkWorld made evs)) as (w' & Hrun & Hmade & Hsame); try done.
    + cbn [fs]. unfold made. by rewrite node_at_insert_ne.
    + by apply (plain_parents_insert_link w b lb).
    + intros t' l' n' Ht' Hl' Hn'. apply (Hfree t' l' n'); [by right | done |].
      cbn [fs] in Hn'. unfold made in Hn'. rewrite node_at_insert_ne in Hn'; [done|].
      apply (Hother t' l'); [apply elem_of_app; by left | done].
    + cbn [fs]. unfold made. rewrite node_at_insert_ne; [done|].
      apply (Hother t l); [apply elem_of_app; right; by left | done].
    + exists w'. split; [| split].
      * rewrite Hlinks. cbn [for_each].
        erewrite bind_run; [exact Hrun|].
        erewrite bind_run; [reflexivity|]. by apply on_error_run.
      * intros t' l' [-> | Ht']%elem_of_cons Hl'; [|by apply (Hmade t')].
        rewrite Hlinks in Hl'. apply list_elem_of_singleton in Hl' as ->.
        destruct (registry_not_special b lb Hb Hlb) as [? ?].
        rewrite node_at_special by done. rewrite Hsame.
        -- cbn [fs]. unfold made. apply lookup_insert_eq.
        -- intros Hin. apply (Hdisj (Target lb)).
           ++ rewrite <- Hct. apply (link_path_of [b] b lb); [by left | done].
           ++ rewrite link_paths_app. apply elem_of_app. by left.
      * intros q Hq.
        change (b :: before) with ([b] ++ before) in Hq. rewrite link_paths_app in Hq.
        apply not_elem_of_app in Hq as [Hq1 Hq2].
        rewrite Hsame by done. cbn [fs]. unfold made. rewrite lookup_insert_ne; [done|].
        intros <-. apply Hq1. rewrite <- Hct. apply (link_path_of [b] b lb); [by left|done].
Qed.

(** X19. [CreateAllSymlinks] goes through the registry in order and stops
    at the first link path that holds a regular file or a directory: it
    returns the refusal wrapped with the name of that target, the links of
    the targets before it have been made and stay (nothing is rolled
    back), and the occupied path and the link paths of the targets after
    it are as they were. *)
Theorem CreateAllSymlinks_stops_at_first_refusal
    (w : world) (before after : list TargetDef) (t : TargetDef) (l : SymlinkDef)
    (n : node) :
  GetAllTargets = before ++ t :: after →
  l ∈ Links t →
  plain_parents w →
  (∀ t' l' n', t' ∈ before → l' ∈ Links t' →
     entry_at w (Target l') = Some n' → is_symlink n' = true) →
  entry_at w (Target l) = Some n → is_symlink n = false →
  ∃ w', CreateAllSymlinks w
        = (Err (Errorf "failed to create symlink for %s: %w"
                  [ArgS (Name t);
                   ArgE (Errorf "refusing to remove %s: not a symlink"
                           [ArgS (Target l)])]), w')
        ∧ (∀ t' l', t' ∈ before → l' ∈ Links t' →
             entry_at w' (Target l') = Some (NSymlink (Source l')))
        ∧ entry_at w' (Target l) = Some n
        ∧ (∀ t' l', t' ∈ after → l' ∈ Links t' →
             entry_at w' (Target l') = entry_at w (Target l')).
Proof.
  intros Hsplit Hl (w1 & Hmk & Hdir & Hsame1 & Hpp1)%plain_parents_mkdir Hfree Hn Hs.
  assert (Forall (λ t, t ∈ GetAllTargets) (before ++ t :: after)) as Hreg
    by (rewrite <- Hsplit; by apply Forall_forall).
  assert (∀ t' l', t' ∈ GetAllTargets → l' ∈ Links t' →
            node_at (fs w1) (Target l') = entry_at w (Target l')) as Hentry.
  { intros t' l' Ht' Hl'. rewrite (registry_entry_at t' l') by done.
    apply node_at_same, Hsame1. by apply (registry_link_path t' l'). }
  assert (∀ t', t' ∈ before ++ t :: after → t' ∈ GetAllTargets) as Hin
    by (intros t'; by rewrite Hsplit).
  destruct (create_targets_stops before t after l n
              (λ t err, Errorf "failed to create symlink for %s: %w"
                          [ArgS (Name t); ArgE err]) w1) as (w' & Hrun & Hmade & Hsame);
    try done.
  - rewrite <- Hsplit. apply link_paths_NoDup.
  - intros t' l' n' Ht' Hl'. rewrite (Hentry t' l'); [by apply (Hfree t')| |done].
    apply Hin, elem_of_app. by left.
  - rewrite (Hentry t l); [done| |done]. apply Hin, elem_of_app. right. by left.
  - pose proof link_paths_NoDup as Hnd. rewrite Hsplit, link_paths_app in Hnd.
    apply NoDup_app in Hnd as (_ & Hdisj & _).
    assert (∀ t' l', t' ∈ t :: after → l' ∈ Links t' →
              entry_at w' (Target l') = entry_at w (Target l')) as Hkept.
    { intros t' l' Ht' Hl'.
      assert (t' ∈ GetAllTargets) as Hreg' by (apply Hin, elem_of_app; by right).
      rewrite <- (Hentry t' l') by done. rewrite (registry_entry_at t' l') by done.
      apply node_at_same, Hsame. intros Hq.
      apply (Hdisj _ Hq).
      destruct (registry_links t' Hreg') as (l0 & Hlinks' & _ & Hct' & _).
      rewrite Hlinks' in Hl'. apply list_elem_of_singleton in Hl' as ->.
      rewrite <- Hct'. apply (link_path_of _ t' l0); [done | rewrite Hlinks'; by left]. }
    exists w'. split; [| split; [| split]].
    + unfold CreateAllSymlinks. rewrite (bind_run _ _ _ _ _ Hmk). cbv zeta.
      rewrite Hsplit. exact Hrun.
    + intros t' l' Ht' Hl'. rewrite (registry_entry_at t' l'); [by apply (Hmade t')| |done].
      apply Hin, elem_of_app. by left.
    + rewrite (Hkept t l); [done | by left | done].
    + intros t' l' Ht' Hl'. apply (Hkept t'); [by right | done].
Qed.

Lemma CreateAllSymlinks_stops_at_first_refusal_witness :
  ∃ w', CreateAllSymlinks Sample.own_gemini
        = (Err (Errorf "failed to create symlink for %s: %w"
                  [ArgS "gemini";
                   ArgE (Errorf "refusing to remove %s: not a symlink"
                           [ArgS "GEMINI.md"])]), w')
        ∧ entry_at w' "CLAUDE.md" = Some (NSymlink ".viberules/rules.md")
        ∧ entry_at w' ".amazonq/rules/AMAZONQ.md"
          = Some (NSymlink "../../.viberules/rules.md")
        ∧ entry_at w' "GEMINI.md" = Some (NFile "mine")
        ∧ entry_at w' "AGENTS.md" = None.
Proof.
  set (claude := mkTarget "claude" [mkSymlinkDef ".viberules/rules.md" "CLAUDE.md"]).
  set (amazonq := mkTarget "amazonq"
                    [mkSymlinkDef "../../.viberules/rules.md" ".amazonq/rules/AMAZONQ.md"]).
  set (codex := mkTarget "codex" [mkSymlinkDef ".viberules/rules.md" "AGENTS.md"]).
  destruct (CreateAllSymlinks_stops_at_first_refusal Sample.own_gemini
              [claude; amazonq] [codex]
              (mkTarget "gemini" [mkSymlinkDef ".viberules/rules.md" "GEMINI.md"])
              (mkSymlinkDef ".viberules/rules.md" "GEMINI.md") (NFile "mine"))
    as (w' & Hrun & Hmade & Hkept & Hafter); try reflexivity.
  - compute_done.
  - intros p Hp. rewrite !elem_of_cons, elem_of_nil in Hp.
    destruct Hp as [-> | [-> | []]]; by left.
  - intros t' l' n' Ht' Hl'. rewrite !elem_of_cons, elem_of_nil in Ht'.
    destruct Ht' as [-> | [-> | []]]; apply list_elem_of_singleton in Hl' as ->;
      discriminate.
  - exists w'. split; [exact Hrun|]. split; [|split; [|split; [exact Hkept|]]].
    + apply (Hmade claude (mkSymlinkDef ".viberules/rules.md" "CLAUDE.md")); compute_done.
    + apply (Hmade amazonq
               (mkSymlinkDef "../../.viberules/rules.md" ".amazonq/rules/AMAZONQ.md"));
        compute_done.
    + apply (Hafter codex (mkSymlinkDef ".viberules/rules.md" "AGENTS.md"));
        compute_done.
Defined.

(** ** The lists of main.go and the registry *)

(** X20. The lists that main.go spells out agree with the registry of
    package core.  [isValidTarget] accepts exactly the names of the
    registry targets, so a valid name is never unknown to the per-target
    operations; the targets enabled by default are the registry targets in
    registry order; and in both modes the section written to .gitignore
    has a pattern for every link path, the path itself for a link at the
    top of the project and its first directory for the nested one. *)
Theorem main_lists_agree_with_registry :
  (∀ X, isValidTarget X = true ↔ ∃ t, t ∈ GetAllTargets ∧ Name t = X)
  ∧ (∀ (codec : YamlCodec) w,
       fs w !! configPath = None →
       loadEnabledTargets w = (Ok (map Name GetAllTargets), w))
  ∧ (∀ mode t l, t ∈ GetAllTargets → l ∈ Links t →
       ignore_pattern (Target l) ∈ Strings.Split (viberulesSection mode) newline).
Proof.
  split; [| split].
  - intros X. split.
    + intros HX. destruct (find_target_valid X HX) as (t & _ & Ht & Hname & _). eauto.
    + intros (t & Ht & <-). unfold GetAllTargets in Ht.
      rewrite !elem_of_cons, elem_of_nil in Ht.
      destruct Ht as [-> | [-> | [-> | [-> | []]]]]; compute_done.
  - intros codec w Hnone. rewrite loadEnabledTargets_eq, loadConfig_eq.
    by rewrite stat_node_absent by (by rewrite node_at_config).
  - intros mode t l Ht Hl. unfold GetAllTargets in Ht.
    rewrite !elem_of_cons, elem_of_nil in Ht. unfold viberulesSection.
    destruct Ht as [-> | [-> | [-> | [-> | []]]]];
      apply list_elem_of_singleton in Hl as ->;
      destruct (decide (mode = "local")); compute_done.
Qed.

Lemma main_lists_agree_with_registry_witness :
  (∃ t, t ∈ GetAllTargets ∧ Name t = "codex")
  ∧ loadEnabledTargets (codec := BlockYaml.codec) Sample.fresh
    = (Ok ["claude"; "amazonq"; "gemini"; "codex"], Sample.fresh)
  ∧ ".amazonq/" ∈ Strings.Split (viberulesSection "public") newline.
Proof.
  destruct main_lists_agree_with_registry as (Hvalid & Hdefault & Hignore).
  split; [by apply Hvalid|]. split; [by apply (Hdefault BlockYaml.codec)|].
  apply (Hignore "public"
           (mkTarget "amazonq"
              [mkSymlinkDef "../../.viberules/rules.md" ".amazonq/rules/AMAZONQ.md"])
           (mkSymlinkDef "../../.viberules/rules.md" ".amazonq/rules/AMAZONQ.md"));
    compute_done.
Defined.
